(** * The natural-language command router of [run.js]

    A shallow embedding of [INTENT_RULES] and [detectIntent], together with
    the parts of the JavaScript runtime they rely on: strings as sequences of
    UTF-16 code units, [String.prototype.trim], [replace], [match], [split],
    [parseFloat] and the backtracking regular-expression matcher of
    ECMAScript (continuation-passing, as in the language definition).
    Numbers are doubles, kept as their exact decimal expansion.  The table
    and the dispatcher come twice: as functions of the input, and as
    computations on the store of RegExp objects that the literals of the
    source create.  Around them: the command line of [index.js], the run
    command of [run.js] with the handlers of [approvals.js] and
    [knowledge.js] up to the request they send, the keys of knowledge
    entries, and [timeAgo] and [table] of [output.js]. *)

From Stdlib Require Import String Ascii.
From Stdlib Require Import List NArith ZArith Bool Arith Lia.
Import ListNotations.

Set Implicit Arguments.

(** ** Strings *)

(** A JavaScript string is a sequence of 16-bit code units. *)
Definition char := N.
Definition str := list char.

Definition ch (a : ascii) : char := N_of_ascii a.
Definition js (s : string) : str := map N_of_ascii (list_ascii_of_string s).
Arguments js s%_string.

(** ** Character predicates of the language definition *)

Local Open Scope N_scope.

Definition between (lo hi c : char) : bool := (lo <=? c) && (c <=? hi).
Arguments between (lo hi c)%_N.

(** [\d] *)
Definition is_digit (c : char) : bool := between 48 57 c.

(** WhiteSpace and LineTerminator: what [\s] matches and [trim] removes. *)
Definition is_space (c : char) : bool :=
  between 9 13 c || (c =? 32)%N || (c =? 160)%N || (c =? 5760)%N
  || between 8192 8202 c || (c =? 8232)%N || (c =? 8233)%N
  || (c =? 8239)%N || (c =? 8287)%N || (c =? 12288)%N || (c =? 65279)%N.

(** LineTerminator: what [.] refuses. *)
Definition is_line_terminator (c : char) : bool :=
  (c =? 10)%N || (c =? 13)%N || (c =? 8232)%N || (c =? 8233)%N.

(** The word characters of [\b] (no [u] flag): [A-Za-z0-9_]. *)
Definition is_word (c : char) : bool :=
  between 97 122 c || between 65 90 c || is_digit c || (c =? 95)%N.

(** Canonicalize, for the [i] flag.  Every literal of the patterns below is
    an ASCII character; on the ASCII range Canonicalize is upper-casing, and
    a code unit of 128 or more never canonicalizes into the ASCII range, so
    comparing after upper-casing [a-z] is what the runtime does. *)
Definition canonicalize (c : char) : char :=
  if between 97 122 c then (c - 32)%N else c.

Definition char_eq (ignoreCase : bool) (a b : char) : bool :=
  if ignoreCase then (canonicalize a =? canonicalize b)%N else (a =? b)%N.

Local Close Scope N_scope.

(** ** String methods *)

Fixpoint trimStart (s : str) : str :=
  match s with
  | c :: s' => if is_space c then trimStart s' else s
  | [] => []
  end.

Definition trimEnd (s : str) : str := rev (trimStart (rev s)).

Definition trim (s : str) : str := trimEnd (trimStart s).

Definition endsWith (s : str) (c : char) : bool :=
  match rev s with
  | d :: _ => (d =? c)%N
  | [] => false
  end.

Fixpoint join (sep : str) (l : list str) : str :=
  match l with
  | [] => []
  | [w] => w
  | w :: l' => w ++ sep ++ join sep l'
  end.

(** [a.slice(0, Math.min(n, a.length))] *)
Definition slice0 (A : Type) (n : nat) (a : list A) : list A :=
  firstn (Nat.min n (length a)) a.

(** ** Regular expressions *)

Inductive atom : Type :=
| ADigit                (* \d *)
| ASpace                (* \s *)
| ANonSpace             (* \S *)
| AChar (c : char).

Inductive regex : Type :=
| Eps
| Chr (c : char)                       (* a pattern character *)
| Dot                                  (* . *)
| Cls (l : list atom)                  (* a class escape or [...] *)
| Bol                                  (* ^ *)
| Eol                                  (* $ *)
| WordB                                (* \b *)
| Seq (r1 r2 : regex)
| Alt (r1 r2 : regex)
| Star (greedy : bool) (r : regex)     (* r* and r*? *)
| Opt (r : regex)                      (* r? *)
| Group (n : nat) (r : regex).         (* the n-th capturing group *)

(** [r+] needs one iteration and then behaves as [r*]. *)
Definition Plus (greedy : bool) (r : regex) : regex := Seq r (Star greedy r).

Fixpoint lit (w : str) : regex :=
  match w with
  | [] => Eps
  | [c] => Chr c
  | c :: w' => Seq (Chr c) (lit w')
  end.

Fixpoint alts (l : list regex) : regex :=
  match l with
  | [] => Eps
  | [r] => r
  | r :: l' => Alt r (alts l')
  end.

Fixpoint seqs (l : list regex) : regex :=
  match l with
  | [] => Eps
  | [r] => r
  | r :: l' => Seq r (seqs l')
  end.

Definition words (l : list string) : regex := alts (map (fun w => lit (js w)) l).

Definition atom_matches (a : atom) (c : char) : bool :=
  match a with
  | ADigit => is_digit c
  | ASpace => is_space c
  | ANonSpace => negb (is_space c)
  | AChar d => (d =? c)%N
  end.

Definition class_matches (l : list atom) (c : char) : bool :=
  existsb (fun a => atom_matches a c) l.

(** The matcher state: the text already passed (most recent character
    first), the text ahead, and the captures made so far. *)
Record mstate : Type := MState {
  before : str;
  after : str;
  caps : list (nat * str)
}.

Definition cont := mstate -> option mstate.
Definition matcher := cont -> mstate -> option mstate.

Definition advance (c : char) (x : mstate) (rest : str) : mstate :=
  MState (c :: before x) rest (caps x).

Definition char_matcher (p : char -> bool) : matcher :=
  fun k x =>
    match after x with
    | c :: rest => if p c then k (advance c x rest) else None
    | [] => None
    end.

Definition head_is (p : char -> bool) (s : str) : bool :=
  match s with
  | c :: _ => p c
  | [] => false
  end.

Definition at_word_boundary (x : mstate) : bool :=
  xorb (head_is is_word (before x)) (head_is is_word (after x)).

Definition is_nil (A : Type) (l : list A) : bool :=
  match l with [] => true | _ => false end.

(** The text consumed between two states of one match. *)
Definition consumed (x y : mstate) : str :=
  firstn (length (after x) - length (after y)) (after x).

Definition set_cap (n : nat) (w : str) (y : mstate) : mstate :=
  MState (before y) (after y) ((n, w) :: caps y).

Definition no_progress (x y : mstate) : bool :=
  length (after y) =? length (after x).

(** RepeatMatcher with min = 0 and no upper bound.  An iteration that
    consumes nothing is refused, so the number of iterations is at most the
    length of the text ahead, which is the fuel [n] the loop is started
    with. *)
Fixpoint repeat_matcher (m : matcher) (greedy : bool) (n : nat) : matcher :=
  fun k x =>
    match n with
    | O => k x
    | S n' =>
        if greedy then
          match m (fun y => if no_progress x y then None
                            else repeat_matcher m greedy n' k y) x with
          | Some z => Some z
          | None => k x
          end
        else
          match k x with
          | Some z => Some z
          | None => m (fun y => if no_progress x y then None
                                else repeat_matcher m greedy n' k y) x
          end
    end.

Fixpoint rmatch (ic : bool) (r : regex) : matcher :=
  match r with
  | Eps => fun k x => k x
  | Chr c => char_matcher (char_eq ic c)
  | Dot => char_matcher (fun c => negb (is_line_terminator c))
  | Cls l => char_matcher (class_matches l)
  | Bol => fun k x => if is_nil (before x) then k x else None
  | Eol => fun k x => if is_nil (after x) then k x else None
  | WordB => fun k x => if at_word_boundary x then k x else None
  | Seq r1 r2 => fun k x => rmatch ic r1 (rmatch ic r2 k) x
  | Alt r1 r2 => fun k x =>
      match rmatch ic r1 k x with
      | Some z => Some z
      | None => rmatch ic r2 k x
      end
  | Star g r' => fun k x => repeat_matcher (rmatch ic r') g (length (after x)) k x
  | Opt r' => fun k x =>
      match rmatch ic r' (fun y => if no_progress x y then None else k y) x with
      | Some z => Some z
      | None => k x
      end
  | Group n r' => fun k x => rmatch ic r' (fun y => k (set_cap n (consumed x y) y)) x
  end.

(** A RegExp object: the pattern and the flags the source gives it. *)
Record RegExp : Type := Re {
  pattern : regex;
  ignoreCase : bool;
  global : bool
}.

(** The result of a successful match. *)
Record match_result : Type := MatchResult {
  skipped : str;        (* the text between the start of the search and the match *)
  final : mstate        (* the state at the end of the match; capture 0 is the match *)
}.

(** RegExpBuiltinExec from a given position: the leftmost position at which
    the pattern matches. *)
Fixpoint exec_from (re : RegExp) (bef aft : str) : option match_result :=
  match rmatch (ignoreCase re) (Group 0 (pattern re)) Some (MState bef aft []) with
  | Some y => Some (MatchResult [] y)
  | None =>
      match aft with
      | [] => None
      | c :: aft' =>
          match exec_from re (c :: bef) aft' with
          | Some r => Some (MatchResult (c :: skipped r) (final r))
          | None => None
          end
      end
  end.

Fixpoint lookup (n : nat) (l : list (nat * str)) : option str :=
  match l with
  | [] => None
  | (m, w) :: l' => if m =? n then Some w else lookup n l'
  end.

(** [m[n]] on a match object: [None] is [undefined]. *)
Definition capture (n : nat) (r : match_result) : option str :=
  lookup n (caps (final r)).

(** [m[0]] *)
Definition matched (r : match_result) : str :=
  match capture 0 r with Some w => w | None => [] end.

(** [re.test(s)]; none of the patterns tested in the source is global or
    sticky, so the search starts at 0 and [lastIndex] is left alone. *)
Definition test (re : RegExp) (s : str) : bool :=
  match exec_from re [] s with Some _ => true | None => false end.

(** [s.match(re)] for a pattern without the [g] flag. *)
Definition str_match (s : str) (re : RegExp) : option match_result :=
  exec_from re [] s.

(** [s.replace(re, repl)] where [repl] holds no [$] pattern: the first match
    when the pattern is not global, every match when it is.  After an empty
    match the search resumes one code unit further. *)
Fixpoint replace_loop (re : RegExp) (repl : str) (n : nat) (bef aft : str) : str :=
  match n with
  | O => aft
  | S n' =>
      match exec_from re bef aft with
      | None => aft
      | Some r =>
          let y := final r in
          skipped r ++ repl ++
          (if global re then
             if is_nil (matched r)
             then match after y with
                  | [] => []
                  | c :: rest => c :: replace_loop re repl n' (c :: before y) rest
                  end
             else replace_loop re repl n' (before y) (after y)
           else after y)
      end
  end.

Definition replace (s : str) (re : RegExp) (repl : str) : str :=
  replace_loop re repl (S (length s)) [] s.

(** [s.split(re)] without a limit, for a pattern with no capturing group.
    An empty match after the start of a piece closes the piece and is met
    again at the same place, where it then moves on by one code unit: the
    loop makes two rounds per code unit at most. *)
Fixpoint split_loop (re : RegExp) (n : nat) (bef cur aft : str) : list str :=
  match n with
  | O => [rev cur ++ aft]
  | S n' =>
      match aft with
      | [] => [rev cur]
      | c :: aft' =>
          match rmatch (ignoreCase re) (pattern re) Some (MState bef aft []) with
          | Some y =>
              if no_progress (MState bef aft []) y && is_nil cur
              then split_loop re n' (c :: bef) (c :: cur) aft'
              else rev cur :: split_loop re n' (before y) [] (after y)
          | None => split_loop re n' (c :: bef) (c :: cur) aft'
          end
      end
  end.

Definition split (s : str) (re : RegExp) : list str :=
  match s with
  | [] => match rmatch (ignoreCase re) (pattern re) Some (MState [] [] []) with
          | Some _ => []
          | None => [[]]
          end
  | _ => split_loop re (S (2 * length s)) [] [] s
  end.

(** ** Numbers *)

(** The Numbers met here are NaN, +Infinity and the finite doubles that are
    not negative.  A finite double is [q * 2 ^ e] with [q < 2 ^ 53] and
    [-1074 <= e <= 971]: a whole number of units of [2 ^ -1074], and so a
    number with a finite decimal expansion.  [Dec mantissa scale] is the
    double whose value is [mantissa / 10 ^ scale] exactly, written with no
    trailing zero in the fraction. *)
Inductive number : Type :=
| NaN
| Infinity
| Dec (mantissa : N) (scale : nat).

Definition digit_val (c : char) : N := (c - 48)%N.

Fixpoint read_digits (acc : N) (count : nat) (s : str) : N * nat * str :=
  match s with
  | c :: s' => if is_digit c then read_digits (10 * acc + digit_val c)%N (S count) s'
               else (acc, count, s)
  | [] => (acc, count, [])
  end.

Fixpoint normalize (scale : nat) (m : N) : number :=
  match scale with
  | O => Dec m O
  | S scale' => if (m mod 10 =? 0)%N then normalize scale' (m / 10)%N else Dec m scale
  end.

(** The integer nearest to [num / den]; of two that are as near, the even
    one. *)
Definition round_half_even (num den : N) : N :=
  let q := (num / den)%N in
  match (2 * (num mod den) ?= den)%N with
  | Lt => q
  | Eq => if N.even q then q else (q + 1)%N
  | Gt => (q + 1)%N
  end.

(** The doubles counted in units of [2 ^ -1074], with no bound on the
    exponent: below [2 ^ 53] units they are one unit apart, and from
    [2 ^ (52 + s)] units to [2 ^ (53 + s)] units they are [2 ^ s] units
    apart.  [spacing num den] is that [s] around [num / den] units. *)
Definition spacing (num den : N) : N := (N.log2 (num / den) - 52)%N.

(** The double nearest to [num / den] units. *)
Definition rounded (num den : N) : N :=
  let s := spacing num den in
  (round_half_even num (den * 2 ^ s) * 2 ^ s)%N.

(** The double nearest to [m / 10 ^ k], in units of [2 ^ -1074]. *)
Definition nearest_units (m : N) (k : nat) : N :=
  rounded (m * 2 ^ 1074) (10 ^ N.of_nat k).

(** The Number value for [m / 10 ^ k]: the nearest double, the one with the
    even significand of two that are as near, and +Infinity from [2 ^ 1024]
    on, which is [2 ^ 2098] units. *)
Definition number_value (m : N) (k : nat) : number :=
  let u := nearest_units m k in
  if (2 ^ 2098 <=? u)%N then Infinity else normalize 1074 (u * 5 ^ 1074)%N.

(** [parseFloat] on a string that holds no sign, exponent or [Infinity]
    (the only caller passes digits and dots): the longest prefix of the shape
    [digits], [digits.], [digits.digits] or [.digits], after leading white
    space, and the Number value for the decimal it denotes, rounded from the
    exact decimal as Node does. *)
Definition parseFloat (s : str) : number :=
  let '(i, ni, rest) := read_digits 0 0 (trimStart s) in
  match rest with
  | c :: rest' =>
      if (c =? ch ".")%N then
        let '(m, nf, _) := read_digits i 0 rest' in
        if (ni + nf =? 0) then NaN else number_value m nf
      else if ni =? 0 then NaN else number_value i 0
  | [] => if ni =? 0 then NaN else number_value i 0
  end.

(** ** Exceptions *)

Local Open Scope string_scope.

Inductive result (A : Type) : Type :=
| Ok (a : A)
| Throw (e : string).
Arguments Ok {A} a.
Arguments Throw {A} e.

Definition bind (A B : Type) (m : result A) (f : A -> result B) : result B :=
  match m with
  | Ok a => f a
  | Throw e => Throw e
  end.

Notation "x <- m ;; f" := (bind m (fun x => f))
  (at level 61, m at next level, right associativity).

(** [v.trim()] where [v] is a capture: a TypeError when it is [undefined]. *)
Definition trim_of (v : option str) : result str :=
  match v with
  | Some w => Ok (trim w)
  | None => Throw "TypeError"
  end.

(** ** The rule table *)

Inductive intent : Type :=
| approvals_decide
| approvals_list
| approvals_request
| knowledge_create
| knowledge_list
| knowledge_search
| requests_list
| requests_create
| status.

(** The [data] object of each intent; [None] is [undefined]. *)
Inductive data : Type :=
| Decide (id : option str) (decision : str)
| ApprovalsList (status : option str)
| ApprovalRequest (title description : str) (amount : option number)
| KnowledgeCreate (title content : str)
| NoData
| Search (query : str)
| RequestsList (status : option str)
| RequestCreate (title description priority : str).

Record rule : Type := Rule {
  rule_test : str -> bool;
  rule_intent : intent;
  rule_extract : str -> result data
}.

Definition sp1 : regex := Plus true (Cls [ASpace]).     (* \s+ *)
Definition sp0 : regex := Star true (Cls [ASpace]).     (* \s* *)
Definition tok : regex := Plus true (Cls [ANonSpace]).  (* \S+ *)
Definition w (s : string) : regex := lit (js s).
Definition c_ (a : ascii) : regex := Chr (ch a).

Definition reI (r : regex) : RegExp := Re r true false.
Definition reGI (r : regex) : RegExp := Re r true true.

Definition truthy (s : str) : bool := negb (is_nil s).

Module Decide.
(* /^approve\s+\S+/i *)
Definition approve_test := reI (seqs [Bol; w "approve"; sp1; tok]).
(* /(request|for|need)/i *)
Definition excluded := reI (Group 1 (words ["request"; "for"; "need"])).
(* /^approve\s+(\S+)/i *)
Definition approve_id := reI (seqs [Bol; w "approve"; sp1; Group 1 tok]).
(* /^(deny|reject)\s+\S+/i *)
Definition deny_test := reI (seqs [Bol; Group 1 (words ["deny"; "reject"]); sp1; tok]).
(* /^(?:deny|reject)\s+(\S+)/i *)
Definition deny_id := reI (seqs [Bol; words ["deny"; "reject"]; sp1; Group 1 tok]).

(* match?.[1] *)
Definition id_of (m : option match_result) : option str :=
  match m with
  | Some r => capture 1 r
  | None => None
  end.

Definition approve : rule :=
  Rule (fun s => test approve_test s && negb (test excluded s))
       approvals_decide
       (fun s => Ok (Decide (id_of (str_match s approve_id)) (js "approved"))).

Definition deny : rule :=
  Rule (fun s => test deny_test s)
       approvals_decide
       (fun s => Ok (Decide (id_of (str_match s deny_id)) (js "denied"))).
End Decide.

Module ApprovalsList.
(* /\b(show|list|get|display|view)\b.*\b(pending\s+)?approvals?\b/i *)
Definition list_test :=
  reI (seqs [WordB; Group 1 (words ["show"; "list"; "get"; "display"; "view"]); WordB;
             Star true Dot; WordB; Opt (Group 2 (Seq (w "pending") sp1));
             w "approval"; Opt (c_ "s"); WordB]).
(* /pending/i *)
Definition pending := reI (w "pending").

Definition list : rule :=
  Rule (fun s => test list_test s)
       approvals_list
       (fun s => Ok (ApprovalsList (if test pending s then Some (js "pending") else None))).
End ApprovalsList.

Module ApprovalRequest.
Definition verb := Group 1 (words ["request"; "need"; "submit"]).
Definition an := Opt (Group 2 (seqs [c_ "a"; Opt (c_ "n"); sp1])).   (* (an?\s+)? *)

(* /\b(request|need|submit)\s+(an?\s+)?approval\b/i *)
Definition test1 := reI (seqs [WordB; verb; sp1; an; w "approval"; WordB]).
(* /\bapproval\s+(for|to|request)/i *)
Definition test2 := reI (seqs [WordB; w "approval"; sp1; Group 1 (words ["for"; "to"; "request"])]).
(* /\bapprove\s+(a|the|this|my)\b/i *)
Definition test3 := reI (seqs [WordB; w "approve"; sp1; Group 1 (words ["a"; "the"; "this"; "my"]); WordB]).
(* /\b(request|need|submit)\s+(an?\s+)?approval\s*(for|to)?\s*/i *)
Definition lead_in :=
  reI (seqs [WordB; verb; sp1; an; w "approval"; sp0; Opt (Group 3 (words ["for"; "to"])); sp0]).
(* /\bapproval\s*(for|to|request)\s*/i *)
Definition lead_in2 :=
  reI (seqs [WordB; w "approval"; sp0; Group 1 (words ["for"; "to"; "request"]); sp0]).
(* /\$[\d,]+(\.\d{2})?/ *)
Definition money :=
  Re (seqs [c_ "$"; Plus true (Cls [ADigit; AChar (ch ",")]);
            Opt (Group 1 (seqs [c_ "."; Cls [ADigit]; Cls [ADigit]]))]) false false.
(* /[$,]/g *)
Definition separators := Re (Cls [AChar (ch "$"); AChar (ch ",")]) false true.
(* /^(request|need|submit)\s+(an?\s+)?approval\s*/i *)
Definition core := reI (seqs [Bol; verb; sp1; an; w "approval"; sp0]).

Definition amount_of (s : str) : option number :=
  match str_match s money with
  | Some m => Some (parseFloat (replace (matched m) separators []))
  | None => None
  end.

Definition extract (s : str) : result data :=
  let title := trim (replace (replace s lead_in []) lead_in2 []) in
  let amount := amount_of s in
  let title :=
    if negb (truthy title) || (length title <? 3)%nat
    then trim (replace s core [])
    else title in
  Ok (ApprovalRequest (if truthy title then title else js "Approval Request") s amount).

Definition request : rule :=
  Rule (fun s => test test1 s || test test2 s || test test3 s)
       approvals_request
       extract.
End ApprovalRequest.

Module KnowledgeCreate.
Definition storage := words ["store"; "save"; "add"; "remember"; "record"; "put"; "set"].

(* /\b(store|save|add|remember|record|create\s+(a\s+)?knowledge|put|set)\b/i *)
Definition verb_test :=
  reI (seqs [WordB;
             Group 1 (alts [w "store"; w "save"; w "add"; w "remember"; w "record";
                            seqs [w "create"; sp1; Opt (Group 2 (Seq (c_ "a") sp1)); w "knowledge"];
                            w "put"; w "set"]);
             WordB]).
(* /(request|approval)/i *)
Definition excluded := reI (Group 1 (words ["request"; "approval"])).
(* /\b(?:store|save|add|remember|record|put|set)\s+(?:(?:a|our|the|my|this)\s+)?(.+?):\s*(.+)/i *)
Definition colon :=
  reI (seqs [WordB; storage; sp1;
             Opt (Seq (words ["a"; "our"; "the"; "my"; "this"]) sp1);
             Group 1 (Plus false Dot); c_ ":"; sp0; Group 2 (Plus true Dot)]).
(* /\b(?:store|save|add|remember|record|put|set)\s+(?:that\s+|this\s+|our\s+|the\s+|a\s+)?(.+)/i *)
Definition simple :=
  reI (seqs [WordB; storage; sp1;
             Opt (alts [Seq (w "that") sp1; Seq (w "this") sp1; Seq (w "our") sp1;
                        Seq (w "the") sp1; Seq (c_ "a") sp1]);
             Group 1 (Plus true Dot)]).
(* /\s+/ *)
Definition spaces := Re sp1 false false.

Definition extract (s : str) : result data :=
  match str_match s colon with
  | Some colonMatch =>
      title <- trim_of (capture 1 colonMatch) ;;
      content <- trim_of (capture 2 colonMatch) ;;
      Ok (KnowledgeCreate title content)
  | None =>
      match str_match s simple with
      | Some simpleMatch =>
          text <- trim_of (capture 1 simpleMatch) ;;
          let words := split text spaces in
          let title := join (js " ") (slice0 5 words) in
          Ok (KnowledgeCreate title text)
      | None => Ok (KnowledgeCreate (js "New Entry") s)
      end
  end.

Definition create : rule :=
  Rule (fun s => test verb_test s && negb (test excluded s))
       knowledge_create
       extract.
End KnowledgeCreate.

Module KnowledgeList.
(* /\b(list|show|display|view)\s+(all\s+)?(knowledge|entries|docs)\b/i *)
Definition list_test :=
  reI (seqs [WordB; Group 1 (words ["list"; "show"; "display"; "view"]); sp1;
             Opt (Group 2 (Seq (w "all") sp1));
             Group 3 (words ["knowledge"; "entries"; "docs"]); WordB]).

Definition list : rule :=
  Rule (fun s => test list_test s) knowledge_list (fun _ => Ok NoData).
End KnowledgeList.

Module KnowledgeSearch.
Definition apos_s_or_is (n : nat) (tail : string) :=      (* ('?s|\s+is|...) *)
  Group n (Alt (Seq (Opt (c_ "'")) (c_ "s")) (Seq sp1 (w tail))).

(* /\b(what('?s|\s+is|\s+are)|how\s+(do|to|does)|find|search|look\s*up|where|tell\s+me|explain|describe)\b/i *)
Definition opener_test :=
  reI (seqs [WordB;
             Group 1 (alts [
               Seq (w "what") (Group 2 (alts [Seq (Opt (c_ "'")) (c_ "s");
                                              Seq sp1 (w "is"); Seq sp1 (w "are")]));
               seqs [w "how"; sp1; Group 3 (words ["do"; "to"; "does"])];
               w "find"; w "search"; seqs [w "look"; sp0; w "up"]; w "where";
               seqs [w "tell"; sp1; w "me"]; w "explain"; w "describe"]);
             WordB]).
(* /(approval|request|pending)/i *)
Definition excluded := reI (Group 1 (words ["approval"; "request"; "pending"])).
(* /\b(what('?s|\s+is|\s+are)|how\s+(do|to|does)|find|search(\s+for)?|look\s*up|where('?s|\s+is)|tell\s+me\s+(about)?|explain|describe)\s*/gi *)
Definition opener :=
  reGI (seqs [WordB;
              Group 1 (alts [
                Seq (w "what") (Group 2 (alts [Seq (Opt (c_ "'")) (c_ "s");
                                               Seq sp1 (w "is"); Seq sp1 (w "are")]));
                seqs [w "how"; sp1; Group 3 (words ["do"; "to"; "does"])];
                w "find";
                Seq (w "search") (Opt (Group 4 (Seq sp1 (w "for"))));
                seqs [w "look"; sp0; w "up"];
                Seq (w "where") (apos_s_or_is 5 "is");
                seqs [w "tell"; sp1; w "me"; sp1; Opt (Group 6 (w "about"))];
                w "explain"; w "describe"]);
              sp0]).
(* /^(our|the|my|a|an)\s+/i *)
Definition article := reI (seqs [Bol; Group 1 (words ["our"; "the"; "my"; "a"; "an"]); sp1]).
(* /\?+$/ *)
Definition qmarks := Re (Seq (Plus true (c_ "?")) Eol) false false.

Definition extract (s : str) : result data :=
  let query := trim (replace (replace (replace s opener []) article []) qmarks []) in
  let query :=
    if negb (truthy query) || (length query <? 2)%nat
    then trim (replace s qmarks [])
    else query in
  Ok (Search query).

Definition search : rule :=
  Rule (fun s => test opener_test s && negb (test excluded s))
       knowledge_search
       extract.
End KnowledgeSearch.

Module RequestsList.
(* /\b(show|list|display|view)\s+(all\s+)?(open\s+)?requests?\b/i *)
Definition list_test :=
  reI (seqs [WordB; Group 1 (words ["show"; "list"; "display"; "view"]); sp1;
             Opt (Group 2 (Seq (w "all") sp1)); Opt (Group 3 (Seq (w "open") sp1));
             w "request"; Opt (c_ "s"); WordB]).
(* /\b(open|pending|active)\b/i *)
Definition open := reI (seqs [WordB; Group 1 (words ["open"; "pending"; "active"]); WordB]).

Definition list : rule :=
  Rule (fun s => test list_test s)
       requests_list
       (fun s => Ok (RequestsList (if test open s then Some (js "open") else None))).
End RequestsList.

Module RequestCreate.
(* /\b(create|make|new|submit|open)\s+(a\s+)?request\b/i *)
Definition test1 :=
  reI (seqs [WordB; Group 1 (words ["create"; "make"; "new"; "submit"; "open"]); sp1;
             Opt (Group 2 (Seq (c_ "a") sp1)); w "request"; WordB]).
(* /\brequest\s+to\b/i *)
Definition test2 := reI (seqs [WordB; w "request"; sp1; w "to"; WordB]).
(* /\b(need|schedule|book|arrange)\b/i *)
Definition test3 := reI (seqs [WordB; Group 1 (words ["need"; "schedule"; "book"; "arrange"]); WordB]).
(* /(approval)/i *)
Definition excluded := reI (Group 1 (w "approval")).
(* /\b(create|make|new|submit|open)\s+(a\s+)?request\s*(for|to)?\s*/i *)
Definition lead_in :=
  reI (seqs [WordB; Group 1 (words ["create"; "make"; "new"; "submit"; "open"]); sp1;
             Opt (Group 2 (Seq (c_ "a") sp1)); w "request"; sp0;
             Opt (Group 3 (words ["for"; "to"])); sp0]).
(* /\brequest\s+to\s*/i *)
Definition lead_in2 := reI (seqs [WordB; w "request"; sp1; w "to"; sp0]).
(* /\b(need\s+to|need\s+a|schedule|book|arrange)\s*/i *)
Definition lead_in3 :=
  reI (seqs [WordB;
             Group 1 (alts [seqs [w "need"; sp1; w "to"]; seqs [w "need"; sp1; c_ "a"];
                            w "schedule"; w "book"; w "arrange"]);
             sp0]).
(* /\b(urgent|asap|critical|emergency)\b/i *)
Definition urgent :=
  reI (seqs [WordB; Group 1 (words ["urgent"; "asap"; "critical"; "emergency"]); WordB]).
(* /\bhigh\s*(?:priority)?\b/i *)
Definition high := reI (seqs [WordB; w "high"; sp0; Opt (w "priority"); WordB]).
(* /\blow\s*(?:priority)?\b/i *)
Definition low := reI (seqs [WordB; w "low"; sp0; Opt (w "priority"); WordB]).
(* /\b(urgent|asap|critical|emergency|high\s*priority|low\s*priority)\b/gi *)
Definition priority_words :=
  reGI (seqs [WordB;
              Group 1 (alts [w "urgent"; w "asap"; w "critical"; w "emergency";
                             seqs [w "high"; sp0; w "priority"];
                             seqs [w "low"; sp0; w "priority"]]);
              WordB]).

Definition priority_of (s : str) : str :=
  if test urgent s then js "critical"
  else if test high s then js "high"
  else if test low s then js "low"
  else js "medium".

Definition extract (s : str) : result data :=
  let title := trim (replace (replace (replace s lead_in []) lead_in2 []) lead_in3 []) in
  let priority := priority_of s in
  let title := trim (replace title priority_words []) in
  let title := if negb (truthy title) || (length title <? 3)%nat then trim s else title in
  Ok (RequestCreate title s priority).

Definition create : rule :=
  Rule (fun s => test test1 s || test test2 s || (test test3 s && negb (test excluded s)))
       requests_create
       extract.
End RequestCreate.

Module Status.
(* /^(status|health|check|ping)\b/i *)
Definition status_test :=
  reI (seqs [Bol; Group 1 (words ["status"; "health"; "check"; "ping"]); WordB]).

Definition check : rule :=
  Rule (fun s => test status_test s) status (fun _ => Ok NoData).
End Status.

Definition INTENT_RULES : list rule :=
  [ Decide.approve; Decide.deny; ApprovalsList.list; ApprovalRequest.request;
    KnowledgeCreate.create; KnowledgeList.list; KnowledgeSearch.search;
    RequestsList.list; RequestCreate.create; Status.check ].

Local Close Scope string_scope.

(** ** The dispatcher *)

(** What [detectIntent] returns: [Some (intent, data)], or [None] for [null]. *)
Definition detected := option (intent * data).

(** The [for] loop over the table, leaving at the first rule whose test holds. *)
Fixpoint first_rule (rules : list rule) (s : str) : option rule :=
  match rules with
  | [] => None
  | r :: rules' => if rule_test r s then Some r else first_rule rules' s
  end.

Definition detectIntent (input : str) : result detected :=
  let s := trim input in
  match first_rule INTENT_RULES s with
  | Some r =>
      d <- rule_extract r s ;;
      Ok (Some (rule_intent r, d))
  | None =>
      if endsWith s (ch "?") || (length s <? 80)
      then Ok (Some (knowledge_search, Search (trim (replace s KnowledgeSearch.qmarks []))))
      else Ok None
  end.

(** ** The rule table over a store of RegExp objects

    The table and the dispatcher once more, this time with the RegExp
    objects that the source creates and with the one property of theirs
    that the methods called here change, [lastIndex].  A regular expression
    literal makes a new object each time it is evaluated; every literal of
    the table stands in the body of a function, and is evaluated when the
    function is called. *)

Record regexp_object : Type := RegExpObject {
  regexp : RegExp;
  lastIndex : nat
}.

(** The objects made so far; a reference is the place of an object. *)
Definition store := list regexp_object.
Definition ref := nat.

(** A computation on the store, which returns or throws. *)
Definition M (A : Type) : Type := store -> result A * store.

Definition ret (A : Type) (a : A) : M A := fun h => (Ok a, h).

Definition bindM (A B : Type) (m : M A) (f : A -> M B) : M B :=
  fun h =>
    match m h with
    | (Ok a, h') => f a h'
    | (Throw e, h') => (Throw e, h')
    end.

Notation "x <~ m ;; f" := (bindM m (fun x => f))
  (at level 61, m at next level, right associativity).

Definition lift (A : Type) (m : result A) : M A := fun h => (m, h).

(** Evaluating a literal. *)
Definition literal (re : RegExp) : M ref :=
  fun h => (Ok (length h), h ++ [RegExpObject re 0]).

Fixpoint set_lastIndex (r : ref) (i : nat) (h : store) : store :=
  match h, r with
  | [], _ => []
  | o :: h', O => RegExpObject (regexp o) i :: h'
  | o :: h', S r' => o :: set_lastIndex r' i h'
  end.

(** RegExpBuiltinExec: the search starts at [lastIndex] when the pattern is
    global, and at 0 when it is not (none is sticky); a global pattern
    keeps in [lastIndex] the end of the match, or 0 when there is none. *)
Definition RegExpBuiltinExec (r : ref) (s : str) : M (option match_result) :=
  fun h =>
    match nth_error h r with
    | None => (Throw "TypeError", h)
    | Some o =>
        let re := regexp o in
        let start := if global re then lastIndex o else 0 in
        if length s <? start
        then (Ok None, if global re then set_lastIndex r 0 h else h)
        else
          match exec_from re (rev (firstn start s)) (skipn start s) with
          | None => (Ok None, if global re then set_lastIndex r 0 h else h)
          | Some m =>
              (Ok (Some m),
               if global re
               then set_lastIndex r (start + length (skipped m) + length (matched m)) h
               else h)
          end
    end.

Module Stateful.

(** [r.test(s)] *)
Definition test (r : ref) (s : str) : M bool :=
  m <~ RegExpBuiltinExec r s ;;
  ret (match m with Some _ => true | None => false end).

(** [s.match(r)] for a pattern without the [g] flag. *)
Definition str_match (s : str) (r : ref) : M (option match_result) :=
  RegExpBuiltinExec r s.

(** [s.replace(r, repl)] where [repl] holds no [$] pattern.  For a global
    pattern the search starts at 0 whatever [lastIndex] was, and the search
    that finds no further match leaves 0 in it; for another pattern
    [lastIndex] is neither used nor changed. *)
Definition replace (s : str) (r : ref) (repl : str) : M str :=
  fun h =>
    match nth_error h r with
    | None => (Throw "TypeError", h)
    | Some o =>
        (Ok (replace s (regexp o) repl),
         if global (regexp o) then set_lastIndex r 0 h else h)
    end.

(** [s.split(r)] without a limit: the splitting is done with an object of
    its own, made from the pattern of [r], that nothing else refers to; [r]
    itself is left as it is. *)
Definition split (s : str) (r : ref) : M (list str) :=
  fun h =>
    match nth_error h r with
    | None => (Throw "TypeError", h)
    | Some o => (Ok (split s (regexp o)), h)
    end.

(** [a && b] and [a || b] evaluate [b] when [a] does not decide. *)
Definition and_test (a b : M bool) : M bool :=
  x <~ a ;; if x then b else ret false.

Definition or_test (a b : M bool) : M bool :=
  x <~ a ;; if x then ret true else b.

(** [!a] *)
Definition not_test (a : M bool) : M bool :=
  x <~ a ;; ret (negb x).

Record rule : Type := Rule {
  rule_test : str -> M bool;
  rule_intent : intent;
  rule_extract : str -> M data
}.

Definition approve : rule :=
  Rule (fun s => and_test (r <~ literal Decide.approve_test ;; test r s)
                          (not_test (r <~ literal Decide.excluded ;; test r s)))
       approvals_decide
       (fun s =>
          r <~ literal Decide.approve_id ;;
          m <~ str_match s r ;;
          ret (Decide (Decide.id_of m) (js "approved"))).

Definition deny : rule :=
  Rule (fun s => r <~ literal Decide.deny_test ;; test r s)
       approvals_decide
       (fun s =>
          r <~ literal Decide.deny_id ;;
          m <~ str_match s r ;;
          ret (Decide (Decide.id_of m) (js "denied"))).

Definition list_approvals : rule :=
  Rule (fun s => r <~ literal ApprovalsList.list_test ;; test r s)
       approvals_list
       (fun s =>
          r <~ literal ApprovalsList.pending ;;
          pending <~ test r s ;;
          ret (ApprovalsList (if pending then Some (js "pending") else None))).

Definition request_approval : rule :=
  Rule (fun s => or_test (r <~ literal ApprovalRequest.test1 ;; test r s)
                         (or_test (r <~ literal ApprovalRequest.test2 ;; test r s)
                                  (r <~ literal ApprovalRequest.test3 ;; test r s)))
       approvals_request
       (fun s =>
          r1 <~ literal ApprovalRequest.lead_in ;;
          t1 <~ replace s r1 [] ;;
          r2 <~ literal ApprovalRequest.lead_in2 ;;
          t2 <~ replace t1 r2 [] ;;
          let title := trim t2 in
          r3 <~ literal ApprovalRequest.money ;;
          amountMatch <~ str_match s r3 ;;
          amount <~ match amountMatch with
                    | Some m =>
                        r4 <~ literal ApprovalRequest.separators ;;
                        digits <~ replace (matched m) r4 [] ;;
                        ret (Some (parseFloat digits))
                    | None => ret None
                    end ;;
          title <~ (if negb (truthy title) || (length title <? 3)%nat
                    then r5 <~ literal ApprovalRequest.core ;;
                         t <~ replace s r5 [] ;;
                         ret (trim t)
                    else ret title) ;;
          ret (ApprovalRequest (if truthy title then title else js "Approval Request")
                               s amount)).

Definition create_knowledge : rule :=
  Rule (fun s => and_test (r <~ literal KnowledgeCreate.verb_test ;; test r s)
                          (not_test (r <~ literal KnowledgeCreate.excluded ;; test r s)))
       knowledge_create
       (fun s =>
          r1 <~ literal KnowledgeCreate.colon ;;
          colonMatch <~ str_match s r1 ;;
          match colonMatch with
          | Some m =>
              title <~ lift (trim_of (capture 1 m)) ;;
              content <~ lift (trim_of (capture 2 m)) ;;
              ret (KnowledgeCreate title content)
          | None =>
              r2 <~ literal KnowledgeCreate.simple ;;
              simpleMatch <~ str_match s r2 ;;
              match simpleMatch with
              | Some m =>
                  text <~ lift (trim_of (capture 1 m)) ;;
                  r3 <~ literal KnowledgeCreate.spaces ;;
                  words <~ split text r3 ;;
                  ret (KnowledgeCreate (join (js " ") (slice0 5 words)) text)
              | None => ret (KnowledgeCreate (js "New Entry") s)
              end
          end).

Definition list_knowledge : rule :=
  Rule (fun s => r <~ literal KnowledgeList.list_test ;; test r s)
       knowledge_list
       (fun _ => ret NoData).

Definition search_knowledge : rule :=
  Rule (fun s => and_test (r <~ literal KnowledgeSearch.opener_test ;; test r s)
                          (not_test (r <~ literal KnowledgeSearch.excluded ;; test r s)))
       knowledge_search
       (fun s =>
          r1 <~ literal KnowledgeSearch.opener ;;
          q1 <~ replace s r1 [] ;;
          r2 <~ literal KnowledgeSearch.article ;;
          q2 <~ replace q1 r2 [] ;;
          r3 <~ literal KnowledgeSearch.qmarks ;;
          q3 <~ replace q2 r3 [] ;;
          let query := trim q3 in
          query <~ (if negb (truthy query) || (length query <? 2)%nat
                    then r4 <~ literal KnowledgeSearch.qmarks ;;
                         q <~ replace s r4 [] ;;
                         ret (trim q)
                    else ret query) ;;
          ret (Search query)).

Definition list_requests : rule :=
  Rule (fun s => r <~ literal RequestsList.list_test ;; test r s)
       requests_list
       (fun s =>
          r <~ literal RequestsList.open ;;
          pending <~ test r s ;;
          ret (RequestsList (if pending then Some (js "open") else None))).

Definition priority_of (s : str) : M str :=
  r1 <~ literal RequestCreate.urgent ;;
  urgent <~ test r1 s ;;
  if urgent then ret (js "critical")
  else
    r2 <~ literal RequestCreate.high ;;
    high <~ test r2 s ;;
    if high then ret (js "high")
    else
      r3 <~ literal RequestCreate.low ;;
      low <~ test r3 s ;;
      if low then ret (js "low") else ret (js "medium").

Definition create_request : rule :=
  Rule (fun s => or_test (r <~ literal RequestCreate.test1 ;; test r s)
                         (or_test (r <~ literal RequestCreate.test2 ;; test r s)
                                  (and_test (r <~ literal RequestCreate.test3 ;; test r s)
                                            (not_test (r <~ literal RequestCreate.excluded ;;
                                                  test r s)))))
       requests_create
       (fun s =>
          r1 <~ literal RequestCreate.lead_in ;;
          t1 <~ replace s r1 [] ;;
          r2 <~ literal RequestCreate.lead_in2 ;;
          t2 <~ replace t1 r2 [] ;;
          r3 <~ literal RequestCreate.lead_in3 ;;
          t3 <~ replace t2 r3 [] ;;
          let title := trim t3 in
          priority <~ priority_of s ;;
          r4 <~ literal RequestCreate.priority_words ;;
          t4 <~ replace title r4 [] ;;
          let title := trim t4 in
          let title := if negb (truthy title) || (length title <? 3)%nat
                       then trim s else title in
          ret (RequestCreate title s priority)).

Definition check_status : rule :=
  Rule (fun s => r <~ literal Status.status_test ;; test r s)
       status
       (fun _ => ret NoData).

Definition INTENT_RULES : list rule :=
  [ approve; deny; list_approvals; request_approval; create_knowledge; list_knowledge;
    search_knowledge; list_requests; create_request; check_status ].

(** The [for] loop over the table. *)
Fixpoint first_rule (rules : list rule) (s : str) : M (option rule) :=
  match rules with
  | [] => ret None
  | r :: rules' =>
      b <~ rule_test r s ;;
      if b then ret (Some r) else first_rule rules' s
  end.

Definition detectIntent (input : str) : M detected :=
  let s := trim input in
  found <~ first_rule INTENT_RULES s ;;
  match found with
  | Some r =>
      d <~ rule_extract r s ;;
      ret (Some (rule_intent r, d))
  | None =>
      if endsWith s (ch "?") || (length s <? 80)
      then r <~ literal KnowledgeSearch.qmarks ;;
           q <~ replace s r [] ;;
           ret (Some (knowledge_search, Search (trim q)))
      else ret None
  end.

End Stateful.

(** ** The command line ([index.js]) *)

Fixpoint str_eqb (a b : str) : bool :=
  match a, b with
  | [], [] => true
  | c :: a', d :: b' => (c =? d)%N && str_eqb a' b'
  | _, _ => false
  end.

(** [s.startsWith(p)] *)
Fixpoint startsWith (s p : str) : bool :=
  match p, s with
  | [], _ => true
  | d :: p', c :: s' => (c =? d)%N && startsWith s' p'
  | _ :: _, [] => false
  end.

(** [s.indexOf(c)] for a one-character [c]; [None] is -1. *)
Fixpoint indexOf (s : str) (c : char) : option nat :=
  match s with
  | [] => None
  | d :: s' => if (d =? c)%N then Some 0
               else match indexOf s' c with Some i => Some (S i) | None => None end
  end.

(** [s.slice(from, to)] for [0 <= from] and [0 <= to]. *)
Definition slice (s : str) (from to : nat) : str := firstn (to - from) (skipn from s).

(** What a flag holds: [true], or the text given for it. *)
Inductive flag : Type :=
| FTrue
| FValue (v : str).

(** The [flags] object, as the assignments made to it, the latest first.  An
    assignment to ["__proto__"] of a value that is no object leaves an object
    as it is. *)
Definition flags := list (str * flag).

Definition set_flag (key : str) (v : flag) (fl : flags) : flags :=
  if str_eqb key (js "__proto__") then fl else (key, v) :: fl.

(** [flags[key]], for a key that [Object.prototype] does not define; [None]
    is [undefined]. *)
Fixpoint get_flag (key : str) (fl : flags) : option flag :=
  match fl with
  | [] => None
  | (k, v) :: fl' => if str_eqb k key then Some v else get_flag key fl'
  end.

(** [i + 1 < raw.length && !raw[i + 1].startsWith('-')], on what follows
    [raw[i]]. *)
Definition value_follows (rest : list str) : bool :=
  match rest with
  | next :: _ => negb (startsWith next (js "-"))
  | [] => false
  end.

(** The [while] loop of [parseArgs]: [raw] from index [i] on, with the
    [args] and [flags] built so far. *)
Fixpoint parse_loop (raw : list str) (args : list str) (fl : flags) : list str * flags :=
  match raw with
  | [] => (args, fl)
  | arg :: rest =>
      if str_eqb arg (js "--") then (args ++ rest, fl)
      else if startsWith arg (js "--") then
        match indexOf arg (ch "=") with
        | Some eqIdx =>
            parse_loop rest args
                       (set_flag (slice arg 2 eqIdx) (FValue (skipn (S eqIdx) arg)) fl)
        | None =>
            let key := skipn 2 arg in
            match rest with
            | next :: rest' =>
                if value_follows rest
                then parse_loop rest' args (set_flag key (FValue next) fl)
                else parse_loop rest args (set_flag key FTrue fl)
            | [] => parse_loop rest args (set_flag key FTrue fl)
            end
        end
      else if startsWith arg (js "-") && (length arg =? 2) then
        let key := skipn 1 arg in
        if str_eqb key (js "v") then parse_loop rest args (set_flag (js "version") FTrue fl)
        else if str_eqb key (js "h") then parse_loop rest args (set_flag (js "help") FTrue fl)
        else if str_eqb key (js "j") then parse_loop rest args (set_flag (js "json") FTrue fl)
        else
          match rest with
          | next :: rest' =>
              if value_follows rest
              then parse_loop rest' args (set_flag key (FValue next) fl)
              else parse_loop rest args (set_flag key FTrue fl)
          | [] => parse_loop rest args (set_flag key FTrue fl)
          end
      else parse_loop rest (args ++ [arg]) fl
  end.

Record parsed : Type := Parsed {
  command : str;
  positional : list str;      (* args *)
  given : flags               (* flags *)
}.

Definition parseArgs (argv : list str) : parsed :=
  let raw := skipn 2 argv in
  let '(args, fl) := parse_loop raw [] [] in
  match args with
  | first :: args' => Parsed first args' fl       (* '' || '' is '' *)
  | [] => Parsed [] [] fl
  end.

(** ** Keys of knowledge entries *)

(** [exec] and a global [replace] for a pattern given by its matcher, as
    [exec_from] and [replace_loop] are for a pattern given by its syntax: the
    class [[^a-z0-9]] is none of the classes that [atom] lists. *)
Fixpoint exec_with (m : matcher) (bef aft : str) : option match_result :=
  let x := MState bef aft [] in
  match m (fun y => Some (set_cap 0 (consumed x y) y)) x with
  | Some y => Some (MatchResult [] y)
  | None =>
      match aft with
      | [] => None
      | c :: aft' =>
          match exec_with m (c :: bef) aft' with
          | Some r => Some (MatchResult (c :: skipped r) (final r))
          | None => None
          end
      end
  end.

Fixpoint replace_all_loop (m : matcher) (repl : str) (n : nat) (bef aft : str) : str :=
  match n with
  | O => aft
  | S n' =>
      match exec_with m bef aft with
      | None => aft
      | Some r =>
          let y := final r in
          skipped r ++ repl ++
          (if is_nil (matched r)
           then match after y with
                | [] => []
                | c :: rest => c :: replace_all_loop m repl n' (c :: before y) rest
                end
           else replace_all_loop m repl n' (before y) (after y))
      end
  end.

Definition replace_all (s : str) (m : matcher) (repl : str) : str :=
  replace_all_loop m repl (S (length s)) [] s.

(** [m+], greedy, as [rmatch] does it for [Plus true]. *)
Definition plus_of (m : matcher) : matcher :=
  fun k x => m (fun y => repeat_matcher m true (length (after y)) k y) x.

(* [a-z0-9] *)
Definition key_char (c : char) : bool := between 97 122 c || between 48 57 c.
(* /[^a-z0-9]+/g *)
Definition not_key_run : matcher := plus_of (char_matcher (fun c => negb (key_char c))).
(* /^-|-$/g *)
Definition edge_dash : RegExp :=
  Re (Alt (Seq Bol (c_ "-")) (Seq (c_ "-") Eol)) false true.

Section Keys.

(** [String.prototype.toLowerCase] is the runtime's; what follows does not
    depend on what it returns. *)
Variable toLowerCase : str -> str.

(** [title.toLowerCase().replace(/[^a-z0-9]+/g, '-').replace(/^-|-$/g, '')],
    as [run.js] and [knowledge.js] make the key of an entry. *)
Definition key_of (title : str) : str :=
  replace (replace_all (toLowerCase title) not_key_run (js "-")) edge_dash [].

(** [....slice(0, 64)], as [commit.js] and [push.js] cut it. *)
Definition short_key_of (title : str) : str := slice (key_of title) 0 64.

End Keys.

(** ** The run command ([run.js]) and the handlers it calls

    The handlers are followed up to the request they give to the API client,
    or to the error they leave the process with. *)

(** The values that the objects below hold. *)
Inductive jsval : Type :=
| Undefined
| JTrue
| JStr (s : str)
| JNum (n : number).

(* ToBoolean *)
Definition truthy_val (v : jsval) : bool :=
  match v with
  | Undefined => false
  | JTrue => true
  | JStr s => truthy s
  | JNum NaN => false
  | JNum Infinity => true
  | JNum (Dec m _) => negb (m =? 0)%N
  end.

(* a || b *)
Definition or_else (a b : jsval) : jsval := if truthy_val a then a else b.

Definition of_str (o : option str) : jsval :=
  match o with Some s => JStr s | None => Undefined end.

Definition of_num (o : option number) : jsval :=
  match o with Some n => JNum n | None => Undefined end.

(** [flags.key], for a key that [Object.prototype] does not define. *)
Definition flag_val (key : str) (fl : flags) : jsval :=
  match get_flag key fl with
  | Some FTrue => JTrue
  | Some (FValue v) => JStr v
  | None => Undefined
  end.

(** An object literal, as its fields in the order of the source. *)
Definition object := list (str * jsval).

(** [if (v) o.key = v] *)
Definition field_if (key : str) (v : jsval) : object :=
  if truthy_val v then [(key, v)] else [].

(** The fields of the [data] of an intent; [None] is [undefined]. *)
Definition field_title (d : data) : option str :=
  match d with
  | ApprovalRequest t _ _ | KnowledgeCreate t _ | RequestCreate t _ _ => Some t
  | _ => None
  end.

Definition field_content (d : data) : option str :=
  match d with KnowledgeCreate _ c => Some c | _ => None end.

Definition field_description (d : data) : option str :=
  match d with ApprovalRequest _ x _ | RequestCreate _ x _ => Some x | _ => None end.

Definition field_amount (d : data) : option number :=
  match d with ApprovalRequest _ _ a => a | _ => None end.

Definition field_priority (d : data) : option str :=
  match d with RequestCreate _ _ p => Some p | _ => None end.

Definition field_query (d : data) : option str :=
  match d with Search q => Some q | _ => None end.

Definition field_status (d : data) : option str :=
  match d with ApprovalsList st | RequestsList st => st | _ => None end.

Definition field_id (d : data) : option str :=
  match d with Decide id _ => id | _ => None end.

Definition field_decision (d : data) : option str :=
  match d with Decide _ x => Some x | _ => None end.

(** The [intent] strings of the rule table. *)
Definition intent_name (i : intent) : str :=
  match i with
  | approvals_decide => js "approvals.decide"
  | approvals_list => js "approvals.list"
  | approvals_request => js "approvals.request"
  | knowledge_create => js "knowledge.create"
  | knowledge_list => js "knowledge.list"
  | knowledge_search => js "knowledge.search"
  | requests_list => js "requests.list"
  | requests_create => js "requests.create"
  | status => js "status"
  end.

(** A call of the API client ([api.js]): the method and the path of the
    table entry, and the body or the query it is given. *)
Record api_call : Type := Call {
  method : str;
  path : str;
  payload : object
}.

Definition POST : str := js "POST".
Definition GET : str := js "GET".

Inductive outcome : Type :=
| Exits (message : str)        (* out.error(message), then process.exit(1) *)
| Caught (e : string)          (* an exception in a try block: the catch reports it and exits *)
| Calls (c : api_call)         (* the request given to the API client *)
| Enters (handler : string).   (* a handler that is not followed here *)

(* the double quote *)
Definition quote : str := [34%N].

(** [args[n]], where an element can be [undefined]. *)
Definition arg_at (n : nat) (args : list (option str)) : option str :=
  match nth_error args n with
  | Some a => a
  | None => None
  end.

(* args[0] || 'list' *)
Definition sub_command (args : list (option str)) : str :=
  match arg_at 0 args with
  | Some s => if is_nil s then js "list" else s
  | None => js "list"
  end.

Definition not_authenticated : outcome :=
  Exits (js "Not authenticated. Run: npx beeboo auth").

(** [approvals.js] *)

Definition listApprovals (fl : flags) : outcome :=
  Calls (Call GET (js "/api/v1/approvals") (field_if (js "status") (flag_val (js "status") fl))).

(** [!id] holds for [undefined] and for the empty string. *)
Definition decideApproval (id : option str) (decision : str) (fl : flags) : outcome :=
  match id with
  | Some i =>
      if is_nil i then Exits (js "Approval ID is required.")
      else
        let note := or_else (or_else (flag_val (js "reason") fl) (flag_val (js "note") fl))
                            (JStr []) in
        Calls (Call POST (js "/api/v1/approvals/" ++ i ++ js "/decide")
                    [(js "decision", JStr decision); (js "note", note)])
  | None => Exits (js "Approval ID is required.")
  end.

Definition getApproval (id : option str) : outcome :=
  match id with
  | Some i =>
      if is_nil i then Exits (js "Approval ID is required.")
      else Calls (Call GET (js "/api/v1/approvals/" ++ i) [])
  | None => Exits (js "Approval ID is required.")
  end.

Definition handleApprovals (authenticated : bool) (args : list (option str)) (fl : flags)
  : outcome :=
  if negb authenticated then not_authenticated
  else
    let sub := sub_command args in
    if str_eqb sub (js "list") || str_eqb sub (js "ls") then listApprovals fl
    else if str_eqb sub (js "request") || str_eqb sub (js "submit")
            || str_eqb sub (js "create") then Enters "submitApproval"
    else if str_eqb sub (js "approve") then decideApproval (arg_at 1 args) (js "approved") fl
    else if str_eqb sub (js "deny") || str_eqb sub (js "reject")
    then decideApproval (arg_at 1 args) (js "denied") fl
    else if str_eqb sub (js "get") then getApproval (arg_at 1 args)
    else Exits (js "Unknown approvals command: " ++ sub).

(** [knowledge.js] *)

Definition listEntries (fl : flags) : outcome :=
  Calls (Call GET (js "/api/v1/knowledge/entries")
              (field_if (js "namespace") (flag_val (js "namespace") fl)
               ++ field_if (js "status") (flag_val (js "status") fl))).

Definition handleKnowledge (authenticated : bool) (args : list (option str)) (fl : flags)
  : outcome :=
  if negb authenticated then not_authenticated
  else
    let sub := sub_command args in
    if str_eqb sub (js "list") || str_eqb sub (js "ls") then listEntries fl
    else if str_eqb sub (js "add") || str_eqb sub (js "create") then Enters "addEntry"
    else if str_eqb sub (js "search") || str_eqb sub (js "find") then Enters "searchEntries"
    else if str_eqb sub (js "get") then Enters "getEntry"
    else if str_eqb sub (js "delete") || str_eqb sub (js "rm") then Enters "deleteEntry"
    else Exits (js "Unknown knowledge command: " ++ sub).

(** [run.js] *)

Section Run.

Variable toLowerCase : str -> str.
Variable authenticated : bool.       (* credentials.isAuthenticated() *)

Definition doKnowledgeCreate (d : data) : outcome :=
  match field_title d with
  | Some title =>
      Calls (Call POST (js "/api/v1/knowledge/entries")
                  [(js "title", JStr title);
                   (js "content", or_else (of_str (field_content d)) (JStr []));
                   (js "namespace", JStr (js "default"));
                   (js "content_type", JStr (js "text"));
                   (js "key", JStr (key_of toLowerCase title))])
  | None => Caught "TypeError"       (* undefined.toLowerCase() *)
  end.

Definition doKnowledgeSearch (d : data) : outcome :=
  Calls (Call POST (js "/api/v1/knowledge/search")
              [(js "query", of_str (field_query d)); (js "limit", JNum (Dec 5 0))]).

Definition doKnowledgeList (fl : flags) : outcome :=
  handleKnowledge authenticated [Some (js "list")] fl.

Definition doApprovalRequest (d : data) : outcome :=
  Calls (Call POST (js "/api/v1/approvals")
              ([(js "title", of_str (field_title d));
                (js "description", or_else (of_str (field_description d)) (JStr []));
                (js "category", JStr (js "general"));
                (js "urgency", JStr (js "normal"))]
               ++ field_if (js "amount") (of_num (field_amount d)))).

Definition doApprovalsList (d : data) : outcome :=
  Calls (Call GET (js "/api/v1/approvals") (field_if (js "status") (of_str (field_status d)))).

Definition doApprovalsDecide (d : data) (fl : flags) : outcome :=
  let cmd :=
    match field_decision d with
    | Some x => if str_eqb x (js "approved") then js "approve" else js "deny"
    | None => js "deny"
    end in
  handleApprovals authenticated [Some cmd; field_id d] fl.

Definition doRequestCreate (d : data) : outcome :=
  Calls (Call POST (js "/api/v1/requests")
              [(js "title", of_str (field_title d));
               (js "description", or_else (of_str (field_description d)) (JStr []));
               (js "priority", or_else (of_str (field_priority d)) (JStr (js "medium")))]).

Definition doRequestsList (d : data) : outcome :=
  Calls (Call GET (js "/api/v1/requests") (field_if (js "status") (of_str (field_status d)))).

Definition doStatus : outcome := Calls (Call GET (js "/readyz") []).

Definition executeIntent (intent : str) (d : data) (fl : flags) : outcome :=
  if str_eqb intent (js "knowledge.create") then doKnowledgeCreate d
  else if str_eqb intent (js "knowledge.search") then doKnowledgeSearch d
  else if str_eqb intent (js "knowledge.list") then doKnowledgeList fl
  else if str_eqb intent (js "approvals.request") then doApprovalRequest d
  else if str_eqb intent (js "approvals.list") then doApprovalsList d
  else if str_eqb intent (js "approvals.decide") then doApprovalsDecide d fl
  else if str_eqb intent (js "requests.create") then doRequestCreate d
  else if str_eqb intent (js "requests.list") then doRequestsList d
  else if str_eqb intent (js "status") then doStatus
  else Exits (js "Could not understand: " ++ quote ++ intent ++ quote).

Definition handleRun (args : list str) (fl : flags) : result outcome :=
  if negb authenticated then Ok not_authenticated
  else
    let input := trim (join (js " ") args) in
    if is_nil input then Ok (Exits (js "Please provide an instruction."))
    else
      detected <- detectIntent input ;;
      match detected with
      | None => Ok (Exits (js "Could not understand: " ++ quote ++ input ++ quote))
      | Some (i, d) => Ok (executeIntent (intent_name i) d fl)
      end.

End Run.

(** ** Ages ([output.js]) *)

(** The decimal digits of [n], the last one first in the recursion; [fuel]
    bounds their number. *)
Fixpoint to_digits (fuel : nat) (n : N) (acc : str) : str :=
  match fuel with
  | O => acc
  | S fuel' =>
      let acc' := (48 + n mod 10)%N :: acc in
      if (n / 10 =? 0)%N then acc' else to_digits fuel' (n / 10)%N acc'
  end.

(** [String(n)] for a natural number [n] below 10^21. *)
Definition number_text (n : N) : str := to_digits (S (N.to_nat (N.log2 n))) n [].

(** [timeAgo], from [now - date] in milliseconds and from what
    [date.toLocaleDateString()] gives.  The difference is [None] when it is
    NaN, which it is for an invalid date; every comparison with NaN is false.
    The quotients are exact in the floating-point arithmetic of the runtime
    wherever their value is used, that is below 604800 seconds. *)
Definition timeAgo (ms : option Z) (localeDate : str) : str :=
  match ms with
  | None => localeDate
  | Some ms =>
      let diff := (ms / 1000)%Z in
      if (diff <? 60)%Z then js "just now"
      else if (diff <? 3600)%Z then number_text (Z.to_N (diff / 60)) ++ js "m ago"
      else if (diff <? 86400)%Z then number_text (Z.to_N (diff / 3600)) ++ js "h ago"
      else if (diff <? 604800)%Z then number_text (Z.to_N (diff / 86400)) ++ js "d ago"
      else localeDate
  end.

(** ** Tables ([output.js]) *)

(** [o[key]] for an object given as its assignments, the latest first. *)
Fixpoint assoc (A : Type) (key : str) (l : list (str * A)) : option A :=
  match l with
  | [] => None
  | (k, v) :: l' => if str_eqb k key then Some v else assoc key l'
  end.

(** The escape sequences of [CODES] that [style] uses. *)
Definition code (s : string) : str := 27%N :: js s.

Definition reset : str := code "[0m".

Definition style_codes : list (str * str) :=
  [ (js "bold", code "[1m"); (js "dim", code "[2m"); (js "red", code "[31m");
    (js "green", code "[32m"); (js "yellow", code "[33m"); (js "blue", code "[34m");
    (js "magenta", code "[35m"); (js "cyan", code "[36m"); (js "white", code "[37m");
    (js "gray", code "[90m"); (js "amber", code "[33m");
    (js "error", code "[31m" ++ code "[1m"); (js "success", code "[32m" ++ code "[1m") ].

(** A column of a table; [col_color] is [None] when the column names no
    colour. *)
Record column : Type := Column {
  col_key : str;
  col_label : str;
  col_color : option str
}.

(** The [widths] object.  An assignment of a number to ["__proto__"] leaves
    an object as it is, and what is read there counts as 0 where a width is
    used. *)
Definition set_width (key : str) (n : nat) (w : list (str * nat)) : list (str * nat) :=
  if str_eqb key (js "__proto__") then w else (key, n) :: w.

Definition get_width (key : str) (w : list (str * nat)) : nat :=
  match assoc key w with
  | Some n => n
  | None => 0
  end.

(* s.padEnd(n) *)
Definition padEnd (s : str) (n : nat) : str := s ++ repeat 32%N (n - length s).

(* the box-drawing character of the rule *)
Definition dash : char := 9472%N.

Section Table.

Variable useColor : bool.
(** A row, and [String(row[key] || '')] on it. *)
Variable row : Type.
Variable cell : row -> str -> str.
(** [style[name](text)] for a name that [style] does not define. *)
Variable other_style : str -> str -> result str.

Definition c (cd text : str) : str :=
  if negb useColor then text else cd ++ text ++ reset.

Definition dim (text : str) : str := c (code "[2m") text.

(* style[name](text) *)
Definition styled (name text : str) : result str :=
  match assoc name style_codes with
  | Some cd => Ok (c cd text)
  | None => other_style name text
  end.

(** The two loops that compute the widths. *)
Definition label_widths (columns : list column) : list (str * nat) :=
  fold_left (fun w col => set_width (col_key col) (length (col_label col)) w) columns [].

Definition widen (columns : list column) (w : list (str * nat)) (r : row)
  : list (str * nat) :=
  fold_left (fun w col =>
               set_width (col_key col)
                         (Nat.max (get_width (col_key col) w)
                                  (length (cell r (col_key col)))) w)
            columns w.

Definition table_widths (rows : list row) (columns : list column) : list (str * nat) :=
  fold_left (widen columns) rows (label_widths columns).

(** The cells of one row, in the order of the columns; the first style
    that throws ends the row. *)
Fixpoint row_cells (w : list (str * nat)) (r : row) (columns : list column)
  : result (list str) :=
  match columns with
  | [] => Ok []
  | col :: columns' =>
      let padded := padEnd (cell r (col_key col)) (get_width (col_key col) w) in
      shown <- match col_color col with
               | Some name => if truthy name then styled name padded else Ok padded
               | None => Ok padded
               end ;;
      rest <- row_cells w r columns' ;;
      Ok (shown :: rest)
  end.

(** The lines printed for the rows, and the exception that ended the
    printing, if any. *)
Fixpoint row_lines (w : list (str * nat)) (rows : list row) (columns : list column)
  : list str * option string :=
  match rows with
  | [] => ([], None)
  | r :: rows' =>
      match row_cells w r columns with
      | Ok cells =>
          let '(lines, e) := row_lines w rows' columns in
          ((js "  " ++ join (js "  ") cells) :: lines, e)
      | Throw e => ([], Some e)
      end
  end.

(** [table(rows, columns)]: the lines given to [console.log], and the
    exception that ended it, if any. *)
Definition table (rows : list row) (columns : list column) : list str * option string :=
  match rows with
  | [] => ([dim (js "  (no items)")], None)
  | _ =>
      let w := table_widths rows columns in
      let header :=
        join (js "  ")
             (map (fun col => padEnd (col_label col) (get_width (col_key col) w)) columns) in
      let rule :=
        join [dash; dash]
             (map (fun col => repeat dash (get_width (col_key col) w)) columns) in
      let '(lines, e) := row_lines w rows columns in
      ((js "  " ++ dim header) :: (js "  " ++ dim rule) :: lines, e)
  end.

End Table.

(** * Vocabulary of the statements *)

(** ** Texts *)

(** [w] is a prefix of [s], compared as the pattern compares characters. *)
Fixpoint prefix_match (ic : bool) (w s : str) : bool :=
  match w, s with
  | [], _ => true
  | c :: w', d :: s' => char_eq ic c d && prefix_match ic w' s'
  | _ :: _, [] => false
  end.

(** [w] occurs somewhere in [s]. *)
Fixpoint occurs (ic : bool) (w s : str) : bool :=
  prefix_match ic w s ||
  match s with
  | [] => false
  | _ :: s' => occurs ic w s'
  end.

(** [s.includes(w)] *)
Definition includes (s w : str) : bool := occurs false w s.

(** The longest prefix of [s] made of characters of [p], and the rest. *)
Fixpoint take_while (p : char -> bool) (s : str) : str :=
  match s with
  | c :: s' => if p c then c :: take_while p s' else []
  | [] => []
  end.

Fixpoint drop_while (p : char -> bool) (s : str) : str :=
  match s with
  | c :: s' => if p c then drop_while p s' else s
  | [] => []
  end.

(** What [\S] accepts. *)
Definition nonspace (c : char) : bool := negb (is_space c).

(** What [.] accepts. *)
Definition not_terminator (c : char) : bool := negb (is_line_terminator c).

(** The characters the patterns name, compared as the patterns compare
    them. *)
Definition is_qmark (c : char) : bool := char_eq false (ch "?") c.

Definition is_colon (c : char) : bool := char_eq true (ch ":") c.

Definition is_dollar (c : char) : bool := char_eq false (ch "$") c.

(** The text without the question marks it ends with. *)
Fixpoint strip_qmarks (s : str) : str :=
  match s with
  | [] => []
  | c :: s' => if forallb is_qmark s then [] else c :: strip_qmarks s'
  end.

(** ** States of the matcher *)

(** How much text is ahead of a state. *)
Definition ahead (x : mstate) : nat := length (after x).

(** The groups a match of [r] cannot go without: the ones outside every
    alternative, repetition and option. *)
Fixpoint sets (n : nat) (r : regex) : bool :=
  match r with
  | Seq r1 r2 => sets n r1 || sets n r2
  | Alt r1 r2 => sets n r1 && sets n r2
  | Group m r' => (m =? n) || sets n r'
  | _ => false
  end.

(** The group [n] is defined in [x]. *)
Definition has_cap (n : nat) (x : mstate) : Prop := lookup n (caps x) <> None.

(** The text of the whole match, in the state a match ends in. *)
Definition cap0 (y : mstate) : option str := lookup 0 (caps y).

(** Where a matcher started at [x] succeeds, its continuation succeeded on a
    state that is not further back than [x] and holds the captures of [x]
    and the captures [extra]. *)
Definition keeps (m : matcher) (extra : nat -> bool) : Prop :=
  forall k x z, m k x = Some z ->
    exists y, k y = Some z /\ ahead y <= ahead x /\
              forall n, has_cap n x \/ extra n = true -> has_cap n y.

(** The pattern without its capturing parentheses. *)
Fixpoint erase (r : regex) : regex :=
  match r with
  | Seq r1 r2 => Seq (erase r1) (erase r2)
  | Alt r1 r2 => Alt (erase r1) (erase r2)
  | Star g r' => Star g (erase r')
  | Opt r' => Opt (erase r')
  | Group _ r' => erase r'
  | _ => r
  end.

(** Two states at the same place of the same text, whatever their captures. *)
Definition same_place (x y : mstate) : Prop :=
  before x = before y /\ after x = after y.

(** The match did not fail. *)
Definition succeeds (o : option mstate) : bool :=
  match o with Some _ => true | None => false end.

(** Two continuations that succeed on the same places. *)
Definition alike (k k' : cont) : Prop :=
  forall y y', same_place y y' -> succeeds (k y) = succeeds (k' y').

(** ** Amounts of money *)

(** [[\d,]] *)
Definition money_char (c : char) : bool := class_matches [ADigit; AChar (ch ",")] c.

(** "$" followed at once by a character of the class [p], somewhere in [s]. *)
Fixpoint dollar_then (p : char -> bool) (s : str) : bool :=
  match s with
  | c :: s' => (is_dollar c && head_is p s') || dollar_then p s'
  | [] => false
  end.

(** The cents: a dot and two digits at the head of [s], or nothing. *)
Definition cents (s : str) : str :=
  match s with
  | d :: a :: b :: _ =>
      if char_eq false (ch ".") d && is_digit a && is_digit b then [d; a; b] else []
  | _ => []
  end.

(** The amount written at the head of [s]: "$", the run of digits and commas
    after it, which is not empty, and the cents after the run. *)
Definition money_at (s : str) : option str :=
  match s with
  | c :: s' =>
      if is_dollar c && head_is money_char s'
      then Some (c :: take_while money_char s' ++ cents (drop_while money_char s'))
      else None
  | [] => None
  end.

(** The leftmost amount written in [s]. *)
Fixpoint find_money (s : str) : option str :=
  match money_at s with
  | Some m => Some m
  | None =>
      match s with
      | [] => None
      | _ :: s' => find_money s'
      end
  end.

(** What [/[$,]/g] leaves. *)
Definition kept (c : char) : bool := negb (class_matches [AChar (ch "$"); AChar (ch ",")] c).

(** The number a string of decimal digits denotes. *)
Definition decimal (ds : str) : N := fold_left (fun acc c => (10 * acc + digit_val c)%N) ds 0%N.

(** The digits of a text, and whether it holds a dot. *)
Definition digits_of (m : str) : str := filter is_digit m.

Definition is_dot (c : char) : bool := char_eq false (ch ".") c.

(** How many digits of an amount stand after its dot: two when it has the
    cents, and none otherwise. *)
Definition decimals_of (m : str) : nat := if existsb is_dot m then 2 else 0.

(** ** Doubles *)

(** The set the Number value is chosen from, in units of [2 ^ -1074]: the
    finite doubles that are not negative, [q * 2 ^ e] with [q < 2 ^ 53] and
    [e] from -1074 to 971, and [2 ^ 1024]. *)
Definition candidate (u : N) : Prop :=
  (exists q s, (q < 2 ^ 53)%N /\ (s <= 2045)%N /\ u = (q * 2 ^ s)%N) \/ u = (2 ^ 2098)%N.

(** The Number [r] is the candidate of [u] units: +Infinity stands for
    [2 ^ 1024], and [Dec m j] for the finite double of value [m / 10 ^ j],
    written with no trailing zero after the point. *)
Definition units_of (r : number) (u : N) : Prop :=
  match r with
  | NaN => False
  | Infinity => u = (2 ^ 2098)%N
  | Dec m j =>
      (u < 2 ^ 2098)%N /\ (m * 2 ^ 1074 = u * 10 ^ N.of_nat j)%N
      /\ (j = 0 \/ (m mod 10)%N <> 0%N)
  end.

(** How far [u] units are from [num / den] units, in [den]-th parts of a
    unit. *)
Definition gap (num den u : N) : Z := Z.abs (Z.of_N num - Z.of_N (u * den)).

(** How far the double of [u] units is from [m / 10 ^ k]. *)
Definition off (m : N) (k : nat) (u : N) : Z := gap (m * 2 ^ 1074) (10 ^ N.of_nat k) u.

(** The significand of the double of [u] units: [u] itself below [2 ^ 53]
    units, and else its 53 leading bits. *)
Definition significand (u : N) : N := (u / 2 ^ (N.log2 u - 52))%N.

(** [r] is the Number value for [m / 10 ^ k], as the language definition has
    it: the candidate nearest to it; of two candidates that are as near, the
    one with the even significand; and +Infinity when that is [2 ^ 1024]. *)
Definition is_number_value (m : N) (k : nat) (r : number) : Prop :=
  exists u, candidate u /\ units_of r u
    /\ (forall u', candidate u' -> (off m k u <= off m k u')%Z)
    /\ (forall u', candidate u' -> u' <> u -> off m k u' = off m k u ->
                   N.even (significand u) = true).

(** ** Words and fillers *)

(** [a] is the word [v], up to letter case. *)
Definition spells (v a : str) : Prop :=
  length a = length v /\ prefix_match true v a = true.

(** The verbs of the two extraction patterns of knowledge.create. *)
Definition storage_verbs : list str :=
  map js ["store"; "save"; "add"; "remember"; "record"; "put"; "set"]%string.

(** The fillers of its colon pattern. *)
Definition fillers : list str := map js ["a"; "our"; "the"; "my"; "this"]%string.

(** What a title is made of: anything but a colon and a line terminator. *)
Definition title_char (c : char) : bool := not_terminator c && negb (is_colon c).

(** A filler word and white space stand at the head of [s]. *)
Definition filler_ahead (s : str) : bool :=
  existsb (fun f => prefix_match true f s && head_is is_space (skipn (length f) s)) fillers.

(** The filler between the verb and the title: a filler word, in any letter
    case, and white space; or nothing, when what follows does not start
    with a filler. *)
Definition filler_part (fill rest : str) : Prop :=
  (fill = [] /\ filler_ahead rest = false)
  \/ exists f f' ws2,
       In f fillers /\ spells f f' /\ ws2 <> [] /\ forallb is_space ws2 = true
       /\ fill = f' ++ ws2.

(** ** Results *)

(** The four priorities of a request. *)
Definition priorities : list str := [js "critical"; js "high"; js "medium"; js "low"].

(** The fields for which the extractors have a default, and the id of a
    decision, always hold a value. *)
Definition filled (d : data) : Prop :=
  match d with
  | Decide id _ => id <> None
  | ApprovalRequest title _ _ => title <> []
  | RequestCreate title _ priority => title <> [] /\ In priority priorities
  | _ => True
  end.

(** ** The claims that fail, as they are stated *)

(** What C1 says of its input: a request of priority "critical" whose title
    does not hold the urgency word. *)
Definition critical_without_urgency (input : str) : Prop :=
  exists title description,
    detectIntent input
      = Ok (Some (requests_create, RequestCreate title description (js "critical")))
    /\ includes title (js "urgent") = false.

(** What C2 says of an input: when no rule fires and the fallback applies, the
    query is what the search extractor makes of the trimmed input. *)
Definition fallback_runs_search_extractor (input : str) : Prop :=
  (forall r, In r INTENT_RULES -> rule_test r (trim input) = false) ->
  endsWith (trim input) (ch "?") = true \/ length (trim input) < 80 ->
  exists d, KnowledgeSearch.extract (trim input) = Ok d
            /\ detectIntent input = Ok (Some (knowledge_search, d)).

(** What C5 says in general of an input: when it makes a knowledge entry and
    holds one colon, the title is what is left of the text before the colon
    once a lead-in is taken away, and the content is the text after the
    colon. *)
Definition colon_splits (input : str) : Prop :=
  forall d left right,
    detectIntent input = Ok (Some (knowledge_create, d)) ->
    trim input = left ++ ch ":" :: right ->
    forallb (fun c => negb (is_colon c)) (left ++ right) = true ->
    exists lead title,
      trim left = lead ++ title /\ d = KnowledgeCreate title (trim right).

(** What C7 says of an input: the amount is a number exactly when "$" stands
    immediately before a digit somewhere in the input. *)
Definition amount_iff_dollar_digit (s : str) : Prop :=
  (exists v, ApprovalRequest.amount_of s = Some v /\ v <> NaN)
  <-> dollar_then is_digit s = true.


(** ** The store *)

(** The computation returns [v] from every store, and leaves the objects
    of the store as they were: all it does to the store is to add
    objects. *)
Definition returns (A : Type) (m : M A) (v : result A) : Prop :=
  forall h, exists new, m h = (v, h ++ new).

(** Called on an object that a literal [re] has just made, the method [op]
    returns [a], and leaves the store as it was but for the [lastIndex] of
    that object. *)
Definition on_new (A : Type) (op : ref -> M A) (re : RegExp) (a : A) : Prop :=
  forall h, exists i,
    op (length h) (h ++ [RegExpObject re 0]) = (Ok a, h ++ [RegExpObject re i]).

(** The rule [r] over the store does what the rule [r'] does. *)
Definition same_rule (r : Stateful.rule) (r' : rule) : Prop :=
  Stateful.rule_intent r = rule_intent r'
  /\ (forall s, returns (Stateful.rule_test r s) (Ok (rule_test r' s)))
  /\ (forall s, returns (Stateful.rule_extract r s) (rule_extract r' s)).

(** ** The command line *)

(** [a] is [b] with some elements left out. *)
Inductive subseq (A : Type) : list A -> list A -> Prop :=
| subseq_nil : subseq [] []
| subseq_skip : forall x a b, subseq a b -> subseq a (x :: b)
| subseq_take : forall x a b, subseq a b -> subseq (x :: a) (x :: b).

(** No dash at the head of [a]. *)
Definition plain (a : str) : bool := negb (startsWith a (js "-")).

(** An argument as it is typed: a plain word, or [--key=value]. *)
Inductive item : Type :=
| Word (a : str)
| Assign (key value : str).

Definition render (i : item) : str :=
  match i with
  | Word a => a
  | Assign k v => js "--" ++ k ++ ch "=" :: v
  end.

Fixpoint words_of (l : list item) : list str :=
  match l with
  | [] => []
  | Word a :: l' => a :: words_of l'
  | Assign _ _ :: l' => words_of l'
  end.

(** The assignments of [l], the latest first. *)
Fixpoint assigns_of (l : list item) (fl : flags) : flags :=
  match l with
  | [] => fl
  | Word _ :: l' => assigns_of l' fl
  | Assign k v :: l' => assigns_of l' ((k, FValue v) :: fl)
  end.

(** What can be typed as an item and read back: a word with no dash at its
    head, a key that holds no "=" and is not "__proto__". *)
Definition typable (i : item) : Prop :=
  match i with
  | Word a => plain a = true
  | Assign k _ => indexOf k (ch "=") = None /\ str_eqb k (js "__proto__") = false
  end.

(** ** Intents and their data *)

(** The data has the fields that the rules of the intent give it. *)
Definition fits (i : intent) (d : data) : bool :=
  match i, d with
  | approvals_decide, Decide _ _ => true
  | approvals_list, ApprovalsList _ => true
  | approvals_request, ApprovalRequest _ _ _ => true
  | knowledge_create, KnowledgeCreate _ _ => true
  | knowledge_list, NoData => true
  | knowledge_search, Search _ => true
  | requests_list, RequestsList _ => true
  | requests_create, RequestCreate _ _ _ => true
  | status, NoData => true
  | _, _ => false
  end.

(** ** Keys *)

Definition is_dash (c : char) : bool := char_eq false (ch "-") c.

(** What is neither a lower-case letter nor a digit. *)
Definition not_key_char (c : char) : bool := negb (key_char c).

(** The text with one dash for every run of characters that are neither a
    lower-case letter nor a digit; [in_run] tells that the run has begun. *)
Fixpoint collapse (in_run : bool) (s : str) : str :=
  match s with
  | [] => []
  | c :: s' =>
      if key_char c then c :: collapse false s'
      else if in_run then collapse true s' else ch "-" :: collapse true s'
  end.

(** The text without a dash at its head, and without a dash at its end. *)
Definition strip_first (s : str) : str :=
  match s with
  | c :: s' => if is_dash c then s' else s
  | [] => []
  end.

Definition strip_last (s : str) : str := rev (strip_first (rev s)).

(** No two dashes stand side by side in [s]. *)
Definition no_double_dash (s : str) : Prop :=
  forall a c d b, s = a ++ c :: d :: b -> is_dash c && is_dash d = false.

(** The characters a key is made of. *)
Definition in_key (c : char) : bool := key_char c || is_dash c.

(** ** The first character of a match *)

(** The patterns that match without consuming any text. *)
Definition zero_width (r : regex) : bool :=
  match r with
  | Eps | Bol | Eol | WordB => true
  | _ => false
  end.

(** The pattern characters one of which every match of [r] starts with,
    when the syntax of [r] shows them. *)
Fixpoint first_chars (r : regex) : option (list char) :=
  match r with
  | Chr c => Some [c]
  | Seq r1 r2 => if zero_width r1 then first_chars r2 else first_chars r1
  | Alt r1 r2 =>
      match first_chars r1, first_chars r2 with
      | Some a, Some b => Some (a ++ b)
      | _, _ => None
      end
  | Group _ r' => first_chars r'
  | _ => None
  end.

(** ** Whole words *)

(** One of the words [vs] stands in [s], in any letter case, with no word
    character before it and none after it. *)
Definition whole_word (vs : list str) (s : str) : Prop :=
  exists a p b v,
    s = a ++ p ++ b /\ In v vs /\ spells v p
    /\ head_is is_word (rev a) = false /\ head_is is_word b = false.

(** A word that starts and ends with a lower-case letter. *)
Definition letters_at_ends (v : str) : bool :=
  match v with
  | h :: _ => between 97 122 h && between 97 122 (hd 0%N (rev v))
  | [] => false
  end.

(** ** Words of a text *)

(** The pieces of [s] between its runs of white space.  [cur] is the piece
    being read, its last character first; [in_sep] tells that a run of white
    space is being passed. *)
Fixpoint pieces (in_sep : bool) (cur : str) (s : str) : list str :=
  match s with
  | [] => [rev cur]
  | c :: s' =>
      if is_space c
      then if in_sep then pieces true cur s' else rev cur :: pieces true [] s'
      else pieces false (c :: cur) s'
  end.

(** The first group holds a text whose first character is not white
    space. *)
Definition line_starts (z : mstate) : Prop :=
  exists d v, lookup 1 (caps z) = Some (d :: v) /\ is_space d = false.

(** * Properties *)

(** ** The matcher on literals and on runs of one character class *)

Section Matcher.

Variable ic : bool.

Lemma rmatch_lit (v : str) (k : cont) (bef aft : str) (cs : list (nat * str)) :
  rmatch ic (lit v) k (MState bef aft cs) =
  if prefix_match ic v aft
  then k (MState (rev (firstn (length v) aft) ++ bef) (skipn (length v) aft) cs)
  else None.
Proof.
  revert bef aft. induction v as [|c v IH]; intros bef aft.
  - reflexivity.
  - assert (E : rmatch ic (lit (c :: v)) k (MState bef aft cs) =
                rmatch ic (Seq (Chr c) (lit v)) k (MState bef aft cs)).
    { destruct v; reflexivity. }
    rewrite E. cbn [rmatch]. unfold char_matcher. cbn [after prefix_match].
    destruct aft as [|d aft]; [reflexivity|].
    destruct (char_eq ic c d); [|reflexivity].
    unfold advance. cbn [before caps andb]. rewrite IH.
    cbn [length firstn skipn rev]. rewrite <- app_assoc. reflexivity.
Qed.

Variable p : char -> bool.

(** A greedy run takes every character of the class when what follows
    accepts that. *)
Lemma repeat_greedy_max (l1 l2 : str) :
  forallb p l1 = true -> head_is p l2 = false ->
  forall (n : nat) (k : cont) (bef : str) (cs : list (nat * str)) (z : mstate),
    length l1 <= n ->
    k (MState (rev l1 ++ bef) l2 cs) = Some z ->
    repeat_matcher (char_matcher p) true n k (MState bef (l1 ++ l2) cs) = Some z.
Proof.
  intros Hall Hstop. induction l1 as [|a l1 IH]; intros n k bef cs z Hn Hk.
  - cbn [app rev] in *. destruct n as [|n]; [exact Hk|].
    cbn [repeat_matcher]. unfold char_matcher. cbn [after].
    destruct l2 as [|d l2]; [exact Hk|].
    cbn [head_is] in Hstop. rewrite Hstop. exact Hk.
  - cbn [forallb] in Hall. apply andb_prop in Hall. destruct Hall as [Ha Hall].
    destruct n as [|n]; [cbn in Hn; lia|].
    cbn [repeat_matcher app]. unfold char_matcher at 1. cbn [after].
    rewrite Ha. unfold no_progress, advance. cbn [after before caps length].
    replace (length (l1 ++ l2) =? S (length (l1 ++ l2))) with false
      by (symmetry; apply Nat.eqb_neq; lia).
    rewrite (IH Hall n k (a :: bef) cs z).
    + reflexivity.
    + cbn in Hn. lia.
    + cbn [rev] in Hk. rewrite <- app_assoc in Hk. exact Hk.
Qed.

(** A greedy run fails when what follows refuses every place it could stop. *)
Lemma repeat_greedy_fail (l1 l2 : str) :
  forallb p l1 = true -> head_is p l2 = false ->
  forall (n : nat) (k : cont) (bef : str) (cs : list (nat * str)),
    (forall a b, l1 = a ++ b -> k (MState (rev a ++ bef) (b ++ l2) cs) = None) ->
    repeat_matcher (char_matcher p) true n k (MState bef (l1 ++ l2) cs) = None.
Proof.
  intros Hall Hstop. induction l1 as [|a l1 IH]; intros n k bef cs Hk.
  - pose proof (Hk [] [] eq_refl) as H0. cbn [app rev] in *.
    destruct n as [|n]; [exact H0|].
    cbn [repeat_matcher]. unfold char_matcher. cbn [after].
    destruct l2 as [|d l2]; [exact H0|].
    cbn [head_is] in Hstop. rewrite Hstop. exact H0.
  - cbn [forallb] in Hall. apply andb_prop in Hall. destruct Hall as [Ha Hall].
    pose proof (Hk [] (a :: l1) eq_refl) as H0. cbn [app rev] in H0.
    destruct n as [|n]; [exact H0|].
    cbn [repeat_matcher app]. unfold char_matcher at 1. cbn [after].
    rewrite Ha. unfold no_progress, advance. cbn [after before caps length].
    replace (length (l1 ++ l2) =? S (length (l1 ++ l2))) with false
      by (symmetry; apply Nat.eqb_neq; lia).
    rewrite (IH Hall n k (a :: bef) cs).
    + exact H0.
    + intros a' b' E. specialize (Hk (a :: a') b').
      cbn [rev app] in Hk. rewrite <- app_assoc in Hk. apply Hk.
      rewrite E. reflexivity.
Qed.

(** A lazy run goes on while what follows refuses to start. *)
Lemma repeat_lazy_skip (q : char -> bool) (l1 l2 : str) :
  forallb p l1 = true -> forallb (fun c => negb (q c)) l1 = true ->
  forall (n : nat) (k : cont) (bef : str) (cs : list (nat * str)) (z : mstate),
    (forall y, head_is q (after y) = false -> k y = None) ->
    length l1 <= n ->
    k (MState (rev l1 ++ bef) l2 cs) = Some z ->
    repeat_matcher (char_matcher p) false n k (MState bef (l1 ++ l2) cs) = Some z.
Proof.
  intros Hall Hq. induction l1 as [|a l1 IH]; intros n k bef cs z Hfail Hn Hk.
  - cbn [app rev] in *. destruct n as [|n]; [exact Hk|].
    cbn [repeat_matcher]. rewrite Hk. reflexivity.
  - cbn [forallb] in Hall, Hq.
    apply andb_prop in Hall. destruct Hall as [Ha Hall].
    apply andb_prop in Hq. destruct Hq as [Hqa Hq].
    destruct n as [|n]; [cbn in Hn; lia|].
    cbn [repeat_matcher app]. rewrite Hfail.
    2:{ cbn [after head_is]. destruct (q a); [discriminate|reflexivity]. }
    unfold char_matcher at 1. cbn [after].
    rewrite Ha. unfold no_progress, advance. cbn [after before caps length].
    replace (length (l1 ++ l2) =? S (length (l1 ++ l2))) with false
      by (symmetry; apply Nat.eqb_neq; lia).
    apply IH; auto.
    + cbn in Hn. lia.
    + cbn [rev] in Hk. rewrite <- app_assoc in Hk. exact Hk.
Qed.

End Matcher.

(** ** Searching *)

Lemma exec_from_eq (re : RegExp) (bef aft : str) :
  exec_from re bef aft =
  match rmatch (ignoreCase re) (Group 0 (pattern re)) Some (MState bef aft []) with
  | Some y => Some (MatchResult [] y)
  | None =>
      match aft with
      | [] => None
      | c :: aft' =>
          match exec_from re (c :: bef) aft' with
          | Some r => Some (MatchResult (c :: skipped r) (final r))
          | None => None
          end
      end
  end.
Proof. destruct aft; reflexivity. Qed.

Lemma exec_from_here (re : RegExp) (bef aft : str) (y : mstate) :
  rmatch (ignoreCase re) (Group 0 (pattern re)) Some (MState bef aft []) = Some y ->
  exec_from re bef aft = Some (MatchResult [] y).
Proof. intros H. rewrite exec_from_eq, H. reflexivity. Qed.

Lemma exec_from_none (re : RegExp) (aft : str) :
  forall bef,
    (forall a b, aft = a ++ b ->
       rmatch (ignoreCase re) (Group 0 (pattern re)) Some (MState (rev a ++ bef) b []) = None) ->
    exec_from re bef aft = None.
Proof.
  induction aft as [|c aft IH]; intros bef H.
  - pose proof (H [] [] eq_refl) as H0. cbn [rev app] in H0.
    cbn [exec_from]. rewrite H0. reflexivity.
  - pose proof (H [] (c :: aft) eq_refl) as H0. cbn [rev app] in H0.
    cbn [exec_from]. rewrite H0.
    rewrite IH; [reflexivity|].
    intros a b E. specialize (H (c :: a) b). cbn [rev app] in H.
    rewrite <- app_assoc in H. apply H. rewrite E. reflexivity.
Qed.

Lemma occurs_app_r (ic : bool) (v a b : str) :
  occurs ic v (a ++ b) = false -> occurs ic v b = false.
Proof.
  induction a as [|c a IH]; [trivial|].
  cbn [app occurs]. intros H. apply orb_false_elim in H. apply IH, H.
Qed.

Lemma occurs_prefix (ic : bool) (v s : str) :
  occurs ic v s = false -> prefix_match ic v s = false.
Proof. destruct s; cbn [occurs]; intros H; apply orb_false_elim in H; apply H. Qed.

(** An alternation of words fails where none of them starts. *)
Lemma rmatch_words_none (ic : bool) (l : list str) (k : cont) (x : mstate) :
  l <> [] ->
  (forall v, In v l -> prefix_match ic v (after x) = false) ->
  rmatch ic (alts (map (@lit) l)) k x = None.
Proof.
  destruct x as [bef aft cs]. cbn [after].
  induction l as [|v l IH]; intros Hne H; [congruence|].
  destruct l as [|v' l].
  - cbn [map alts]. rewrite rmatch_lit, (H v); [reflexivity|left; reflexivity].
  - change (alts (map (@lit) (v :: v' :: l)))
      with (Alt (lit v) (alts (map (@lit) (v' :: l)))).
    cbn [rmatch]. rewrite rmatch_lit, (H v) by (left; reflexivity).
    apply IH; [discriminate|]. intros u Hu. apply H. right. exact Hu.
Qed.

(** A test for one of several words is false on a text that holds none. *)
Lemma test_words_false (ic : bool) (n : nat) (l : list str) (s : str) :
  l <> [] ->
  (forall v, In v l -> occurs ic v s = false) ->
  test (Re (Group n (alts (map (@lit) l))) ic false) s = false.
Proof.
  intros Hne H. unfold test. rewrite exec_from_none; [reflexivity|].
  intros a b E. cbn [ignoreCase pattern rmatch].
  apply rmatch_words_none; [exact Hne|].
  intros v Hv. cbn [after]. apply occurs_prefix.
  apply occurs_app_r with (a := a). rewrite <- E. apply H, Hv.
Qed.

(** ** Runs of a class inside a pattern *)

Lemma consumed_app (bef bef' l1 l2 : str) (cs cs' : list (nat * str)) :
  consumed (MState bef (l1 ++ l2) cs) (MState bef' l2 cs') = l1.
Proof.
  unfold consumed. cbn [after]. rewrite length_app.
  replace (length l1 + length l2 - length l2) with (length l1) by lia.
  rewrite firstn_app, Nat.sub_diag, firstn_all. cbn [firstn]. apply app_nil_r.
Qed.

Lemma forallb_class (l : list atom) (p : char -> bool) (s : str) :
  (forall c, class_matches l c = p c) ->
  forallb p s = true -> forallb (class_matches l) s = true.
Proof.
  intros E H. rewrite forallb_forall in *. intros c Hc. rewrite E. apply H, Hc.
Qed.

Lemma head_is_class (l : list atom) (p : char -> bool) (s : str) :
  (forall c, class_matches l c = p c) ->
  head_is p s = false -> head_is (class_matches l) s = false.
Proof. intros E H. destruct s; [reflexivity|]. cbn [head_is] in *. rewrite E. exact H. Qed.

Lemma space_class (c : char) : class_matches [ASpace] c = is_space c.
Proof. cbn. apply orb_false_r. Qed.

Lemma nonspace_class (c : char) : class_matches [ANonSpace] c = negb (is_space c).
Proof. cbn. apply orb_false_r. Qed.

Section Runs.

Variables (ic : bool) (l : list atom) (p : char -> bool).
Hypothesis class_p : forall c, class_matches l c = p c.

(** [[l]*] takes the whole run [l1] when the rest of the pattern accepts. *)
Lemma star_run (l1 l2 : str) (k : cont) (bef : str) (cs : list (nat * str)) (z : mstate) :
  forallb p l1 = true -> head_is p l2 = false ->
  k (MState (rev l1 ++ bef) l2 cs) = Some z ->
  rmatch ic (Star true (Cls l)) k (MState bef (l1 ++ l2) cs) = Some z.
Proof.
  intros H1 H2 Hk. cbn [rmatch after].
  apply repeat_greedy_max.
  - apply forallb_class with (p := p); assumption.
  - apply head_is_class with (p := p); assumption.
  - rewrite length_app. lia.
  - exact Hk.
Qed.

(** [[l]+] likewise, on a run that is not empty. *)
Lemma plus_run (l1 l2 : str) (k : cont) (bef : str) (cs : list (nat * str)) (z : mstate) :
  l1 <> [] -> forallb p l1 = true -> head_is p l2 = false ->
  k (MState (rev l1 ++ bef) l2 cs) = Some z ->
  rmatch ic (Plus true (Cls l)) k (MState bef (l1 ++ l2) cs) = Some z.
Proof.
  intros Hne H1 H2 Hk. destruct l1 as [|a l1]; [congruence|].
  cbn [forallb] in H1. apply andb_prop in H1. destruct H1 as [Ha H1].
  unfold Plus. cbn [rmatch]. unfold char_matcher at 1. cbn [after app].
  rewrite class_p, Ha. unfold advance. cbn [before caps].
  apply star_run; [assumption..|].
  cbn [rev] in Hk. rewrite <- app_assoc in Hk. exact Hk.
Qed.

(** [[l]+] fails where no character of the class stands. *)
Lemma plus_none (k : cont) (x : mstate) :
  head_is p (after x) = false ->
  rmatch ic (Plus true (Cls l)) k x = None.
Proof.
  intros H. unfold Plus. cbn [rmatch]. unfold char_matcher.
  destruct (after x) as [|c s]; [reflexivity|].
  cbn [head_is] in H. rewrite class_p, H. reflexivity.
Qed.

End Runs.

Lemma prefix_match_app (ic : bool) (v a b : str) :
  prefix_match ic v a = true -> prefix_match ic v (a ++ b) = true.
Proof.
  revert a. induction v as [|c v IH]; intros a H; [reflexivity|].
  destruct a as [|d a]; [discriminate|].
  cbn [prefix_match app] in *. apply andb_prop in H. destruct H as [H1 H2].
  rewrite H1, (IH a H2). reflexivity.
Qed.

Lemma firstn_length_app (A : Type) (n : nat) (a b : list A) :
  length a = n -> firstn n (a ++ b) = a.
Proof.
  intros <-. rewrite firstn_app, Nat.sub_diag, firstn_all. cbn [firstn]. apply app_nil_r.
Qed.

Lemma skipn_length_app (A : Type) (n : nat) (a b : list A) :
  length a = n -> skipn n (a ++ b) = b.
Proof.
  intros <-. rewrite skipn_app, Nat.sub_diag, skipn_all. reflexivity.
Qed.

(** A word at the head of the text, in the letter case the text has it. *)
Lemma rmatch_word (ic : bool) (v a b : str) (k : cont) (bef : str) (cs : list (nat * str)) :
  length a = length v -> prefix_match ic v a = true ->
  rmatch ic (lit v) k (MState bef (a ++ b) cs) = k (MState (rev a ++ bef) b cs).
Proof.
  intros Hl Hp. rewrite rmatch_lit, (prefix_match_app _ _ _ b Hp).
  rewrite firstn_length_app, skipn_length_app by exact Hl. reflexivity.
Qed.

(** ** "approve <token>" *)

Section ApproveToken.

Variables p ws t rest : str.
Hypothesis approve_p : length p = 7 /\ prefix_match true (js "approve") p = true.
Hypothesis ws_space : ws <> [] /\ forallb is_space ws = true.
Hypothesis t_token : t <> [] /\ forallb (fun c => negb (is_space c)) t = true.
Hypothesis rest_sep : head_is (fun c => negb (is_space c)) rest = false.

Let s := p ++ ws ++ t ++ rest.

Lemma t_head : head_is is_space (t ++ rest) = false.
Proof.
  destruct t_token as [Hne Hall]. destruct t as [|c t']; [congruence|].
  cbn [forallb] in Hall. apply andb_prop in Hall. destruct Hall as [Hc _].
  cbn [app head_is]. destruct (is_space c); [discriminate|reflexivity].
Qed.

Lemma approve_test_holds : test Decide.approve_test s = true.
Proof.
  destruct approve_p as [Hl Hp]. destruct ws_space as [Hw1 Hw2].
  destruct t_token as [Ht1 Ht2].
  unfold test. erewrite exec_from_here; [reflexivity|].
  unfold Decide.approve_test, reI, w, s. cbn [ignoreCase pattern seqs rmatch before is_nil].
  rewrite rmatch_word by assumption.
  eapply plus_run with (p := is_space); [apply space_class|assumption..|apply t_head|].
  eapply plus_run with (p := fun c => negb (is_space c));
    [apply nonspace_class|assumption..|reflexivity].
Qed.

Lemma approve_id_found : Decide.id_of (str_match s Decide.approve_id) = Some t.
Proof.
  destruct approve_p as [Hl Hp]. destruct ws_space as [Hw1 Hw2].
  destruct t_token as [Ht1 Ht2].
  unfold str_match. erewrite exec_from_here.
  2:{ unfold Decide.approve_id, reI, w, s.
      cbn [ignoreCase pattern seqs rmatch before is_nil].
      rewrite rmatch_word by assumption.
      eapply plus_run with (p := is_space); [apply space_class|assumption..|apply t_head|].
      eapply plus_run with (p := fun c => negb (is_space c));
        [apply nonspace_class|assumption..|reflexivity]. }
  unfold Decide.id_of, capture. cbn [final set_cap caps lookup Nat.eqb].
  rewrite consumed_app. reflexivity.
Qed.

End ApproveToken.

(** ** The matcher looks ahead only *)

Section Ahead.

Variable ic : bool.

(** A matcher started at [x] calls its continuation on states that are not
    further back than [x]: two continuations that agree there are
    interchangeable. *)
Lemma repeat_matcher_ext (m : matcher) (g : bool) :
  (forall k k' x, (forall y, ahead y <= ahead x -> k y = k' y) -> m k x = m k' x) ->
  forall n k k' x,
    (forall y, ahead y <= ahead x -> k y = k' y) ->
    repeat_matcher m g n k x = repeat_matcher m g n k' x.
Proof.
  intros Hm. induction n as [|n IH]; intros k k' x H.
  - cbn. apply H. lia.
  - cbn [repeat_matcher].
    assert (E : m (fun y => if no_progress x y then None else repeat_matcher m g n k y) x
              = m (fun y => if no_progress x y then None else repeat_matcher m g n k' y) x).
    { apply Hm. intros y Hy. destruct (no_progress x y); [reflexivity|].
      apply IH. intros z Hz. apply H. lia. }
    rewrite E, (H x) by lia. reflexivity.
Qed.

Lemma rmatch_ext (r : regex) :
  forall k k' x,
    (forall y, ahead y <= ahead x -> k y = k' y) ->
    rmatch ic r k x = rmatch ic r k' x.
Proof.
  assert (C : forall p k k' x,
             (forall y, ahead y <= ahead x -> k y = k' y) ->
             char_matcher p k x = char_matcher p k' x).
  { intros p k k' x H. unfold char_matcher.
    destruct (after x) as [|c rest] eqn:E; [reflexivity|].
    destruct (p c); [|reflexivity]. apply H. unfold ahead, advance.
    cbn [after]. rewrite E. cbn. lia. }
  induction r as [| c | | l | | | | r1 IH1 r2 IH2 | r1 IH1 r2 IH2 | g r IH | r IH | n r IH];
    intros k k' x H; cbn [rmatch]; try (apply C; exact H).
  - apply H. lia.
  - rewrite (H x) by lia. reflexivity.
  - rewrite (H x) by lia. reflexivity.
  - rewrite (H x) by lia. reflexivity.
  - apply IH1. intros y Hy. apply IH2. intros z Hz. apply H. lia.
  - rewrite (IH1 k k' x H), (IH2 k k' x H). reflexivity.
  - apply repeat_matcher_ext; assumption.
  - rewrite (H x) by lia.
    rewrite (IH (fun y => if no_progress x y then None else k y)
                (fun y => if no_progress x y then None else k' y) x); [reflexivity|].
    intros y Hy. destruct (no_progress x y); [reflexivity|]. apply H, Hy.
  - apply IH. intros y Hy. apply H. exact Hy.
Qed.

(** With a continuation that always fails, the match fails. *)
Lemma char_matcher_fail (p : char -> bool) (x : mstate) :
  char_matcher p (fun _ => None) x = None.
Proof.
  unfold char_matcher. destruct (after x) as [|c rest]; [reflexivity|].
  destruct (p c); reflexivity.
Qed.

Lemma rmatch_fail (r : regex) : forall x, rmatch ic r (fun _ => None) x = None.
Proof.
  induction r as [| c | | l | | | | r1 IH1 r2 IH2 | r1 IH1 r2 IH2 | g r IH | r IH | n r IH];
    intros x; cbn [rmatch]; try apply char_matcher_fail.
  - reflexivity.
  - destruct (is_nil (before x)); reflexivity.
  - destruct (is_nil (after x)); reflexivity.
  - destruct (at_word_boundary x); reflexivity.
  - rewrite (rmatch_ext r1 (rmatch ic r2 (fun _ => None)) (fun _ => None)); [apply IH1|].
    intros y _. apply IH2.
  - rewrite IH1, IH2. reflexivity.
  - generalize (length (after x)). intros n. revert x.
    induction n as [|n IHn]; intros x; [reflexivity|].
    cbn [repeat_matcher].
    rewrite (rmatch_ext r _ (fun _ => None)); [rewrite IH; destruct g; reflexivity|].
    intros y _. destruct (no_progress x y); [reflexivity|apply IHn].
  - rewrite (rmatch_ext r _ (fun _ => None)); [rewrite IH; reflexivity|].
    intros y _. destruct (no_progress x y); reflexivity.
  - apply IH.
Qed.

(** The fuel of a repetition: at the end of the text no iteration is left,
    and any fuel that covers the text ahead gives the same result. *)
Lemma repeat_matcher_end (r : regex) (g : bool) (n : nat) (k : cont) (x : mstate) :
  ahead x = 0 -> repeat_matcher (rmatch ic r) g n k x = k x.
Proof.
  intros H. destruct n as [|n]; [reflexivity|]. cbn [repeat_matcher].
  rewrite (rmatch_ext r _ (fun _ => None)).
  - rewrite rmatch_fail. destruct g; [reflexivity|]. destruct (k x); reflexivity.
  - intros y Hy. unfold no_progress. fold (ahead y) (ahead x).
    replace (ahead y =? ahead x) with true; [reflexivity|].
    symmetry. apply Nat.eqb_eq. lia.
Qed.

Lemma repeat_matcher_fuel (r : regex) (g : bool) :
  forall n m k x,
    ahead x <= n -> ahead x <= m ->
    repeat_matcher (rmatch ic r) g n k x = repeat_matcher (rmatch ic r) g m k x.
Proof.
  induction n as [|n IH]; intros m k x Hn Hm.
  - rewrite !repeat_matcher_end by lia. reflexivity.
  - destruct m as [|m].
    + rewrite !repeat_matcher_end by lia. reflexivity.
    + cbn [repeat_matcher].
      rewrite (rmatch_ext r
                 (fun y => if no_progress x y then None
                           else repeat_matcher (rmatch ic r) g n k y)
                 (fun y => if no_progress x y then None
                           else repeat_matcher (rmatch ic r) g m k y)); [reflexivity|].
      intros y Hy. unfold no_progress. fold (ahead y) (ahead x).
      destruct (ahead y =? ahead x) eqn:E; [reflexivity|].
      apply Nat.eqb_neq in E. apply IH; lia.
Qed.

(** [r*] does not depend on the fuel it is given, provided it covers the
    text ahead. *)
Lemma star_fuel (g : bool) (r : regex) (n : nat) (k : cont) (x : mstate) :
  ahead x <= n ->
  rmatch ic (Star g r) k x = repeat_matcher (rmatch ic r) g n k x.
Proof.
  intros H. cbn [rmatch]. apply repeat_matcher_fuel; unfold ahead in *; lia.
Qed.

End Ahead.

(** ** Captures that every match sets *)

Section Captures.

Variable ic : bool.

Lemma keeps_here (k : cont) (x z : mstate) (extra : nat -> bool) :
  k x = Some z ->
  exists y, k y = Some z /\ ahead y <= ahead x /\
            forall n, has_cap n x \/ false = true -> has_cap n y.
Proof.
  intros H. exists x. split; [exact H|]. split; [lia|].
  intros n [Hn|Hn]; [exact Hn|discriminate].
Qed.

Lemma char_matcher_keeps (p : char -> bool) : keeps (char_matcher p) (fun _ => false).
Proof.
  intros k x z H. unfold char_matcher in H.
  destruct (after x) as [|c rest] eqn:E; [discriminate|].
  destruct (p c); [|discriminate].
  eexists. split; [exact H|]. split.
  - unfold ahead, advance. cbn [after]. rewrite E. cbn [length]. lia.
  - intros n [Hn|Hn]; [exact Hn|discriminate].
Qed.

Lemma repeat_matcher_keeps (m : matcher) (g : bool) (extra : nat -> bool) :
  keeps m extra ->
  forall n, keeps (repeat_matcher m g n) (fun _ => false).
Proof.
  intros Hm. induction n as [|n IH]; intros k x z H.
  - apply keeps_here with (extra := extra), H.
  - cbn [repeat_matcher] in H.
    assert (Iter : m (fun y => if no_progress x y then None
                               else repeat_matcher m g n k y) x = Some z ->
                   exists y, k y = Some z /\ ahead y <= ahead x /\
                     forall i, has_cap i x \/ false = true -> has_cap i y).
    { intros Hi. apply Hm in Hi. destruct Hi as [y1 [Hy1 [Ha1 Hc1]]].
      destruct (no_progress x y1); [discriminate|].
      apply IH in Hy1. destruct Hy1 as [y [Hy [Ha Hc]]].
      exists y. split; [exact Hy|]. split; [lia|].
      intros i [Hi|Hi]; [|discriminate].
      apply Hc. left. apply Hc1. left. exact Hi. }
    destruct g.
    + destruct (m _ x) as [z'|] eqn:E;
        [apply Iter; congruence|apply keeps_here with (extra := extra), H].
    + destruct (k x) as [z'|] eqn:E;
        [apply keeps_here with (extra := extra); congruence|apply Iter, H].
Qed.

Lemma rmatch_keeps (r : regex) : keeps (rmatch ic r) (fun n => sets n r).
Proof.
  induction r as [| c | | l | | | | r1 IH1 r2 IH2 | r1 IH1 r2 IH2 | g r IH | r IH | m r IH];
    cbn [rmatch]; try apply char_matcher_keeps.
  - intros k x z H. apply keeps_here with (extra := fun _ => false), H.
  - intros k x z H. destruct (is_nil (before x)); [|discriminate].
    apply keeps_here with (extra := fun _ => false), H.
  - intros k x z H. destruct (is_nil (after x)); [|discriminate].
    apply keeps_here with (extra := fun _ => false), H.
  - intros k x z H. destruct (at_word_boundary x); [|discriminate].
    apply keeps_here with (extra := fun _ => false), H.
  - intros k x z H. apply IH1 in H. destruct H as [y1 [H1 [A1 C1]]].
    apply IH2 in H1. destruct H1 as [y [H2 [A2 C2]]].
    exists y. split; [exact H2|]. split; [lia|]. intros n Hn. cbn [sets] in Hn.
    apply C2. destruct (sets n r2); [right; reflexivity|left].
    apply C1. rewrite orb_false_r in Hn. exact Hn.
  - intros k x z H. cbn [sets].
    destruct (rmatch ic r1 k x) as [z'|] eqn:E.
    + inversion H; subst z'. apply IH1 in E. destruct E as [y [Hy [A C]]].
      exists y. split; [exact Hy|]. split; [exact A|].
      intros n [Hn|Hn]; apply C; [left; exact Hn|].
      apply andb_prop in Hn. right. apply Hn.
    + apply IH2 in H. destruct H as [y [Hy [A C]]].
      exists y. split; [exact Hy|]. split; [exact A|].
      intros n [Hn|Hn]; apply C; [left; exact Hn|].
      apply andb_prop in Hn. right. apply Hn.
  - intros k x z H. exact (repeat_matcher_keeps g IH _ _ _ H).
  - intros k x z H.
    destruct (rmatch ic r _ x) as [z'|] eqn:E.
    + inversion H; subst z'. apply IH in E. destruct E as [y [Hy [A C]]].
      destruct (no_progress x y); [discriminate|].
      exists y. split; [exact Hy|]. split; [exact A|].
      intros n [Hn|Hn]; [|discriminate].
      apply C. left. exact Hn.
    + apply keeps_here with (extra := fun _ => false), H.
  - intros k x z H. apply IH in H. destruct H as [y [Hy [A C]]].
    exists (set_cap m (consumed x y) y). split; [exact Hy|]. split; [exact A|].
    intros n Hn. unfold has_cap, set_cap. cbn [caps lookup sets] in *.
    destruct (m =? n) eqn:E; [discriminate|].
    apply C. rewrite orb_false_l in Hn. exact Hn.
Qed.

End Captures.

(** A successful search ends in a state reached by matching the pattern
    somewhere. *)
Lemma exec_from_final (re : RegExp) (aft : str) :
  forall bef r, exec_from re bef aft = Some r ->
    exists bef' aft',
      rmatch (ignoreCase re) (Group 0 (pattern re)) Some (MState bef' aft' []) = Some (final r).
Proof.
  induction aft as [|c aft IH]; intros bef r H; rewrite exec_from_eq in H.
  - destruct (rmatch _ _ _ _) as [y|] eqn:E; [|discriminate].
    inversion H; subst r. exists bef, []. exact E.
  - destruct (rmatch _ _ _ _) as [y|] eqn:E.
    + inversion H; subst r. exists bef, (c :: aft). exact E.
    + destruct (exec_from re (c :: bef) aft) as [r'|] eqn:E'; [|discriminate].
      inversion H; subst r. cbn [final]. eapply IH. exact E'.
Qed.

(** A group that every match of the pattern sets is defined on the match
    object. *)
Lemma capture_defined (re : RegExp) (n : nat) (bef aft : str) (r : match_result) :
  sets n (Group 0 (pattern re)) = true ->
  exec_from re bef aft = Some r ->
  exists v, capture n r = Some v.
Proof.
  intros Hs H. apply exec_from_final in H. destruct H as [bef' [aft' H]].
  apply rmatch_keeps in H. destruct H as [y [Hy [_ C]]].
  inversion Hy; subst y. specialize (C n (or_intror Hs)).
  unfold has_cap in C. unfold capture.
  destruct (lookup n (caps (final r))) as [v|]; [exists v; reflexivity|congruence].
Qed.

(** ** The loops of [replace] and [split] have fuel enough *)

Lemma match_shrinks (ic : bool) (r : regex) (x z : mstate) :
  rmatch ic (Group 0 r) Some x = Some z ->
  ahead z <= ahead x /\ cap0 z = Some (firstn (ahead x - ahead z) (after x)).
Proof.
  intros H. cbn [rmatch] in H. apply rmatch_keeps in H.
  destruct H as [y [Hy [A _]]]. inversion Hy; subst z. split; [exact A|reflexivity].
Qed.

Lemma exec_from_shrinks (re : RegExp) (aft : str) :
  forall bef r, exec_from re bef aft = Some r ->
    ahead (final r) <= length aft
    /\ (is_nil (matched r) = false -> ahead (final r) < length aft).
Proof.
  induction aft as [|c aft IH]; intros bef r H; rewrite exec_from_eq in H.
  - destruct (rmatch _ _ _ _) as [y|] eqn:E; [|discriminate].
    inversion H; subst r. apply match_shrinks in E. destruct E as [A C].
    unfold ahead in *. cbn [after final length] in *. split; [exact A|].
    unfold matched, capture. cbn [final]. unfold cap0 in C. rewrite C.
    replace (0 - length (after y)) with 0 by lia. discriminate.
  - destruct (rmatch _ _ _ _) as [y|] eqn:E.
    + inversion H; subst r. apply match_shrinks in E. destruct E as [A C].
      unfold ahead in *. cbn [after final] in *. split; [exact A|].
      unfold matched, capture. cbn [final]. unfold cap0 in C. rewrite C.
      destruct (length (c :: aft) - length (after y)) eqn:D; [discriminate|].
      intros _. lia.
    + destruct (exec_from re (c :: bef) aft) as [r'|] eqn:E'; [|discriminate].
      inversion H; subst r. destruct (IH _ _ E') as [A B].
      cbn [final length]. split; [lia|].
      unfold matched, capture in *. cbn [final]. intros Hm. specialize (B Hm). lia.
Qed.

(** Any fuel above the length of the text ahead gives [replace] the same
    result. *)
Lemma replace_loop_fuel (re : RegExp) (repl : str) :
  forall n m bef aft,
    length aft < n -> length aft < m ->
    replace_loop re repl n bef aft = replace_loop re repl m bef aft.
Proof.
  induction n as [|n IH]; intros m bef aft Hn Hm; [lia|].
  destruct m as [|m]; [lia|].
  cbn [replace_loop].
  destruct (exec_from re bef aft) as [r|] eqn:E; [|reflexivity].
  destruct (exec_from_shrinks re aft bef E) as [A B].
  destruct (global re); [|reflexivity].
  destruct (is_nil (matched r)) eqn:Em.
  - unfold ahead in A. destruct (after (final r)) as [|c rest]; [reflexivity|].
    cbn [length] in A. do 3 f_equal. apply IH; lia.
  - specialize (B eq_refl). unfold ahead in B. do 2 f_equal. apply IH; lia.
Qed.

(** Likewise for [split], whose loop makes two rounds per code unit at
    most. *)
Lemma split_loop_fuel (re : RegExp) :
  forall n m bef cur aft,
    2 * length aft + (if is_nil cur then 0 else 1) < n ->
    2 * length aft + (if is_nil cur then 0 else 1) < m ->
    split_loop re n bef cur aft = split_loop re m bef cur aft.
Proof.
  induction n as [|n IH]; intros m bef cur aft Hn Hm; [lia|].
  destruct m as [|m]; [lia|].
  cbn [split_loop]. destruct aft as [|c aft]; [reflexivity|].
  cbn [length] in Hn, Hm.
  destruct (rmatch (ignoreCase re) (pattern re) Some (MState bef (c :: aft) []))
    as [y|] eqn:E.
  - apply rmatch_keeps in E. destruct E as [y' [Hy [A _]]]. inversion Hy; subst y'.
    unfold ahead in A. cbn [after length] in A.
    unfold no_progress. cbn [after length].
    destruct (length (after y) =? S (length aft)) eqn:Ep; cbn [andb].
    + destruct cur as [|d cur]; cbn [is_nil] in *.
      * apply IH; cbn [is_nil]; lia.
      * f_equal. apply Nat.eqb_eq in Ep. apply IH; cbn [is_nil]; lia.
    + f_equal. apply Nat.eqb_neq in Ep. apply IH; cbn [is_nil]; lia.
  - apply IH; cbn [is_nil]; destruct cur; cbn [is_nil] in *; lia.
Qed.

(** ** Groups do not change what matches *)

Section Erase.

Variable ic : bool.

Lemma succeeds_orelse (a b : option mstate) :
  succeeds (match a with Some z => Some z | None => b end) = succeeds a || succeeds b.
Proof. destruct a; reflexivity. Qed.

Lemma no_progress_same (x x' y y' : mstate) :
  same_place x x' -> same_place y y' -> no_progress x y = no_progress x' y'.
Proof. intros [_ E1] [_ E2]. unfold no_progress. rewrite E1, E2. reflexivity. Qed.

Lemma char_matcher_alike (p : char -> bool) (k k' : cont) (x x' : mstate) :
  same_place x x' -> alike k k' ->
  succeeds (char_matcher p k x) = succeeds (char_matcher p k' x').
Proof.
  intros [E1 E2] H. unfold char_matcher. rewrite <- E2.
  destruct (after x) as [|c rest]; [reflexivity|].
  destruct (p c); [|reflexivity]. apply H. split; cbn; congruence.
Qed.

Lemma repeat_matcher_alike (m m' : matcher) (g : bool) :
  (forall k k' x x', same_place x x' -> alike k k' ->
                     succeeds (m k x) = succeeds (m' k' x')) ->
  forall n k k' x x', same_place x x' -> alike k k' ->
    succeeds (repeat_matcher m g n k x) = succeeds (repeat_matcher m' g n k' x').
Proof.
  intros Hm. induction n as [|n IH]; intros k k' x x' Hx Hk.
  - apply Hk, Hx.
  - cbn [repeat_matcher].
    assert (E : succeeds (m (fun y => if no_progress x y then None
                                      else repeat_matcher m g n k y) x)
              = succeeds (m' (fun y => if no_progress x' y then None
                                       else repeat_matcher m' g n k' y) x')).
    { apply Hm; [exact Hx|]. intros y y' Hy.
      rewrite (no_progress_same Hx Hy).
      destruct (no_progress x' y'); [reflexivity|]. apply IH; assumption. }
    destruct g; rewrite !succeeds_orelse, E, (Hk x x' Hx); reflexivity.
Qed.

Lemma rmatch_erase (r : regex) :
  forall k k' x x', same_place x x' -> alike k k' ->
    succeeds (rmatch ic r k x) = succeeds (rmatch ic (erase r) k' x').
Proof.
  induction r as [| c | | l | | | | r1 IH1 r2 IH2 | r1 IH1 r2 IH2 | g r IH | r IH | m r IH];
    intros k k' x x' Hx Hk; cbn [rmatch erase];
    try (apply char_matcher_alike; assumption).
  - apply Hk, Hx.
  - destruct Hx as [E1 E2]. rewrite <- E1.
    destruct (is_nil (before x)); [apply Hk; split; assumption|reflexivity].
  - destruct Hx as [E1 E2]. rewrite <- E2.
    destruct (is_nil (after x)); [apply Hk; split; assumption|reflexivity].
  - destruct Hx as [E1 E2]. unfold at_word_boundary. rewrite <- E1, <- E2.
    destruct (xorb _ _); [apply Hk; split; assumption|reflexivity].
  - apply IH1; [exact Hx|]. intros y y' Hy. apply IH2; assumption.
  - rewrite !succeeds_orelse, (IH1 k k' x x'), (IH2 k k' x x') by assumption.
    reflexivity.
  - destruct Hx as [E1 E2]. rewrite <- E2.
    apply repeat_matcher_alike; [exact IH|split; assumption|exact Hk].
  - rewrite !succeeds_orelse, (Hk x x' Hx). f_equal.
    apply IH; [exact Hx|]. intros y y' Hy. rewrite (no_progress_same Hx Hy).
    destruct (no_progress x' y'); [reflexivity|apply Hk, Hy].
  - apply IH; [exact Hx|]. intros y y' [E1 E2]. apply Hk. split; assumption.
Qed.

End Erase.

(** Two patterns that differ in their groups only match the same texts. *)
Lemma test_erase (re re' : RegExp) (s : str) :
  ignoreCase re = ignoreCase re' ->
  erase (pattern re) = erase (pattern re') ->
  test re s = test re' s.
Proof.
  intros Ei Ep. unfold test. generalize (@nil char) as bef.
  induction s as [|c s IH]; intros bef.
  - cbn [exec_from].
    assert (E : succeeds (rmatch (ignoreCase re) (Group 0 (pattern re)) Some (MState bef [] []))
              = succeeds (rmatch (ignoreCase re') (Group 0 (pattern re')) Some (MState bef [] []))).
    { rewrite (rmatch_erase (ignoreCase re) (Group 0 (pattern re)) (k' := Some)
                 (x' := MState bef [] [])); [|split; reflexivity|intros y y' _; reflexivity].
      rewrite (rmatch_erase (ignoreCase re') (Group 0 (pattern re')) (k := Some) (k' := Some)
                 (x := MState bef [] []) (x' := MState bef [] []));
        [|split; reflexivity|intros y y' _; reflexivity].
      cbn [erase]. rewrite Ei, Ep. reflexivity. }
    destruct (rmatch (ignoreCase re) _ _ _), (rmatch (ignoreCase re') _ _ _);
      cbn in E; congruence.
  - cbn [exec_from].
    assert (E : succeeds (rmatch (ignoreCase re) (Group 0 (pattern re)) Some (MState bef (c :: s) []))
              = succeeds (rmatch (ignoreCase re') (Group 0 (pattern re')) Some (MState bef (c :: s) []))).
    { rewrite (rmatch_erase (ignoreCase re) (Group 0 (pattern re)) (k' := Some)
                 (x' := MState bef (c :: s) [])); [|split; reflexivity|intros y y' _; reflexivity].
      rewrite (rmatch_erase (ignoreCase re') (Group 0 (pattern re')) (k := Some) (k' := Some)
                 (x := MState bef (c :: s) []) (x' := MState bef (c :: s) []));
        [|split; reflexivity|intros y y' _; reflexivity].
      cbn [erase]. rewrite Ei, Ep. reflexivity. }
    destruct (rmatch (ignoreCase re) _ _ _), (rmatch (ignoreCase re') _ _ _);
      cbn in E; try congruence.
    specialize (IH (c :: bef)).
    destruct (exec_from re (c :: bef) s), (exec_from re' (c :: bef) s); congruence.
Qed.

(** ** The dispatcher loop *)

Lemma first_rule_none (rules : list rule) (s : str) :
  first_rule rules s = None <-> forall r, In r rules -> rule_test r s = false.
Proof.
  induction rules as [|r rules IH]; cbn [first_rule].
  - split; [intros _ r []|reflexivity].
  - destruct (rule_test r s) eqn:E.
    + split; [discriminate|]. intros H. rewrite (H r) in E; [discriminate|left; reflexivity].
    + rewrite IH. split.
      * intros H r' [<-|Hr']; [exact E|apply H, Hr'].
      * intros H r' Hr'. apply H. right. exact Hr'.
Qed.

Lemma first_rule_some (rules : list rule) (s : str) (r : rule) :
  first_rule rules s = Some r -> In r rules /\ rule_test r s = true.
Proof.
  induction rules as [|r' rules IH]; cbn [first_rule]; [discriminate|].
  destruct (rule_test r' s) eqn:E.
  - intros H. inversion H; subst r'. split; [left; reflexivity|exact E].
  - intros H. apply IH in H. destruct H as [H1 H2]. split; [right; exact H1|exact H2].
Qed.

(** ** [trim] *)

Lemma trimStart_split (s : str) :
  exists pre, s = pre ++ trimStart s /\ forallb is_space pre = true.
Proof.
  induction s as [|c s [pre [E H]]].
  - exists []. split; reflexivity.
  - cbn [trimStart]. destruct (is_space c) eqn:Ec.
    + exists (c :: pre). cbn [app forallb]. rewrite Ec, H. split; [f_equal; exact E|reflexivity].
    + exists []. split; reflexivity.
Qed.

Lemma trimStart_head (s : str) : head_is is_space (trimStart s) = false.
Proof.
  induction s as [|c s IH]; [reflexivity|].
  cbn [trimStart]. destruct (is_space c) eqn:Ec; [exact IH|].
  cbn [head_is]. exact Ec.
Qed.

Lemma trimStart_fixed (s : str) : head_is is_space s = false -> trimStart s = s.
Proof. destruct s as [|c s]; [reflexivity|]. cbn. intros ->. reflexivity. Qed.

Lemma trimStart_idem (s : str) : trimStart (trimStart s) = trimStart s.
Proof. apply trimStart_fixed, trimStart_head. Qed.

Lemma trimEnd_head (s : str) : head_is is_space s = false -> head_is is_space (trimEnd s) = false.
Proof.
  intros H. unfold trimEnd.
  destruct (trimStart_split (rev s)) as [pre [E _]].
  assert (E' : s = rev (trimStart (rev s)) ++ rev pre).
  { rewrite <- rev_app_distr, <- E, rev_involutive. reflexivity. }
  destruct (rev (trimStart (rev s))) as [|c t]; [reflexivity|].
  rewrite E' in H. exact H.
Qed.

Lemma trim_idem (s : str) : trim (trim s) = trim s.
Proof.
  unfold trim. rewrite (trimStart_fixed (trimEnd (trimStart s))).
  - unfold trimEnd. rewrite rev_involutive, trimStart_idem. reflexivity.
  - apply trimEnd_head, trimStart_head.
Qed.

(** ** The extractors never throw *)

Lemma knowledge_create_total (s : str) :
  exists title content, KnowledgeCreate.extract s = Ok (KnowledgeCreate title content).
Proof.
  unfold KnowledgeCreate.extract, str_match.
  destruct (exec_from KnowledgeCreate.colon [] s) as [m|] eqn:E.
  - destruct (capture_defined KnowledgeCreate.colon 1 [] s eq_refl E) as [v1 E1].
    destruct (capture_defined KnowledgeCreate.colon 2 [] s eq_refl E) as [v2 E2].
    rewrite E1, E2. cbn [trim_of bind]. eauto.
  - destruct (exec_from KnowledgeCreate.simple [] s) as [m|] eqn:E'.
    + destruct (capture_defined KnowledgeCreate.simple 1 [] s eq_refl E') as [v1 E1].
      rewrite E1. cbn [trim_of bind]. eauto.
    + eauto.
Qed.

Lemma extract_total (r : rule) (s : str) :
  In r INTENT_RULES -> exists d, rule_extract r s = Ok d.
Proof.
  unfold INTENT_RULES.
  intros [<-|[<-|[<-|[<-|[<-|[<-|[<-|[<-|[<-|[<-|[]]]]]]]]]]];
    try (eexists; reflexivity).
  destruct (knowledge_create_total s) as [t [c E]]. exists (KnowledgeCreate t c). exact E.
Qed.

Lemma detectIntent_total (input : str) : exists res, detectIntent input = Ok res.
Proof.
  unfold detectIntent.
  destruct (first_rule INTENT_RULES (trim input)) as [r|] eqn:E.
  - apply first_rule_some in E. destruct E as [Hin _].
    destruct (extract_total (trim input) Hin) as [d ->]. cbn [bind]. eauto.
  - destruct (_ || _); eauto.
Qed.

(** What a result says about the rule that produced it. *)
Lemma detectIntent_inv (input : str) (i : intent) (d : data) :
  detectIntent input = Ok (Some (i, d)) ->
  (exists r, In r INTENT_RULES /\ rule_test r (trim input) = true /\
             first_rule INTENT_RULES (trim input) = Some r /\
             rule_intent r = i /\ rule_extract r (trim input) = Ok d)
  \/ (first_rule INTENT_RULES (trim input) = None /\ i = knowledge_search /\
      d = Search (trim (replace (trim input) KnowledgeSearch.qmarks []))).
Proof.
  unfold detectIntent.
  destruct (first_rule INTENT_RULES (trim input)) as [r|] eqn:E.
  - intros H. left. exists r. destruct (first_rule_some _ _ E) as [Hin Ht].
    destruct (rule_extract r (trim input)) as [d'|e]; [|discriminate].
    cbn [bind] in H. inversion H; subst. auto.
  - intros H. right. destruct (_ || _); inversion H; subst. auto.
Qed.

(** ** Fields that are always filled *)

Lemma test_some (re : RegExp) (s : str) :
  test re s = true -> exists r, exec_from re [] s = Some r.
Proof. unfold test. destruct (exec_from re [] s) as [r|]; [eauto|discriminate]. Qed.

Lemma approve_id_defined (s : str) :
  rule_test Decide.approve s = true ->
  Decide.id_of (str_match s Decide.approve_id) <> None.
Proof.
  cbn [rule_test Decide.approve]. intros H. apply andb_prop in H. destruct H as [H _].
  rewrite (test_erase Decide.approve_test Decide.approve_id s eq_refl eq_refl) in H.
  apply test_some in H. destruct H as [r E].
  destruct (capture_defined Decide.approve_id 1 [] s eq_refl E) as [v Hv].
  unfold str_match, Decide.id_of. rewrite E, Hv. discriminate.
Qed.

Lemma deny_id_defined (s : str) :
  rule_test Decide.deny s = true ->
  Decide.id_of (str_match s Decide.deny_id) <> None.
Proof.
  cbn [rule_test Decide.deny]. intros H.
  rewrite (test_erase Decide.deny_test Decide.deny_id s eq_refl eq_refl) in H.
  apply test_some in H. destruct H as [r E].
  destruct (capture_defined Decide.deny_id 1 [] s eq_refl E) as [v Hv].
  unfold str_match, Decide.id_of. rewrite E, Hv. discriminate.
Qed.

Lemma priority_of_known (s : str) : In (RequestCreate.priority_of s) priorities.
Proof.
  unfold RequestCreate.priority_of, priorities.
  destruct (test RequestCreate.urgent s); [left; reflexivity|].
  destruct (test RequestCreate.high s); [right; left; reflexivity|].
  destruct (test RequestCreate.low s); [right; right; right; left; reflexivity|].
  right; right; left; reflexivity.
Qed.

Lemma request_create_filled (input : str) (d : data) :
  rule_test RequestCreate.create (trim input) = true ->
  RequestCreate.extract (trim input) = Ok d -> filled d.
Proof.
  intros Ht H. unfold RequestCreate.extract in H. inversion H; subst d; clear H.
  cbn [filled]. split; [|apply priority_of_known].
  match goal with |- (if ?c then _ else ?t) <> [] => destruct c eqn:Ec; [|destruct t eqn:Et] end.
  - rewrite trim_idem. intros E. rewrite E in Ht. vm_compute in Ht. discriminate.
  - cbn in Ec. discriminate.
  - discriminate.
Qed.

Lemma detected_filled (input : str) (i : intent) (d : data) :
  detectIntent input = Ok (Some (i, d)) -> filled d.
Proof.
  intros H. apply detectIntent_inv in H.
  destruct H as [[r [Hin [Ht [_ [_ He]]]]]|[_ [_ ->]]]; [|exact I].
  unfold INTENT_RULES in Hin.
  destruct Hin as [<-|[<-|[<-|[<-|[<-|[<-|[<-|[<-|[<-|[<-|[]]]]]]]]]]];
    try (cbn in He; inversion He; subst d; exact I).
  - cbn [rule_extract Decide.approve] in He. inversion He; subst d.
    cbn [filled]. apply approve_id_defined, Ht.
  - cbn [rule_extract Decide.deny] in He. inversion He; subst d.
    cbn [filled]. apply deny_id_defined, Ht.
  - cbn [rule_extract ApprovalRequest.request] in He.
    unfold ApprovalRequest.extract in He. inversion He; subst d. cbn [filled].
    match goal with |- (if truthy ?t then _ else _) <> [] => destruct t; discriminate end.
  - cbn [rule_extract KnowledgeCreate.create] in He.
    destruct (knowledge_create_total (trim input)) as [t [c E]].
    rewrite E in He. inversion He; subst d. exact I.
  - apply request_create_filled with (input := input); assumption.
Qed.

(** ** Trailing question marks *)

Lemma take_drop_while (p : char -> bool) (s : str) :
  s = take_while p s ++ drop_while p s.
Proof.
  induction s as [|c s IH]; [reflexivity|].
  cbn [take_while drop_while]. destruct (p c); [|reflexivity].
  cbn [app]. f_equal. exact IH.
Qed.

Lemma take_while_all (p : char -> bool) (s : str) : forallb p (take_while p s) = true.
Proof.
  induction s as [|c s IH]; [reflexivity|].
  cbn [take_while]. destruct (p c) eqn:E; [|reflexivity].
  cbn [forallb]. rewrite E, IH. reflexivity.
Qed.

Lemma drop_while_head (p : char -> bool) (s : str) : head_is p (drop_while p s) = false.
Proof.
  induction s as [|c s IH]; [reflexivity|].
  cbn [drop_while]. destruct (p c) eqn:E; [exact IH|]. cbn [head_is]. exact E.
Qed.

Lemma drop_while_nil (p : char -> bool) (s : str) :
  is_nil (drop_while p s) = forallb p s.
Proof.
  induction s as [|c s IH]; [reflexivity|].
  cbn [drop_while forallb]. destruct (p c); [exact IH|reflexivity].
Qed.

Lemma consumed_all (bef bef' s : str) (cs cs' : list (nat * str)) :
  consumed (MState bef s cs) (MState bef' [] cs') = s.
Proof.
  rewrite <- (app_nil_r s) at 1. rewrite consumed_app. reflexivity.
Qed.

(** [\?+$] matches at a place exactly when only question marks, and at least
    one, are ahead. *)
Lemma qmarks_here (bef aft : str) :
  rmatch false (Group 0 (pattern KnowledgeSearch.qmarks)) Some (MState bef aft [])
  = if negb (is_nil aft) && forallb is_qmark aft
    then Some (MState (rev aft ++ bef) [] [(0, aft)])
    else None.
Proof.
  destruct aft as [|c aft]; [reflexivity|].
  unfold KnowledgeSearch.qmarks, c_, Plus. cbn [pattern rmatch is_nil negb andb forallb].
  unfold char_matcher at 1. cbn [after]. fold (is_qmark c).
  destruct (is_qmark c); [|reflexivity]. cbn [andb].
  unfold advance. cbn [before caps length].
  cbn [after].
  destruct (forallb is_qmark aft) eqn:E.
  - replace (MState (c :: bef) aft []) with (MState (c :: bef) (aft ++ []) [])
      by (rewrite app_nil_r; reflexivity).
    apply repeat_greedy_max; [exact E|reflexivity|lia|].
    cbn [after is_nil set_cap before caps rev]. rewrite consumed_all, <- app_assoc.
    reflexivity.
  - rewrite (take_drop_while is_qmark aft) at 2.
    apply repeat_greedy_fail; [apply take_while_all|apply drop_while_head|].
    intros a b _. cbn [after].
    rewrite <- drop_while_nil in E.
    destruct (drop_while is_qmark aft); [discriminate|].
    destruct b; reflexivity.
Qed.

Lemma exec_qmarks (aft : str) :
  forall bef,
    match exec_from KnowledgeSearch.qmarks bef aft with
    | Some r => skipped r ++ after (final r) = strip_qmarks aft
    | None => strip_qmarks aft = aft
    end.
Proof.
  induction aft as [|c aft IH]; intros bef; rewrite exec_from_eq.
  - change (ignoreCase KnowledgeSearch.qmarks) with false. rewrite qmarks_here. reflexivity.
  - change (ignoreCase KnowledgeSearch.qmarks) with false. rewrite qmarks_here.
    cbn [is_nil negb andb strip_qmarks].
    destruct (forallb is_qmark (c :: aft)); [reflexivity|].
    specialize (IH (c :: bef)).
    destruct (exec_from KnowledgeSearch.qmarks (c :: bef) aft) as [r|].
    + cbn [skipped final app]. f_equal. exact IH.
    + f_equal. exact IH.
Qed.

(** [s.replace(/\?+$/, '')] removes the question marks at the end. *)
Lemma replace_qmarks (s : str) : replace s KnowledgeSearch.qmarks [] = strip_qmarks s.
Proof.
  unfold replace. cbn [replace_loop].
  pose proof (exec_qmarks s []) as H.
  destruct (exec_from KnowledgeSearch.qmarks [] s) as [r|].
  - cbn [global KnowledgeSearch.qmarks app]. exact H.
  - symmetry. exact H.
Qed.

(** ** Amounts of money *)

Lemma digit_class (c : char) : class_matches [ADigit] c = is_digit c.
Proof. cbn. apply orb_false_r. Qed.

(** [(\.\d{2})?] before a continuation that cannot fail. *)
Lemma cents_here (f : mstate -> mstate) (bef l2 : str) (cs : list (nat * str)) :
  rmatch false (Opt (Group 1 (seqs [c_ "."; Cls [ADigit]; Cls [ADigit]])))
         (fun y => Some (f y)) (MState bef l2 cs)
  = Some (f (match cents l2 with
             | [] => MState bef l2 cs
             | m => MState (rev m ++ bef) (skipn (length m) l2) ((1, m) :: cs)
             end)).
Proof.
  unfold c_. cbn [seqs rmatch]. unfold char_matcher, advance, cents.
  cbn [after before caps].
  destruct l2 as [|d [|a [|b l2]]]; try reflexivity;
    try (destruct (char_eq false (ch ".") d); reflexivity).
  - destruct (char_eq false (ch ".") d); [|reflexivity]. cbn [andb].
    rewrite digit_class. destruct (is_digit a); reflexivity.
  - destruct (char_eq false (ch ".") d); [|reflexivity]. cbn [andb].
    rewrite !digit_class. destruct (is_digit a); [|reflexivity].
    destruct (is_digit b); [|reflexivity]. cbn [andb].
    unfold no_progress, set_cap. cbn [after before caps length rev app skipn].
    replace (length l2 =? S (S (S (length l2)))) with false
      by (symmetry; apply Nat.eqb_neq; lia).
    change (d :: a :: b :: l2) with ([d; a; b] ++ l2). rewrite consumed_app.
    reflexivity.
Qed.

Lemma cents_prefix (l2 : str) : l2 = cents l2 ++ skipn (length (cents l2)) l2.
Proof.
  unfold cents. destruct l2 as [|d [|a [|b l2]]]; try reflexivity.
  destruct (_ && _); reflexivity.
Qed.

(** The pattern [\$[\d,]+(\.\d{2})?] on a text that starts with an amount. *)
Lemma money_run (bef : str) (c : char) (l1 l2 : str) :
  is_dollar c = true -> l1 <> [] ->
  forallb money_char l1 = true -> head_is money_char l2 = false ->
  option_map cap0
    (rmatch false (Group 0 (pattern ApprovalRequest.money)) Some
            (MState bef (c :: l1 ++ l2) []))
  = Some (Some (c :: l1 ++ cents l2)).
Proof.
  intros Hc Hne Hall Hstop.
  unfold ApprovalRequest.money, c_. cbn [pattern seqs].
  cbn [rmatch]. unfold char_matcher at 1. cbn [after].
  fold (is_dollar c). rewrite Hc. unfold advance. cbn [before caps].
  erewrite plus_run with (p := money_char);
    [|reflexivity|exact Hne|exact Hall|exact Hstop|].
  2:{ apply (cents_here (fun y => set_cap 0 (consumed (MState bef (c :: l1 ++ l2) []) y) y)). }
  cbn [option_map]. unfold cap0, set_cap. cbn [caps lookup Nat.eqb]. do 2 f_equal.
  rewrite (cents_prefix l2) at 1.
  destruct (cents l2) eqn:E.
  - cbn [app skipn length]. rewrite app_nil_r.
    change (c :: l1 ++ l2) with ((c :: l1) ++ l2). apply consumed_app.
  - rewrite <- E.
    replace (c :: l1 ++ cents l2 ++ skipn (length (cents l2)) l2)
      with ((c :: l1 ++ cents l2) ++ skipn (length (cents l2)) l2)
      by (cbn [app]; rewrite <- app_assoc; reflexivity).
    apply consumed_app.
Qed.

Lemma money_here (bef aft : str) :
  option_map cap0
    (rmatch false (Group 0 (pattern ApprovalRequest.money)) Some (MState bef aft []))
  = option_map Some (money_at aft).
Proof.
  destruct aft as [|c s']; [reflexivity|].
  cbn [money_at]. destruct (is_dollar c) eqn:Hc; cbn [andb].
  - destruct (head_is money_char s') eqn:Hh.
    + pose proof (@money_run bef c (take_while money_char s') (drop_while money_char s')
                    Hc) as H.
      rewrite <- take_drop_while in H. apply H.
      * destruct s' as [|d s']; [discriminate|]. cbn [head_is] in Hh.
        cbn [take_while]. rewrite Hh. discriminate.
      * apply take_while_all.
      * apply drop_while_head.
    + unfold ApprovalRequest.money, c_. cbn [pattern seqs rmatch].
      unfold char_matcher at 1. cbn [after]. fold (is_dollar c). rewrite Hc.
      rewrite plus_none with (p := money_char); [reflexivity|reflexivity|exact Hh].
  - unfold ApprovalRequest.money, c_. cbn [pattern seqs rmatch].
    unfold char_matcher at 1. cbn [after]. fold (is_dollar c). rewrite Hc. reflexivity.
Qed.

(** The search for an amount finds the leftmost one. *)
Lemma exec_money (aft : str) :
  forall bef,
    option_map (fun r => cap0 (final r)) (exec_from ApprovalRequest.money bef aft)
    = option_map Some (find_money aft).
Proof.
  induction aft as [|c aft IH]; intros bef; rewrite exec_from_eq;
    pose proof (money_here bef) as H.
  - specialize (H []). change (ignoreCase ApprovalRequest.money) with false.
    destruct (rmatch false _ Some _) as [y|]; [exact H|reflexivity].
  - specialize (H (c :: aft)). change (ignoreCase ApprovalRequest.money) with false.
    cbn [find_money].
    destruct (rmatch false _ Some _) as [y|].
    + cbn [option_map final] in *. destruct (money_at (c :: aft)); [exact H|discriminate].
    + cbn [option_map] in H. destruct (money_at (c :: aft)); [discriminate|].
      specialize (IH (c :: bef)).
      destruct (exec_from ApprovalRequest.money (c :: bef) aft); exact IH.
Qed.

Lemma match_money (s : str) :
  option_map matched (str_match s ApprovalRequest.money) = find_money s.
Proof.
  pose proof (exec_money s []) as H. unfold str_match, matched, capture.
  destruct (exec_from ApprovalRequest.money [] s) as [r|]; cbn [option_map] in *.
  - unfold cap0 in H. destruct (find_money s); [|discriminate].
    inversion H as [E]. rewrite E. reflexivity.
  - destruct (find_money s); [discriminate|reflexivity].
Qed.

Lemma find_money_dollar (s : str) :
  (find_money s = None) <-> dollar_then money_char s = false.
Proof.
  induction s as [|c s IH]; [split; reflexivity|].
  cbn [find_money money_at dollar_then].
  destruct (is_dollar c && head_is money_char s); cbn [orb].
  - split; discriminate.
  - exact IH.
Qed.

(** ** Removing every character of a class *)

Section RemoveClass.

Variables (ic : bool) (l : list atom).

Let out (c : char) : bool := negb (class_matches l c).

Lemma exec_class (g : bool) (aft : str) :
  forall bef,
    exec_from (Re (Cls l) ic g) bef aft
    = match drop_while out aft with
      | [] => None
      | c :: rest =>
          Some (MatchResult (take_while out aft)
                  (MState (c :: rev (take_while out aft) ++ bef) rest [(0, [c])]))
      end.
Proof.
  induction aft as [|c aft IH]; intros bef; [reflexivity|].
  cbn [exec_from ignoreCase pattern rmatch]. unfold char_matcher at 1.
  cbn [after take_while drop_while].
  assert (Ho : out c = negb (class_matches l c)) by reflexivity. rewrite !Ho.
  destruct (class_matches l c); cbn [negb].
  - unfold advance, set_cap. cbn [before after caps rev app].
    change (c :: aft) with ([c] ++ aft) at 1. rewrite consumed_app. reflexivity.
  - rewrite IH. destruct (drop_while out aft) as [|d rest]; [reflexivity|].
    cbn [skipped final rev]. rewrite <- app_assoc. reflexivity.
Qed.

Lemma filter_take_while (s : str) : filter out (take_while out s) = take_while out s.
Proof.
  induction s as [|c s IH]; [reflexivity|].
  cbn [take_while]. destruct (out c) eqn:E; [|reflexivity].
  cbn [filter]. rewrite E, IH. reflexivity.
Qed.

(** A global replacement of one class by nothing is a filter. *)
Lemma replace_loop_class (n : nat) :
  forall bef aft, length aft < n ->
    replace_loop (Re (Cls l) ic true) [] n bef aft = filter out aft.
Proof.
  induction n as [|n IH]; intros bef aft Hn; [lia|].
  cbn [replace_loop]. rewrite exec_class.
  pose proof (take_drop_while out aft) as Hs.
  pose proof (drop_while_head out aft) as Hh.
  destruct (drop_while out aft) as [|c rest].
  - rewrite app_nil_r in Hs. rewrite Hs, filter_take_while. reflexivity.
  - cbn [skipped final global matched capture caps lookup Nat.eqb is_nil after before app].
    cbn [head_is] in Hh.
    rewrite IH.
    + rewrite Hs at 2. rewrite filter_app, filter_take_while. cbn [filter].
      rewrite Hh. reflexivity.
    + apply (f_equal (@length char)) in Hs. rewrite length_app in Hs. cbn [length] in Hs. lia.
Qed.

Lemma replace_class (s : str) : replace s (Re (Cls l) ic true) [] = filter out s.
Proof. unfold replace. apply replace_loop_class. lia. Qed.

End RemoveClass.

(** ** Rounding *)

Lemma round_half_even_cases (num den : N) :
  den <> 0%N ->
  exists t r, num = (t * den + r)%N /\ (r < den)%N
    /\ ((round_half_even num den = t /\ (2 * r < den)%N)
        \/ (round_half_even num den = (t + 1)%N /\ (den < 2 * r)%N)
        \/ ((2 * r = den)%N /\ N.even (round_half_even num den) = true
            /\ (round_half_even num den = t \/ round_half_even num den = (t + 1)%N))).
Proof.
  intros Hd. exists (num / den)%N, (num mod den)%N.
  split; [rewrite N.mul_comm; apply N.div_mod; exact Hd|].
  split; [apply N.mod_lt; exact Hd|].
  unfold round_half_even.
  destruct (N.compare_spec (2 * (num mod den)) den) as [E|E|E].
  - right. right. split; [exact E|].
    destruct (N.even (num / den)) eqn:Ev.
    + split; [exact Ev|left; reflexivity].
    + split; [|right; reflexivity].
      rewrite N.add_1_r, N.even_succ, <- N.negb_even, Ev. reflexivity.
  - left. split; [reflexivity|exact E].
  - right. left. split; [reflexivity|exact E].
Qed.

Lemma scaled_le (a b d : Z) : (0 <= d -> a <= b -> a * d <= b * d)%Z.
Proof. intros. apply Z.mul_le_mono_nonneg_r; assumption. Qed.

Lemma round_half_even_nearest (num den j : N) :
  den <> 0%N ->
  (Z.abs (Z.of_N num - Z.of_N (round_half_even num den * den))
   <= Z.abs (Z.of_N num - Z.of_N (j * den)))%Z.
Proof.
  intros Hd.
  destruct (round_half_even_cases num Hd) as (t & r & En & Hr & Hc).
  revert Hc. generalize (round_half_even num den). intros q Hc.
  rewrite !N2Z.inj_mul. rewrite En, N2Z.inj_add, N2Z.inj_mul.
  assert (Hj : (Z.of_N j <= Z.of_N t \/ Z.of_N t + 1 <= Z.of_N j)%Z) by lia.
  assert (Hden : (0 <= Z.of_N den)%Z) by lia.
  assert (Hjd : (Z.of_N j * Z.of_N den <= Z.of_N t * Z.of_N den
                 \/ (Z.of_N t + 1) * Z.of_N den <= Z.of_N j * Z.of_N den)%Z).
  { destruct Hj as [Hj|Hj]; [left|right]; apply scaled_le; assumption. }
  destruct Hc as [[-> Hc]|[[-> Hc]|(Hc & _ & [-> | ->])]];
    rewrite ?N2Z.inj_add; change (Z.of_N 1) with 1%Z; lia.
Qed.

Lemma round_half_even_tie (num den j : N) :
  den <> 0%N -> j <> round_half_even num den ->
  Z.abs (Z.of_N num - Z.of_N (j * den))
  = Z.abs (Z.of_N num - Z.of_N (round_half_even num den * den)) ->
  N.even (round_half_even num den) = true.
Proof.
  intros Hd.
  destruct (round_half_even_cases num Hd) as (t & r & En & Hr & Hc).
  revert Hc. generalize (round_half_even num den). intros q Hc Hj.
  destruct Hc as [[E Hc]|[[E Hc]|(Hc & Ev & _)]]; [| |intros _; exact Ev];
    subst q; rewrite !N2Z.inj_mul; rewrite En, N2Z.inj_add, N2Z.inj_mul;
    intros Habs; exfalso.
  - assert (Hjt : (Z.of_N j + 1 <= Z.of_N t \/ Z.of_N t + 1 <= Z.of_N j)%Z) by lia.
    assert (Hjd : ((Z.of_N j + 1) * Z.of_N den <= Z.of_N t * Z.of_N den
                   \/ (Z.of_N t + 1) * Z.of_N den <= Z.of_N j * Z.of_N den)%Z).
    { destruct Hjt as [H|H]; [left|right]; apply scaled_le; lia. }
    lia.
  - rewrite N2Z.inj_add in Habs. change (Z.of_N 1) with 1%Z in Habs.
    assert (Hjt : (Z.of_N j <= Z.of_N t \/ Z.of_N t + 2 <= Z.of_N j)%Z) by lia.
    assert (Hjd : (Z.of_N j * Z.of_N den <= Z.of_N t * Z.of_N den
                   \/ (Z.of_N t + 2) * Z.of_N den <= Z.of_N j * Z.of_N den)%Z).
    { destruct Hjt as [H|H]; [left|right]; apply scaled_le; lia. }
    lia.
Qed.

Lemma round_half_even_exact (a den : N) : den <> 0%N -> round_half_even (a * den) den = a.
Proof.
  intros Hd. unfold round_half_even.
  rewrite N.Div0.mod_mul, N.div_mul by exact Hd.
  destruct (N.compare_spec (2 * 0) den) as [E|E|E]; [lia|reflexivity|lia].
Qed.

(** ** The spacing of the doubles around [num / den] *)

Lemma pow2_pos (s : N) : (0 < 2 ^ s)%N.
Proof. apply N.neq_0_lt_0, N.pow_nonzero. discriminate. Qed.

Lemma spacing_above (num den : N) :
  den <> 0%N -> (num < 2 ^ (53 + spacing num den) * den)%N.
Proof.
  intros Hd. unfold spacing. set (n0 := (num / den)%N).
  assert (H0 : (n0 < 2 ^ (53 + (N.log2 n0 - 52)))%N).
  { destruct (N.eq_dec n0 0) as [E|E]; [rewrite E; apply pow2_pos|].
    destruct (N.log2_spec n0) as [_ H]; [lia|].
    eapply N.lt_le_trans; [exact H|].
    apply N.pow_le_mono_r; [discriminate|lia]. }
  assert (Hn : (num < (n0 + 1) * den)%N).
  { unfold n0. pose proof (N.div_mod num den Hd). pose proof (N.mod_lt num den Hd). nia. }
  eapply N.lt_le_trans; [exact Hn|].
  apply N.mul_le_mono_r. lia.
Qed.

Lemma spacing_below (num den : N) :
  den <> 0%N -> spacing num den <> 0%N -> (2 ^ (52 + spacing num den) * den <= num)%N.
Proof.
  intros Hd. unfold spacing. set (n0 := (num / den)%N). intros Hs.
  assert (H0 : (2 ^ (52 + (N.log2 n0 - 52)) <= n0)%N).
  { assert (E : (52 + (N.log2 n0 - 52) = N.log2 n0)%N) by lia.
    rewrite E. apply N.log2_spec.
    destruct (N.eq_dec n0 0) as [Z|Z]; [|lia].
    rewrite Z in Hs. exfalso. apply Hs. reflexivity. }
  assert (Hn : (n0 * den <= num)%N).
  { unfold n0. rewrite N.mul_comm. apply N.Div0.mul_div_le. }
  eapply N.le_trans; [|exact Hn].
  apply N.mul_le_mono_r. exact H0.
Qed.

(** The rounded quotient has 53 bits at most, and 53 bits where the doubles
    are more than one unit apart. *)
Lemma rounded_bounds (num den : N) :
  den <> 0%N ->
  let s := spacing num den in
  let q := round_half_even num (den * 2 ^ s) in
  (q <= 2 ^ 53)%N /\ (s <> 0%N -> 2 ^ 52 <= q)%N.
Proof.
  intros Hd s q.
  assert (Hg : (den * 2 ^ s <> 0)%N) by (pose proof (pow2_pos s); nia).
  destruct (round_half_even_cases num Hg) as (t & r & En & Hr & Hc).
  fold q in Hc.
  assert (Hq : q = t \/ q = (t + 1)%N) by (destruct Hc as [[E _]|[[E _]|(_ & _ & E)]]; tauto).
  pose proof (spacing_above num Hd) as Ha. fold s in Ha.
  rewrite N.pow_add_r in Ha.
  assert (Ht : (t < 2 ^ 53)%N).
  { apply (N.mul_lt_mono_pos_r (den * 2 ^ s)); [lia|]. nia. }
  split; [lia|].
  intros Hs. pose proof (spacing_below num Hd Hs) as Hb. fold s in Hb.
  rewrite N.pow_add_r in Hb.
  assert (Ht' : (2 ^ 52 < t + 1)%N).
  { apply (N.mul_lt_mono_pos_r (den * 2 ^ s)); [lia|]. nia. }
  lia.
Qed.

(** ** The nearest double, with no bound on the exponent *)

Lemma pow2_split (s s' : N) : (s <= s')%N -> (2 ^ s' = 2 ^ (s' - s) * 2 ^ s)%N.
Proof. intros H. rewrite <- N.pow_add_r. f_equal. lia. Qed.

(** A double of a finer spacing lies below [2 ^ (52 + s)] units. *)
Lemma finer_below (q' s' s : N) :
  (q' < 2 ^ 53)%N -> (s' < s)%N -> (q' * 2 ^ s' < 2 ^ (52 + s))%N.
Proof.
  intros Hq Hs.
  assert (E : (2 ^ (52 + s) = 2 ^ 53 * 2 ^ s' * 2 ^ (s - s' - 1))%N).
  { rewrite <- !N.pow_add_r. f_equal. lia. }
  rewrite E. pose proof (pow2_pos s'). pose proof (pow2_pos (s - s' - 1)). nia.
Qed.

Lemma gap_below (num den a b : N) :
  (a <= b)%N -> (b * den <= num)%N -> (gap num den b <= gap num den a)%Z.
Proof. intros Hab Hb. unfold gap. nia. Qed.

Lemma gap_below_strict (num den a b : N) :
  den <> 0%N -> (a < b)%N -> (b * den <= num)%N -> (gap num den b < gap num den a)%Z.
Proof. intros Hd Hab Hb. unfold gap. nia. Qed.

Lemma rounded_gap (num den j : N) :
  den <> 0%N ->
  (gap num den (rounded num den) <= gap num den (j * 2 ^ spacing num den))%Z.
Proof.
  intros Hd. unfold gap, rounded. set (s := spacing num den).
  assert (Hg : (den * 2 ^ s <> 0)%N) by (pose proof (pow2_pos s); nia).
  pose proof (round_half_even_nearest num j Hg) as H.
  replace (round_half_even num (den * 2 ^ s) * 2 ^ s * den)%N
    with (round_half_even num (den * 2 ^ s) * (den * 2 ^ s))%N by ring.
  replace (j * 2 ^ s * den)%N with (j * (den * 2 ^ s))%N by ring.
  exact H.
Qed.

Lemma rounded_nearest (num den q' s' : N) :
  den <> 0%N -> (q' < 2 ^ 53)%N ->
  (gap num den (rounded num den) <= gap num den (q' * 2 ^ s'))%Z.
Proof.
  intros Hd Hq. set (s := spacing num den).
  destruct (N.le_gt_cases s s') as [Hs|Hs].
  - rewrite (pow2_split Hs), N.mul_assoc. apply rounded_gap. exact Hd.
  - assert (Hs0 : s <> 0%N) by lia.
    pose proof (spacing_below num Hd Hs0) as Hb. fold s in Hb.
    eapply Z.le_trans; [apply (rounded_gap num (2 ^ 52) Hd)|].
    fold s. rewrite <- N.pow_add_r.
    apply gap_below; [|exact Hb].
    apply N.lt_le_incl, finer_below; assumption.
Qed.

Lemma rounded_tie (num den q' s' : N) :
  den <> 0%N -> (q' < 2 ^ 53)%N -> (q' * 2 ^ s')%N <> rounded num den ->
  gap num den (q' * 2 ^ s') = gap num den (rounded num den) ->
  N.even (round_half_even num (den * 2 ^ spacing num den)) = true.
Proof.
  intros Hd Hq Hne Hgap. set (s := spacing num den) in *.
  assert (Hg : (den * 2 ^ s <> 0)%N) by (pose proof (pow2_pos s); nia).
  destruct (N.le_gt_cases s s') as [Hs|Hs].
  - apply (@round_half_even_tie num (den * 2 ^ s) (q' * 2 ^ (s' - s)) Hg).
    + intros E. apply Hne. unfold rounded. fold s. rewrite <- E.
      rewrite (pow2_split Hs). ring.
    + unfold gap, rounded in Hgap. fold s in Hgap.
      rewrite (pow2_split Hs) in Hgap.
      replace (q' * 2 ^ (s' - s) * (den * 2 ^ s))%N
        with (q' * (2 ^ (s' - s) * 2 ^ s) * den)%N by ring.
      replace (round_half_even num (den * 2 ^ s) * (den * 2 ^ s))%N
        with (round_half_even num (den * 2 ^ s) * 2 ^ s * den)%N by ring.
      exact Hgap.
  - exfalso.
    assert (Hs0 : s <> 0%N) by lia.
    pose proof (spacing_below num Hd Hs0) as Hb. fold s in Hb.
    pose proof (rounded_gap num (2 ^ 52) Hd) as H1. fold s in H1.
    rewrite <- N.pow_add_r in H1.
    pose proof (@gap_below_strict num den (q' * 2 ^ s') (2 ^ (52 + s)) Hd
                  (finer_below Hq Hs) Hb) as H2.
    lia.
Qed.

(** The significand of what the rounding gives. *)
Lemma significand_small (q : N) : (q < 2 ^ 53)%N -> significand q = q.
Proof.
  intros Hq. unfold significand.
  assert (E : (N.log2 q - 52 = 0)%N).
  { destruct (N.eq_dec q 0) as [Z|Z]; [rewrite Z; reflexivity|].
    assert (N.log2 q < 53)%N by (apply N.log2_lt_pow2; lia). lia. }
  rewrite E. apply N.div_1_r.
Qed.

Lemma significand_normal (q s : N) :
  (2 ^ 52 <= q)%N -> (q < 2 ^ 53)%N -> significand (q * 2 ^ s) = q.
Proof.
  intros Hlo Hhi. unfold significand.
  assert (Hq : (0 < q)%N) by (pose proof (pow2_pos 52); lia).
  rewrite N.log2_mul_pow2 by lia.
  assert (E : N.log2 q = 52%N).
  { apply N.log2_unique; [lia|]. change (N.succ 52) with 53%N. lia. }
  rewrite E. replace (s + 52 - 52)%N with s by lia.
  apply N.div_mul, N.pow_nonzero. discriminate.
Qed.

(** ** From units to decimals *)

Lemma normalize_pow (k : nat) (a : N) : normalize k (a * 10 ^ N.of_nat k) = Dec a 0.
Proof.
  induction k as [|k IH]; cbn [normalize].
  - change (N.of_nat 0) with 0%N. rewrite N.pow_0_r, N.mul_1_r. reflexivity.
  - rewrite Nat2N.inj_succ, N.pow_succ_r'.
    replace (a * (10 * 10 ^ N.of_nat k))%N with (a * 10 ^ N.of_nat k * 10)%N by ring.
    rewrite N.Div0.mod_mul, N.div_mul by discriminate.
    rewrite N.eqb_refl. exact IH.
Qed.

Lemma normalize_value (k : nat) (n : N) :
  exists m j, normalize k n = Dec m j /\ (m * 10 ^ N.of_nat k = n * 10 ^ N.of_nat j)%N.
Proof.
  revert n. induction k as [|k IH]; intros n; cbn [normalize].
  - exists n, 0%nat. split; reflexivity.
  - destruct (N.eqb_spec (n mod 10) 0) as [E|E].
    + destruct (IH (n / 10)%N) as (m & j & En & Ev).
      exists m, j. split; [exact En|].
      rewrite Nat2N.inj_succ, N.pow_succ_r'.
      pose proof (N.div_mod n 10) as Hn. rewrite E, N.add_0_r in Hn.
      rewrite (Hn ltac:(discriminate)) at 1.
      replace (m * (10 * 10 ^ N.of_nat k))%N with (10 * (m * 10 ^ N.of_nat k))%N by ring.
      rewrite Ev. ring.
    + exists n, (S k). split; reflexivity.
Qed.

Lemma normalize_canonical (k : nat) :
  forall n m j, normalize k n = Dec m j -> j = 0 \/ (m mod 10)%N <> 0%N.
Proof.
  induction k as [|k IH]; intros n m j; cbn [normalize].
  - intros E. injection E as <- <-. left. reflexivity.
  - destruct (N.eqb_spec (n mod 10) 0) as [E|E]; [apply IH|].
    intros H. injection H as <- <-. right. exact E.
Qed.

Lemma units_of_normalize (e : nat) (u : N) :
  exists m j, normalize e (u * 5 ^ N.of_nat e) = Dec m j
              /\ (m * 2 ^ N.of_nat e = u * 10 ^ N.of_nat j)%N
              /\ (j = 0 \/ (m mod 10)%N <> 0%N).
Proof.
  destruct (normalize_value e (u * 5 ^ N.of_nat e)) as (m & j & En & Ev).
  exists m, j. split; [exact En|]. split; [|exact (normalize_canonical _ _ En)].
  change 10%N with (2 * 5)%N in Ev at 1. rewrite N.pow_mul_l in Ev.
  apply (N.mul_cancel_r _ _ (5 ^ N.of_nat e)); [apply N.pow_nonzero; discriminate|].
  rewrite <- N.mul_assoc, Ev. ring.
Qed.

(** ** The candidates and the Number value *)

Lemma candidate_shape (u : N) : candidate u -> exists q s, (q < 2 ^ 53)%N /\ u = (q * 2 ^ s)%N.
Proof.
  intros [(q & s & Hq & _ & E)|E].
  - exists q, s. split; assumption.
  - exists (2 ^ 52)%N, 2046%N. split; [reflexivity|].
    rewrite E, <- N.pow_add_r. reflexivity.
Qed.

Lemma candidate_bound (u : N) : candidate u -> (u <= 2 ^ 2098)%N.
Proof.
  intros [(q & s & Hq & Hs & E)|E]; [|rewrite E; apply N.le_refl].
  rewrite E. change 2098%N with (53 + 2045)%N. rewrite N.pow_add_r.
  assert (H : (2 ^ s <= 2 ^ 2045)%N) by (apply N.pow_le_mono_r; [discriminate|exact Hs]).
  generalize dependent (2 ^ 2045)%N. generalize (2 ^ s)%N. intros a b Hb. nia.
Qed.

Lemma rounded_candidate (num den : N) :
  den <> 0%N -> (rounded num den < 2 ^ 2098)%N -> candidate (rounded num den).
Proof.
  intros Hd Hu. left.
  destruct (@rounded_bounds num den Hd) as [Hhi Hlo].
  unfold rounded in *. cbv zeta in *.
  set (s := spacing num den) in *. set (q := round_half_even num (den * 2 ^ s)) in *.
  destruct (N.eq_dec q (2 ^ 53)) as [E|E].
  - exists (2 ^ 52)%N, (s + 1)%N. split; [reflexivity|]. split.
    + destruct (N.le_gt_cases (s + 1) 2045) as [H|H]; [exact H|exfalso].
      rewrite E, <- N.pow_add_r in Hu.
      apply (N.lt_irrefl (2 ^ 2098)). eapply N.le_lt_trans; [|exact Hu].
      apply N.pow_le_mono_r; [discriminate|lia].
    + rewrite E, <- !N.pow_add_r. f_equal. lia.
  - exists q, s. split; [lia|]. split; [|reflexivity].
    destruct (N.le_gt_cases s 2045) as [H|H]; [exact H|exfalso].
    assert (Hq : (2 ^ 52 <= q)%N) by (apply Hlo; lia).
    assert (Hs : (2 ^ 2046 <= 2 ^ s)%N) by (apply N.pow_le_mono_r; [discriminate|lia]).
    change 2098%N with (52 + 2046)%N in Hu. rewrite N.pow_add_r in Hu.
    generalize dependent (2 ^ 2046)%N. generalize dependent (2 ^ s)%N.
    generalize dependent (2 ^ 52)%N. intros. nia.
Qed.

Lemma rounded_even (num den u' : N) :
  den <> 0%N -> candidate u' -> u' <> rounded num den ->
  gap num den u' = gap num den (rounded num den) ->
  N.even (significand (rounded num den)) = true.
Proof.
  intros Hd Hc Hne Hgap.
  destruct (candidate_shape Hc) as (q' & s' & Hq' & E). subst u'.
  pose proof (@rounded_tie num den q' s' Hd Hq' Hne Hgap) as Hev.
  destruct (@rounded_bounds num den Hd) as [Hhi Hlo].
  unfold rounded. cbv zeta in *.
  set (s := spacing num den) in *. set (q := round_half_even num (den * 2 ^ s)) in *.
  destruct (N.eq_dec q (2 ^ 53)) as [E|E].
  - replace (q * 2 ^ s)%N with (2 ^ 52 * 2 ^ (s + 1))%N
      by (rewrite E, <- !N.pow_add_r; f_equal; lia).
    rewrite significand_normal; [reflexivity|apply N.le_refl|reflexivity].
  - destruct (N.eq_dec s 0) as [Z|Z].
    + rewrite Z, N.pow_0_r, N.mul_1_r, significand_small; [exact Hev|lia].
    + rewrite significand_normal; [exact Hev|apply Hlo; exact Z|lia].
Qed.

(** [number_value] gives the Number value for [m / 10 ^ k]. *)
Lemma number_value_spec (m : N) (k : nat) : is_number_value m k (number_value m k).
Proof.
  unfold is_number_value, number_value, off, nearest_units.
  set (num := (m * 2 ^ 1074)%N). set (den := (10 ^ N.of_nat k)%N).
  assert (Hd : den <> 0%N) by (apply N.pow_nonzero; discriminate).
  assert (Near : forall u', candidate u' ->
                            (gap num den (rounded num den) <= gap num den u')%Z).
  { intros u' Hc. destruct (candidate_shape Hc) as (q' & s' & Hq' & E). subst u'.
    apply rounded_nearest; assumption. }
  destruct (N.leb_spec (2 ^ 2098) (rounded num den)) as [Hu|Hu].
  - exists (2 ^ 2098)%N.
    assert (Top : candidate (2 ^ 2098)) by (right; reflexivity).
    split; [exact Top|]. split; [reflexivity|].
    assert (Hfar : forall u', candidate u' ->
                              (gap num den (2 ^ 2098) <= gap num den u')%Z).
    { intros u' Hc. pose proof (candidate_bound Hc) as Hb.
      destruct (N.le_gt_cases (2 ^ 2098 * den) num) as [Hn|Hn].
      - apply gap_below; assumption.
      - assert (E : rounded num den = (2 ^ 2098)%N).
        { pose proof (Near _ Top) as H. unfold gap in H.
          generalize dependent (rounded num den). generalize dependent (2 ^ 2098)%N.
          intros. nia. }
        rewrite <- E. apply Near, Hc. }
    split; [exact Hfar|].
    intros _ _ _ _. vm_compute. reflexivity.
  - destruct (units_of_normalize 1074 (rounded num den)) as (r & j & En & Ev & Hc).
    change (N.of_nat 1074) with 1074%N in En, Ev.
    exists (rounded num den). rewrite En.
    split; [apply rounded_candidate; assumption|].
    split; [split; [|split]; assumption|].
    split; [exact Near|].
    intros u' Hu' Hne Hgap. exact (@rounded_even num den u' Hd Hu' Hne Hgap).
Qed.

(** Whole numbers up to [2 ^ 53] are doubles. *)
Lemma rounded_exact (num den a s : N) :
  den <> 0%N -> spacing num den = s -> num = (a * (den * 2 ^ s))%N -> (rounded num den * den)%N = num.
Proof.
  intros Hd Hs E. unfold rounded. cbv zeta. rewrite Hs, E.
  rewrite round_half_even_exact; [ring|].
  pose proof (pow2_pos s). nia.
Qed.

Lemma number_value_whole (m : N) : (m <= 2 ^ 53)%N -> number_value m 0 = Dec m 0.
Proof.
  intros Hm. unfold number_value, nearest_units.
  change (10 ^ N.of_nat 0)%N with 1%N.
  assert (E : rounded (m * 2 ^ 1074) 1 = (m * 2 ^ 1074)%N).
  { rewrite <- (N.mul_1_r (rounded _ _)).
    destruct (N.eq_dec m 0) as [Z|Z]; [rewrite Z; reflexivity|].
    destruct (N.eq_dec m (2 ^ 53)) as [T|T]; [rewrite T; vm_compute; reflexivity|].
    assert (Hl : (N.log2 m < 53)%N) by (apply N.log2_lt_pow2; lia).
    assert (Hs : spacing (m * 2 ^ 1074) 1 = (1022 + N.log2 m)%N).
    { unfold spacing. rewrite N.div_1_r, N.log2_mul_pow2 by lia. lia. }
    apply (@rounded_exact _ 1 (m * 2 ^ (52 - N.log2 m)) _ ltac:(discriminate) Hs).
    rewrite N.mul_1_l, <- N.mul_assoc, <- N.pow_add_r. do 2 f_equal. lia. }
  rewrite E.
  destruct (N.leb_spec (2 ^ 2098) (m * 2 ^ 1074)) as [H|H].
  - exfalso. change 2098%N with (1024 + 1074)%N in H. rewrite N.pow_add_r in H.
    apply N.mul_le_mono_pos_r in H; [|apply pow2_pos].
    assert (2 ^ 53 < 2 ^ 1024)%N by (apply N.pow_lt_mono_r; reflexivity). lia.
  - rewrite <- N.mul_assoc, <- N.pow_mul_l. apply (normalize_pow 1074).
Qed.

(** ** [parseFloat] on digits *)

Lemma digit_not_space (c : char) : is_digit c = true -> is_space c = false.
Proof.
  unfold is_digit, is_space, between. intros H.
  apply andb_prop in H. destruct H as [H1 H2].
  apply N.leb_le in H1. apply N.leb_le in H2.
  repeat match goal with
         | |- context [(?a =? ?b)%N] => destruct (N.eqb_spec a b); [lia|]
         | |- context [(?a <=? ?b)%N] => destruct (N.leb_spec a b)
         end; cbn; try reflexivity; lia.
Qed.

Lemma read_digits_run (ds rest : str) :
  forallb is_digit ds = true -> head_is is_digit rest = false ->
  forall acc n,
    read_digits acc n (ds ++ rest)
    = (fold_left (fun a c => (10 * a + digit_val c)%N) ds acc, n + length ds, rest).
Proof.
  intros Hds Hrest. induction ds as [|c ds IH]; intros acc n.
  - cbn [app fold_left length]. rewrite Nat.add_0_r.
    destruct rest as [|d rest]; [reflexivity|].
    cbn [head_is] in Hrest. cbn [read_digits]. rewrite Hrest. reflexivity.
  - cbn [forallb] in Hds. apply andb_prop in Hds. destruct Hds as [Hc Hds].
    cbn [app read_digits fold_left length]. rewrite Hc, (IH Hds).
    rewrite Nat.add_succ_r. reflexivity.
Qed.

(** A string of digits parses to the Number value for the integer it
    denotes. *)
Lemma parseFloat_digits (ds : str) :
  ds <> [] -> forallb is_digit ds = true -> parseFloat ds = number_value (decimal ds) 0.
Proof.
  intros Hne Hds. unfold parseFloat.
  rewrite trimStart_fixed.
  2:{ destruct ds as [|c ds]; [congruence|]. cbn [forallb] in Hds.
      apply andb_prop in Hds. cbn [head_is]. apply digit_not_space, Hds. }
  rewrite <- (app_nil_r ds) at 1.
  rewrite (read_digits_run ds [] Hds eq_refl).
  destruct ds; [congruence|reflexivity].
Qed.

(** Digits, a dot and two digits parse to the Number value for the
    hundredths they denote. *)
Lemma parseFloat_cents (ds : str) (a b : char) :
  forallb is_digit ds = true -> is_digit a = true -> is_digit b = true ->
  parseFloat (ds ++ [ch "."; a; b]) = number_value (decimal (ds ++ [a; b])) 2.
Proof.
  intros Hds Ha Hb. unfold parseFloat.
  rewrite trimStart_fixed.
  2:{ destruct ds as [|c ds]; [reflexivity|]. cbn [forallb] in Hds.
      apply andb_prop in Hds. cbn [app head_is]. apply digit_not_space, Hds. }
  rewrite (read_digits_run ds [ch "."; a; b] Hds eq_refl).
  change ((ch "." =? ch ".")%N) with true. cbv iota.
  change [a; b] with ([a; b] ++ []) at 1.
  rewrite (read_digits_run [a; b] []); [|cbn; rewrite Ha, Hb; reflexivity|reflexivity].
  cbn [length Nat.add]. rewrite Nat.add_comm. cbn [Nat.add Nat.eqb].
  unfold decimal. rewrite fold_left_app. reflexivity.
Qed.

Lemma number_value_defined (m : N) (k : nat) : number_value m k <> NaN.
Proof.
  intros E. destruct (number_value_spec m k) as (u & _ & Hu & _).
  rewrite E in Hu. exact Hu.
Qed.

(** ** The text of an amount *)

(** An amount is "$", a run of digits and commas, and the cents or nothing. *)
Lemma money_shape (s m : str) :
  find_money s = Some m ->
  exists run cs,
    m = ch "$" :: run ++ cs /\ forallb money_char run = true
    /\ (cs = [] \/ exists a b, cs = [ch "."; a; b] /\ is_digit a = true /\ is_digit b = true).
Proof.
  induction s as [|c s IH]; [discriminate|].
  cbn [find_money money_at].
  destruct (is_dollar c && head_is money_char s) eqn:E; [|exact IH].
  intros H. injection H as <-.
  apply andb_prop in E. destruct E as [Ec _].
  unfold is_dollar, char_eq in Ec. apply N.eqb_eq in Ec. subst c.
  exists (take_while money_char s), (cents (drop_while money_char s)).
  split; [reflexivity|]. split; [apply take_while_all|].
  unfold cents. destruct (drop_while money_char s) as [|d [|a [|b rest]]]; try (left; reflexivity).
  destruct (char_eq false (ch ".") d && is_digit a && is_digit b) eqn:Ed; [|left; reflexivity].
  apply andb_prop in Ed. destruct Ed as [Ed Hb].
  apply andb_prop in Ed. destruct Ed as [Ed Ha].
  unfold char_eq in Ed. apply N.eqb_eq in Ed. subst d.
  right. exists a, b. auto.
Qed.

Lemma money_char_kept (c : char) :
  money_char c = true -> kept c = is_digit c /\ is_dot c = false.
Proof.
  unfold money_char, kept, is_dot, class_matches, existsb, atom_matches, char_eq.
  unfold is_digit, between.
  change (ch "$") with 36%N. change (ch ",") with 44%N. change (ch ".") with 46%N.
  repeat match goal with
         | |- context [(?a =? ?b)%N] => destruct (N.eqb_spec a b)
         | |- context [(?a <=? ?b)%N] => destruct (N.leb_spec a b)
         end; cbn; intros Hm; try discriminate Hm; split; try reflexivity; lia.
Qed.

Lemma money_run_kept (run : str) :
  forallb money_char run = true ->
  filter kept run = digits_of run /\ existsb is_dot run = false.
Proof.
  unfold digits_of. induction run as [|c run IH]; [split; reflexivity|].
  cbn [forallb filter existsb]. intros H. apply andb_prop in H. destruct H as [Hc H].
  destruct (money_char_kept c Hc) as [-> ->]. destruct (IH H) as [-> ->].
  split; reflexivity.
Qed.

Lemma digits_of_all (ds : str) : forallb is_digit (digits_of ds) = true.
Proof.
  unfold digits_of. induction ds as [|c ds IH]; [reflexivity|]. cbn [filter].
  destruct (is_digit c) eqn:E; [|exact IH]. cbn [forallb]. rewrite E. exact IH.
Qed.

Lemma digit_kept (c : char) :
  is_digit c = true -> kept c = true /\ is_dot c = false.
Proof.
  intros H. rewrite <- H. apply money_char_kept.
  unfold money_char, class_matches, existsb, atom_matches.
  rewrite H. reflexivity.
Qed.

(** What [parseFloat] makes of an amount without its "$" and commas. *)
Lemma amount_value (s m : str) :
  find_money s = Some m ->
  (digits_of m = [] -> parseFloat (filter kept m) = NaN)
  /\ (digits_of m <> [] ->
      parseFloat (filter kept m) = number_value (decimal (digits_of m)) (decimals_of m)).
Proof.
  intros H. destruct (money_shape s H) as (run & cs & -> & Hrun & Hcs).
  destruct (money_run_kept run Hrun) as [Hk Hdot].
  assert (Ek : filter kept (ch "$" :: run ++ cs) = digits_of run ++ filter kept cs).
  { change (filter kept (ch "$" :: run ++ cs)) with (filter kept (run ++ cs)).
    rewrite filter_app, Hk. reflexivity. }
  assert (Ed : digits_of (ch "$" :: run ++ cs) = digits_of run ++ digits_of cs).
  { unfold digits_of. change (filter is_digit (ch "$" :: run ++ cs))
      with (filter is_digit (run ++ cs)). apply filter_app. }
  assert (Eo : existsb is_dot (ch "$" :: run ++ cs) = existsb is_dot cs).
  { change (existsb is_dot (ch "$" :: run ++ cs)) with (existsb is_dot (run ++ cs)).
    rewrite existsb_app, Hdot. reflexivity. }
  unfold decimals_of. rewrite Ek, Ed, Eo.
  pose proof (digits_of_all run) as Hds.
  destruct Hcs as [->|(a & b & -> & Ha & Hb)].
  - change (digits_of []) with (@nil char). cbn [filter existsb].
    rewrite !app_nil_r. split.
    + intros ->. reflexivity.
    + intros Hne. apply parseFloat_digits; assumption.
  - destruct (digit_kept a Ha) as [Hka _]. destruct (digit_kept b Hb) as [Hkb _].
    assert (E1 : filter kept [ch "."; a; b] = [ch "."; a; b]).
    { cbn [filter]. rewrite Hka, Hkb. reflexivity. }
    assert (E2 : digits_of [ch "."; a; b] = [a; b]).
    { unfold digits_of. cbn [filter]. rewrite Ha, Hb. reflexivity. }
    assert (E3 : existsb is_dot [ch "."; a; b] = true) by reflexivity.
    rewrite E1, E2, E3. split.
    + intros E. destruct (digits_of run); discriminate E.
    + intros _. apply parseFloat_cents; assumption.
Qed.

(** ** Words in any letter case *)

Lemma canonicalize_idem (c : char) : canonicalize (canonicalize c) = canonicalize c.
Proof.
  unfold canonicalize. destruct (between 97 122 c) eqn:E; [|rewrite E; reflexivity].
  unfold between in *. apply andb_prop in E. destruct E as [E1 E2].
  apply N.leb_le in E1. apply N.leb_le in E2.
  destruct (N.leb_spec 97 (c - 32)), (N.leb_spec (c - 32) 122); cbn [andb];
    try reflexivity; lia.
Qed.

Lemma prefix_match_canon (v s : str) :
  prefix_match true v s = prefix_match true v (map canonicalize s).
Proof.
  revert s. induction v as [|c v IH]; intros s; [reflexivity|].
  destruct s as [|d s]; [reflexivity|].
  cbn [map prefix_match char_eq]. rewrite canonicalize_idem, IH. reflexivity.
Qed.

Lemma spells_canon (v a : str) :
  spells v a -> map canonicalize a = map canonicalize v.
Proof.
  intros [Hl Hp]. revert a Hl Hp. induction v as [|c v IH]; intros a Hl Hp.
  - destruct a; [reflexivity|discriminate].
  - destruct a as [|d a]; [discriminate|].
    cbn [prefix_match char_eq] in Hp. apply andb_prop in Hp. destruct Hp as [H1 H2].
    apply N.eqb_eq in H1. cbn [map]. rewrite H1, (IH a); [reflexivity| |exact H2].
    cbn in Hl. lia.
Qed.

(** A letter, in either case, is a word character and no white space. *)
Lemma letter_is_word (h c : char) :
  between 97 122 h = true -> char_eq true h c = true -> is_word c = true.
Proof.
  unfold char_eq, canonicalize, is_word, is_digit, between. intros Hh. rewrite Hh.
  apply andb_prop in Hh. destruct Hh as [H1 H2].
  apply N.leb_le in H1. apply N.leb_le in H2. intros E.
  destruct (N.leb_spec 97 c), (N.leb_spec c 122); cbn [andb orb] in *;
    try reflexivity; apply N.eqb_eq in E.
  - destruct (N.leb_spec 65 c), (N.leb_spec c 90); cbn [andb orb]; try reflexivity; lia.
  - destruct (N.leb_spec 65 c), (N.leb_spec c 90); cbn [andb orb]; try reflexivity; lia.
  - destruct (N.leb_spec 65 c), (N.leb_spec c 90); cbn [andb orb]; try reflexivity; lia.
Qed.

Lemma letter_not_space (h c : char) :
  between 97 122 h = true -> char_eq true h c = true -> is_space c = false.
Proof.
  unfold char_eq, canonicalize, is_space, between. intros Hh. rewrite Hh.
  apply andb_prop in Hh. destruct Hh as [H1 H2].
  apply N.leb_le in H1. apply N.leb_le in H2. intros E.
  assert (R : (65 <= c <= 122)%N).
  { destruct (N.leb_spec 97 c), (N.leb_spec c 122); cbn [andb] in E;
      apply N.eqb_eq in E; lia. }
  clear E.
  repeat match goal with
         | |- context [(?a =? ?b)%N] => destruct (N.eqb_spec a b); [lia|]
         | |- context [(?a <=? ?b)%N] => destruct (N.leb_spec a b)
         end; cbn; try reflexivity; lia.
Qed.

(** ** Alternations of words *)

Section Words.

Variable ic : bool.

Lemma rmatch_words_all_none (l : list str) (k : cont) (x : mstate) :
  l <> [] ->
  (forall u, In u l -> rmatch ic (lit u) k x = None) ->
  rmatch ic (alts (map (@lit) l)) k x = None.
Proof.
  induction l as [|u l IH]; intros Hne H; [congruence|].
  destruct l as [|u' l].
  - apply H. left. reflexivity.
  - change (alts (map (@lit) (u :: u' :: l)))
      with (Alt (lit u) (alts (map (@lit) (u' :: l)))).
    cbn [rmatch]. rewrite (H u) by (left; reflexivity).
    apply IH; [discriminate|]. intros w Hw. apply H. right. exact Hw.
Qed.

(** When one word of the alternation stands ahead and no other does, the
    alternation is that word. *)
Lemma rmatch_words_pick (l : list str) (v a b : str) (k : cont)
      (bef : str) (cs : list (nat * str)) :
  In v l -> length a = length v -> prefix_match ic v a = true ->
  (forall u, In u l -> u <> v -> prefix_match ic u (a ++ b) = false) ->
  rmatch ic (alts (map (@lit) l)) k (MState bef (a ++ b) cs)
  = k (MState (rev a ++ bef) b cs).
Proof.
  intros Hin Hl Hp Hother.
  assert (Each : forall u, In u l ->
            rmatch ic (lit u) k (MState bef (a ++ b) cs) = k (MState (rev a ++ bef) b cs)
            \/ rmatch ic (lit u) k (MState bef (a ++ b) cs) = None).
  { intros u Hu. destruct (list_eq_dec N.eq_dec u v) as [->|Hne].
    - left. apply rmatch_word; assumption.
    - right. rewrite rmatch_lit, (Hother u Hu Hne). reflexivity. }
  induction l as [|u l IH]; [destruct Hin|].
  destruct l as [|u' l].
  - destruct Hin as [->|[]]. apply rmatch_word; assumption.
  - change (alts (map (@lit) (u :: u' :: l)))
      with (Alt (lit u) (alts (map (@lit) (u' :: l)))).
    cbn [rmatch].
    destruct (list_eq_dec N.eq_dec u v) as [->|Hne].
    + rewrite rmatch_word by assumption.
      destruct (k (MState (rev a ++ bef) b cs)) eqn:Ek; [reflexivity|].
      apply rmatch_words_all_none; [discriminate|].
      intros w Hw. destruct (Each w (or_intror Hw)) as [E|E]; exact E.
    + rewrite rmatch_lit, (Hother u (or_introl eq_refl) Hne).
      apply IH.
      * destruct Hin as [E|Hin]; [congruence|exact Hin].
      * intros w Hw. apply Hother. right. exact Hw.
      * intros w Hw. apply Each. right. exact Hw.
Qed.

(** An alternation of words that white space must follow fails where no
    word of it stands before white space. *)
Lemma rmatch_words_space_none (l : list str) (k : cont) (x : mstate) :
  l <> [] ->
  (forall v, In v l ->
     prefix_match ic v (after x) && head_is is_space (skipn (length v) (after x)) = false) ->
  rmatch ic (alts (map (@lit) l)) (rmatch ic sp1 k) x = None.
Proof.
  intros Hne H. apply rmatch_words_all_none; [exact Hne|].
  intros u Hu. destruct x as [bef aft cs]. rewrite rmatch_lit.
  specialize (H u Hu). cbn [after] in H.
  destruct (prefix_match ic u aft); [|reflexivity]. cbn [andb] in H.
  apply plus_none with (p := is_space); [apply space_class|exact H].
Qed.

End Words.

(** ** Runs of [.] *)

Lemma dot_plus_run (ic : bool) (l1 : str) (k : cont) (bef : str)
      (cs : list (nat * str)) (z : mstate) :
  l1 <> [] -> forallb not_terminator l1 = true ->
  k (MState (rev l1 ++ bef) [] cs) = Some z ->
  rmatch ic (Plus true Dot) k (MState bef l1 cs) = Some z.
Proof.
  intros Hne H1 Hk. destruct l1 as [|a l1]; [congruence|].
  cbn [forallb] in H1. apply andb_prop in H1. destruct H1 as [Ha H1].
  unfold Plus. cbn [rmatch]. unfold char_matcher at 1. cbn [after].
  fold (not_terminator a). rewrite Ha. unfold advance. cbn [before caps after].
  rewrite <- (app_nil_r l1) at 2.
  apply repeat_greedy_max; [exact H1|reflexivity|lia|].
  cbn [rev] in Hk. rewrite <- app_assoc in Hk. exact Hk.
Qed.

(** [(.+?)] before a character that the text it passes does not hold. *)
Lemma dot_lazy_until (ic : bool) (q : char -> bool) (l1 l2 : str) (k : cont)
      (bef : str) (cs : list (nat * str)) (z : mstate) :
  l1 <> [] -> forallb not_terminator l1 = true ->
  forallb (fun c => negb (q c)) l1 = true ->
  (forall y, head_is q (after y) = false -> k y = None) ->
  k (MState (rev l1 ++ bef) l2 cs) = Some z ->
  rmatch ic (Plus false Dot) k (MState bef (l1 ++ l2) cs) = Some z.
Proof.
  intros Hne H1 Hq Hfail Hk. destruct l1 as [|a l1]; [congruence|].
  cbn [forallb] in H1, Hq.
  apply andb_prop in H1. destruct H1 as [Ha H1].
  apply andb_prop in Hq. destruct Hq as [_ Hq].
  unfold Plus. cbn [rmatch]. unfold char_matcher at 1. cbn [after app].
  fold (not_terminator a). rewrite Ha. unfold advance. cbn [before caps after].
  apply repeat_lazy_skip with (q := q); [exact H1|exact Hq|exact Hfail| |].
  - rewrite length_app. lia.
  - cbn [rev] in Hk. rewrite <- app_assoc in Hk. exact Hk.
Qed.

(** ** "<verb> <title>: <content>" *)

Lemma existsb_false (A : Type) (f : A -> bool) (l : list A) :
  existsb f l = false -> forall x, In x l -> f x = false.
Proof.
  induction l as [|a l IH]; intros H x Hx; [destruct Hx|].
  cbn [existsb] in H. apply orb_false_elim in H. destruct H as [H1 H2].
  destruct Hx as [<-|Hx]; [exact H1|apply IH; assumption].
Qed.

Lemma head_is_app (p : char -> bool) (a b : str) :
  a <> [] -> head_is p (a ++ b) = head_is p a.
Proof. destruct a; [congruence|reflexivity]. Qed.

Lemma spells_head (v a : str) (h : char) (v' : str) :
  v = h :: v' -> between 97 122 h = true -> spells v a ->
  a <> [] /\ head_is is_word a = true /\ head_is is_space a = false.
Proof.
  intros -> Hh [Hl Hp]. destruct a as [|d a]; [discriminate|].
  cbn [prefix_match] in Hp. apply andb_prop in Hp. destruct Hp as [Hd _].
  split; [discriminate|]. cbn [head_is].
  split; [exact (letter_is_word h d Hh Hd)|exact (letter_not_space h d Hh Hd)].
Qed.

Lemma storage_head (v a : str) :
  In v storage_verbs -> spells v a ->
  a <> [] /\ head_is is_word a = true /\ head_is is_space a = false.
Proof.
  intros Hin Hs. unfold storage_verbs in Hin. cbn [map In] in Hin.
  repeat destruct Hin as [<-|Hin]; try contradiction;
    match type of Hs with
    | spells ?w _ => exact (@spells_head w a (hd 0%N w) (tl w) eq_refl eq_refl Hs)
    end.
Qed.

Lemma filler_head (f a : str) :
  In f fillers -> spells f a ->
  a <> [] /\ head_is is_word a = true /\ head_is is_space a = false.
Proof.
  intros Hin Hs. unfold fillers in Hin. cbn [map In] in Hin.
  repeat destruct Hin as [<-|Hin]; try contradiction;
    match type of Hs with
    | spells ?w _ => exact (@spells_head w a (hd 0%N w) (tl w) eq_refl eq_refl Hs)
    end.
Qed.

(** No storage verb is the beginning of another, and no filler either. *)
Lemma storage_apart (v u a b : str) :
  In v storage_verbs -> spells v a -> In u storage_verbs -> u <> v ->
  prefix_match true u (a ++ b) = false.
Proof.
  intros Hv Hs Hu Hne. rewrite prefix_match_canon, map_app, (spells_canon Hs).
  unfold storage_verbs in Hv, Hu. cbn [map In] in Hv, Hu.
  repeat destruct Hv as [<-|Hv]; try destruct Hv;
    repeat destruct Hu as [<-|Hu]; try destruct Hu; try congruence; reflexivity.
Qed.

Lemma fillers_apart (v u a b : str) :
  In v fillers -> spells v a -> In u fillers -> u <> v ->
  prefix_match true u (a ++ b) = false.
Proof.
  intros Hv Hs Hu Hne. rewrite prefix_match_canon, map_app, (spells_canon Hs).
  unfold fillers in Hv, Hu. cbn [map In] in Hv, Hu.
  repeat destruct Hv as [<-|Hv]; try destruct Hv;
    repeat destruct Hu as [<-|Hu]; try destruct Hu; try congruence; reflexivity.
Qed.

Lemma title_char_split (t : str) :
  forallb title_char t = true ->
  forallb not_terminator t = true /\ forallb (fun c => negb (is_colon c)) t = true.
Proof.
  induction t as [|d t IH]; [split; reflexivity|].
  cbn [forallb]. unfold title_char at 1. intros H.
  apply andb_prop in H. destruct H as [H1 H2].
  apply andb_prop in H1. destruct H1 as [Ha Hb].
  destruct (IH H2) as [I1 I2]. rewrite Ha, Hb, I1, I2. split; reflexivity.
Qed.

Section ColonSplit.

Variables t sp c : str.
Hypothesis t_ok : t <> [] /\ head_is is_space t = false /\ forallb title_char t = true.
Hypothesis sp_ok : forallb is_space sp = true.
Hypothesis c_ok : c <> [] /\ head_is is_space c = false /\ forallb not_terminator c = true.

Let tail : str := t ++ ch ":" :: sp ++ c.

(** [(.+?):\s*(.+)] on the title, the colon and the content. *)
Lemma title_content_run (f : mstate -> mstate) (bef : str) (cs : list (nat * str)) :
  rmatch true (seqs [Group 1 (Plus false Dot); c_ ":"; sp0; Group 2 (Plus true Dot)])
         (fun y => Some (f y)) (MState bef tail cs)
  = Some (f (MState (rev c ++ rev sp ++ ch ":" :: rev t ++ bef) [] ((2, c) :: (1, t) :: cs))).
Proof.
  destruct t_ok as [Ht1 [Ht2 Ht3]]. destruct c_ok as [Hc1 [Hc2 Hc3]].
  destruct (title_char_split t Ht3) as [Ht4 Ht5].
  unfold tail, c_. cbn [seqs rmatch].
  apply dot_lazy_until with (q := is_colon); try assumption.
  - intros y Hy. unfold char_matcher, set_cap. cbn [after].
    destruct (after y) as [|d rest]; [reflexivity|].
    cbn [head_is] in Hy. unfold is_colon in Hy. rewrite Hy. reflexivity.
  - rewrite consumed_app. unfold char_matcher at 1, set_cap, advance.
    cbn [after before caps]. change (char_eq true (ch ":") (ch ":")) with true. cbv iota.
    apply star_run with (p := is_space); [apply space_class|exact sp_ok|exact Hc2|].
    apply dot_plus_run; [exact Hc1|exact Hc3|].
    cbn [before after caps]. rewrite consumed_all. reflexivity.
Qed.

End ColonSplit.

Section KnowledgeColon.

Variables verb ws fill t sp c : str.
Hypothesis verb_ok : exists v, In v storage_verbs /\ spells v verb.
Hypothesis ws_ok : ws <> [] /\ forallb is_space ws = true.
Hypothesis t_ok : t <> [] /\ head_is is_space t = false /\ forallb title_char t = true.
Hypothesis sp_ok : forallb is_space sp = true.
Hypothesis c_ok : c <> [] /\ head_is is_space c = false /\ forallb not_terminator c = true.
Hypothesis fill_ok : filler_part fill (t ++ ch ":" :: sp ++ c).

Let s : str := verb ++ ws ++ fill ++ t ++ ch ":" :: sp ++ c.

Lemma fill_head : head_is is_space (fill ++ t ++ ch ":" :: sp ++ c) = false.
Proof.
  destruct t_ok as [Ht1 [Ht2 _]].
  destruct fill_ok as [[-> _]|[f [f' [ws2 [Hf [Hs [_ [_ ->]]]]]]]].
  - cbn [app]. rewrite head_is_app by exact Ht1. exact Ht2.
  - destruct (filler_head Hf Hs) as [Hne [_ Hsp]].
    rewrite <- !app_assoc. rewrite head_is_app by exact Hne. exact Hsp.
Qed.

(** The optional filler and what follows it. *)
Lemma filler_run (f : mstate -> mstate) (bef : str) :
  rmatch true
    (seqs [Opt (Seq (alts (map (@lit) fillers)) sp1);
           Group 1 (Plus false Dot); c_ ":"; sp0; Group 2 (Plus true Dot)])
    (fun y => Some (f y)) (MState bef (fill ++ t ++ ch ":" :: sp ++ c) [])
  = Some (f (MState (rev c ++ rev sp ++ ch ":" :: rev t ++ rev fill ++ bef) []
                    [(2, c); (1, t)])).
Proof.
  change (seqs [Opt (Seq (alts (map (@lit) fillers)) sp1);
                Group 1 (Plus false Dot); c_ ":"; sp0; Group 2 (Plus true Dot)])
    with (Seq (Opt (Seq (alts (map (@lit) fillers)) sp1))
              (seqs [Group 1 (Plus false Dot); c_ ":"; sp0; Group 2 (Plus true Dot)])).
  cbn [rmatch].
  destruct fill_ok as [[-> Hno]|[w [w' [ws2 [Hw [Hs [Hn [Hall ->]]]]]]]].
  - rewrite rmatch_words_space_none.
    + cbn [app rev]. apply title_content_run; assumption.
    + discriminate.
    + intros v Hv. cbn [after app]. unfold filler_ahead in Hno.
      apply (existsb_false _ _ Hno v Hv).
  - assert (Inner :
      rmatch true (alts (map (@lit) fillers))
        (rmatch true sp1
        (fun y => if no_progress (MState bef ((w' ++ ws2) ++ t ++ ch ":" :: sp ++ c) []) y
                  then None
                  else rmatch true
                         (seqs [Group 1 (Plus false Dot); c_ ":"; sp0; Group 2 (Plus true Dot)])
                         (fun y0 => Some (f y0)) y))
        (MState bef ((w' ++ ws2) ++ t ++ ch ":" :: sp ++ c) [])
      = Some (f (MState (rev c ++ rev sp ++ ch ":" :: rev t ++ rev (w' ++ ws2) ++ bef) []
                        [(2, c); (1, t)]))).
    { rewrite <- !app_assoc.
      rewrite (rmatch_words_pick true fillers (v := w)); [|exact Hw|apply Hs|apply Hs|].
      2:{ intros u Hu Hne. apply fillers_apart with (v := w); assumption. }
      apply plus_run with (p := is_space); [apply space_class|exact Hn|exact Hall| |].
      - destruct t_ok as [Ht1 [Ht2 _]]. rewrite head_is_app by exact Ht1. exact Ht2.
      - unfold no_progress. cbn [after].
        replace (length (t ++ ch ":" :: sp ++ c)
                 =? length (w' ++ ws2 ++ t ++ ch ":" :: sp ++ c)) with false.
        + rewrite title_content_run by assumption.
          rewrite rev_app_distr, <- !app_assoc. reflexivity.
        + symmetry. apply Nat.eqb_neq. rewrite !length_app.
          destruct ws2; [congruence|]. cbn [length]. lia. }
    rewrite Inner. reflexivity.
Qed.

(** The whole pattern at the start of the text. *)
Lemma colon_match :
  exists y,
    rmatch true (Group 0 (pattern KnowledgeCreate.colon)) Some (MState [] s []) = Some y
    /\ caps y = [(0, s); (2, c); (1, t)].
Proof.
  destruct verb_ok as [v [Hv Hs]]. destruct ws_ok as [Hw1 Hw2].
  destruct (storage_head Hv Hs) as [Hne [Hword _]].
  eexists. split.
  - unfold KnowledgeCreate.colon, KnowledgeCreate.storage, reI.
    change (words ["store"; "save"; "add"; "remember"; "record"; "put"; "set"]%string)
      with (alts (map (@lit) storage_verbs)).
    change (words ["a"; "our"; "the"; "my"; "this"]%string)
      with (alts (map (@lit) fillers)).
    cbn [pattern].
    change (seqs [WordB; alts (map (@lit) storage_verbs); sp1;
                  Opt (Seq (alts (map (@lit) fillers)) sp1);
                  Group 1 (Plus false Dot); c_ ":"; sp0; Group 2 (Plus true Dot)])
      with (Seq WordB (Seq (alts (map (@lit) storage_verbs)) (Seq sp1
              (seqs [Opt (Seq (alts (map (@lit) fillers)) sp1);
                     Group 1 (Plus false Dot); c_ ":"; sp0; Group 2 (Plus true Dot)])))).
    cbn [rmatch]. unfold at_word_boundary. cbn [before after head_is xorb].
    unfold s. rewrite head_is_app by exact Hne. rewrite Hword.
    rewrite (rmatch_words_pick true storage_verbs (v := v)); [|exact Hv|apply Hs|apply Hs|].
    2:{ intros u Hu Hne'. apply storage_apart with (v := v); assumption. }
    apply plus_run with (p := is_space); [apply space_class|exact Hw1|exact Hw2|apply fill_head|].
    apply (filler_run
             (fun y => set_cap 0 (consumed (MState [] (verb ++ ws ++ fill ++ t ++ ch ":" :: sp ++ c) []) y) y)).
  - cbn [set_cap caps]. rewrite consumed_all. reflexivity.
Qed.

Lemma colon_extract :
  KnowledgeCreate.extract s = Ok (KnowledgeCreate (trim t) (trim c)).
Proof.
  destruct colon_match as [y [Hy Hc]].
  unfold KnowledgeCreate.extract, str_match.
  rewrite (exec_from_here KnowledgeCreate.colon [] s Hy).
  unfold capture. cbn [final]. rewrite Hc. reflexivity.
Qed.

End KnowledgeColon.

(** ** The store of RegExp objects *)

Lemma returns_ret (A : Type) (a : A) : returns (ret a) (Ok a).
Proof. intros h. exists []. unfold ret. rewrite app_nil_r. reflexivity. Qed.

Lemma returns_lift (A : Type) (m : result A) : returns (lift m) m.
Proof. intros h. exists []. unfold lift. rewrite app_nil_r. reflexivity. Qed.

Lemma returns_bind (A B : Type) (m : M A) (f : A -> M B) (x : result A)
      (g : A -> result B) :
  returns m x -> (forall a, x = Ok a -> returns (f a) (g a)) ->
  returns (bindM m f) (bind x g).
Proof.
  intros Hm Hf h. destruct (Hm h) as [n1 E1]. unfold bindM. rewrite E1.
  destruct x as [a|e]; cbn [bind].
  - destruct (Hf a eq_refl (h ++ n1)) as [n2 E2]. exists (n1 ++ n2).
    rewrite E2, app_assoc. reflexivity.
  - exists n1. reflexivity.
Qed.

Lemma returns_then (A B : Type) (m : M A) (f : A -> M B) (a : A) (v : result B) :
  returns m (Ok a) -> returns (f a) v -> returns (bindM m f) v.
Proof.
  intros Hm Hf. apply (@returns_bind A B m f (Ok a) (fun _ => v) Hm).
  intros a' E. injection E as <-. exact Hf.
Qed.

Lemma nth_new (h : store) (o : regexp_object) : nth_error (h ++ [o]) (length h) = Some o.
Proof. rewrite nth_error_app2 by apply le_n. rewrite Nat.sub_diag. reflexivity. Qed.

Lemma set_new (h : store) (o : regexp_object) (i : nat) :
  set_lastIndex (length h) i (h ++ [o]) = h ++ [RegExpObject (regexp o) i].
Proof. induction h as [|o' h IH]; [reflexivity|]. cbn. rewrite IH. reflexivity. Qed.

(** A method called on the object of a literal, and what follows it. *)
Lemma step (A B : Type) (op : ref -> M A) (re : RegExp) (a : A) (f : A -> M B)
      (v : result B) :
  on_new op re a -> returns (f a) v ->
  returns (r <~ literal re ;; x <~ op r ;; f x) v.
Proof.
  intros Hop Hf h. unfold bindM, literal. destruct (Hop h) as [i E]. rewrite E.
  destruct (Hf (h ++ [RegExpObject re i])) as [new E']. rewrite E'.
  exists (RegExpObject re i :: new). rewrite <- app_assoc. reflexivity.
Qed.

Lemma last_step (A : Type) (op : ref -> M A) (re : RegExp) (a : A) :
  on_new op re a -> returns (r <~ literal re ;; op r) (Ok a).
Proof.
  intros Hop h. unfold bindM, literal. destruct (Hop h) as [i E]. rewrite E.
  exists [RegExpObject re i]. reflexivity.
Qed.

(** The search of a new object starts at 0, whatever its flags. *)
Lemma exec_on_new (re : RegExp) (s : str) :
  on_new (fun r => RegExpBuiltinExec r s) re (exec_from re [] s).
Proof.
  intros h. unfold RegExpBuiltinExec. rewrite nth_new. cbn [regexp lastIndex].
  assert (E0 : (if global re then 0 else 0) = 0) by (destruct (global re); reflexivity).
  rewrite E0. cbn [Nat.ltb Nat.leb firstn skipn rev].
  destruct (exec_from re [] s) as [m|].
  - destruct (global re); [|exists 0; reflexivity].
    rewrite set_new. eexists. reflexivity.
  - destruct (global re); [|exists 0; reflexivity].
    rewrite set_new. eexists. reflexivity.
Qed.

Lemma test_on_new (re : RegExp) (s : str) :
  on_new (fun r => Stateful.test r s) re (test re s).
Proof.
  intros h. unfold Stateful.test, bindM. destruct (exec_on_new re s h) as [i E].
  rewrite E. exists i. unfold test, ret. destruct (exec_from re [] s); reflexivity.
Qed.

Lemma match_on_new (re : RegExp) (s : str) :
  on_new (fun r => Stateful.str_match s r) re (str_match s re).
Proof. exact (exec_on_new re s). Qed.

Lemma replace_on_new (re : RegExp) (s repl : str) :
  on_new (fun r => Stateful.replace s r repl) re (replace s re repl).
Proof.
  intros h. unfold Stateful.replace. rewrite nth_new. cbn [regexp].
  destruct (global re); [|exists 0; reflexivity].
  rewrite set_new. eexists. reflexivity.
Qed.

Lemma split_on_new (re : RegExp) (s : str) :
  on_new (fun r => Stateful.split s r) re (split s re).
Proof.
  intros h. unfold Stateful.split. rewrite nth_new. cbn [regexp].
  exists 0. reflexivity.
Qed.

(** An object that is used again does keep state: a global pattern holds in
    [lastIndex] where its last match ended, and the same object tested twice
    on "a" finds it once only. *)
Lemma global_test_moves_on :
  fst ((r <~ literal (Re (Chr (ch "a")) false true) ;;
        first <~ Stateful.test r [ch "a"] ;;
        second <~ Stateful.test r [ch "a"] ;;
        ret (first, second)) [])
  = Ok (true, false).
Proof. vm_compute. reflexivity. Qed.

Lemma test_literal (re : RegExp) (s : str) :
  returns (r <~ literal re ;; Stateful.test r s) (Ok (test re s)).
Proof. exact (last_step (test_on_new re s)). Qed.

Lemma returns_and (a b : M bool) (x y : bool) :
  returns a (Ok x) -> returns b (Ok y) -> returns (Stateful.and_test a b) (Ok (x && y)).
Proof.
  intros Ha Hb. unfold Stateful.and_test. apply (returns_then _ Ha).
  destruct x; [exact Hb|apply returns_ret].
Qed.

Lemma returns_or (a b : M bool) (x y : bool) :
  returns a (Ok x) -> returns b (Ok y) -> returns (Stateful.or_test a b) (Ok (x || y)).
Proof.
  intros Ha Hb. unfold Stateful.or_test. apply (returns_then _ Ha).
  destruct x; [apply returns_ret|exact Hb].
Qed.

Lemma returns_not (a : M bool) (x : bool) :
  returns a (Ok x) -> returns (Stateful.not_test a) (Ok (negb x)).
Proof.
  intros Ha. unfold Stateful.not_test. apply (returns_then _ Ha), returns_ret.
Qed.

(** The steps of a proof that a computation of the table returns what the
    function of the same name returns. *)
Ltac table_step :=
  first
    [ apply returns_ret
    | apply returns_lift
    | apply test_literal
    | apply returns_and
    | apply returns_or
    | apply returns_not
    | eapply step; [apply test_on_new|]
    | eapply step; [apply match_on_new|]
    | eapply step; [apply replace_on_new|]
    | eapply step; [apply split_on_new|] ].

Lemma approve_same : same_rule Stateful.approve Decide.approve.
Proof.
  split; [reflexivity|]. split; intros s; cbn; repeat table_step.
Qed.

Lemma deny_same : same_rule Stateful.deny Decide.deny.
Proof.
  split; [reflexivity|]. split; intros s; cbn; repeat table_step.
Qed.

Lemma list_approvals_same : same_rule Stateful.list_approvals ApprovalsList.list.
Proof.
  split; [reflexivity|]. split; intros s; cbn; repeat table_step.
Qed.

Lemma request_approval_same : same_rule Stateful.request_approval ApprovalRequest.request.
Proof.
  split; [reflexivity|]. split; intros s.
  - cbn. rewrite <- orb_assoc. repeat table_step.
  - cbn [Stateful.rule_extract Stateful.request_approval rule_extract
           ApprovalRequest.request].
    unfold ApprovalRequest.extract, ApprovalRequest.amount_of. cbv zeta.
    do 3 table_step.
    destruct (str_match s ApprovalRequest.money) as [m|].
    + apply (@returns_then _ _ _ _
               (Some (parseFloat (replace (matched m) ApprovalRequest.separators [])))).
      { repeat table_step. }
      match goal with
      | |- context [if ?c then _ <~ _ ;; _ else _] => destruct c
      end; (eapply returns_then; [repeat table_step|]); apply returns_ret.
    + apply (@returns_then _ _ _ _ (@None number)); [apply returns_ret|].
      match goal with
      | |- context [if ?c then _ <~ _ ;; _ else _] => destruct c
      end; (eapply returns_then; [repeat table_step|]); apply returns_ret.
Qed.

Lemma create_knowledge_same : same_rule Stateful.create_knowledge KnowledgeCreate.create.
Proof.
  split; [reflexivity|]. split; intros s.
  - cbn. repeat table_step.
  - cbn [Stateful.rule_extract Stateful.create_knowledge rule_extract
           KnowledgeCreate.create].
    unfold KnowledgeCreate.extract. table_step.
    destruct (str_match s KnowledgeCreate.colon) as [m|].
    + apply returns_bind; [apply returns_lift|]. intros title _.
      apply returns_bind; [apply returns_lift|]. intros content _.
      apply returns_ret.
    + table_step. destruct (str_match s KnowledgeCreate.simple) as [m|].
      * apply returns_bind; [apply returns_lift|]. intros text _.
        cbv zeta. repeat table_step.
      * apply returns_ret.
Qed.

Lemma list_knowledge_same : same_rule Stateful.list_knowledge KnowledgeList.list.
Proof.
  split; [reflexivity|]. split; intros s; cbn; repeat table_step.
Qed.

Lemma search_knowledge_same : same_rule Stateful.search_knowledge KnowledgeSearch.search.
Proof.
  split; [reflexivity|]. split; intros s.
  - cbn. repeat table_step.
  - cbn [Stateful.rule_extract Stateful.search_knowledge rule_extract
           KnowledgeSearch.search].
    unfold KnowledgeSearch.extract. cbv zeta. do 3 table_step.
    match goal with
    | |- context [if ?c then _ <~ _ ;; _ else _] => destruct c
    end.
    + eapply returns_then; [repeat table_step|]. apply returns_ret.
    + eapply returns_then; [apply returns_ret|]. apply returns_ret.
Qed.

Lemma list_requests_same : same_rule Stateful.list_requests RequestsList.list.
Proof.
  split; [reflexivity|]. split; intros s; cbn; repeat table_step.
Qed.

Lemma priority_of_same (s : str) :
  returns (Stateful.priority_of s) (Ok (RequestCreate.priority_of s)).
Proof.
  unfold Stateful.priority_of, RequestCreate.priority_of.
  table_step. destruct (test RequestCreate.urgent s); [apply returns_ret|].
  table_step. destruct (test RequestCreate.high s); [apply returns_ret|].
  table_step. destruct (test RequestCreate.low s); apply returns_ret.
Qed.

Lemma create_request_same : same_rule Stateful.create_request RequestCreate.create.
Proof.
  split; [reflexivity|]. split; intros s.
  - cbn. rewrite <- orb_assoc. repeat table_step.
  - cbn [Stateful.rule_extract Stateful.create_request rule_extract RequestCreate.create].
    unfold RequestCreate.extract. cbv zeta. do 3 table_step.
    apply (returns_then _ (priority_of_same s)). repeat table_step.
Qed.

Lemma check_status_same : same_rule Stateful.check_status Status.check.
Proof.
  split; [reflexivity|]. split; intros s; cbn; repeat table_step.
Qed.

Lemma table_same : Forall2 same_rule Stateful.INTENT_RULES INTENT_RULES.
Proof.
  unfold Stateful.INTENT_RULES, INTENT_RULES.
  repeat apply Forall2_cons; try apply Forall2_nil.
  - exact approve_same.
  - exact deny_same.
  - exact list_approvals_same.
  - exact request_approval_same.
  - exact create_knowledge_same.
  - exact list_knowledge_same.
  - exact search_knowledge_same.
  - exact list_requests_same.
  - exact create_request_same.
  - exact check_status_same.
Qed.

(** The loop over the table finds the same rule. *)
Lemma first_rule_same (l : list Stateful.rule) (l' : list rule) (s : str) :
  Forall2 same_rule l l' ->
  match first_rule l' s with
  | Some r' => exists r, same_rule r r' /\ returns (Stateful.first_rule l s) (Ok (Some r))
  | None => returns (Stateful.first_rule l s) (Ok None)
  end.
Proof.
  induction 1 as [|r r' l l' Hr _ IH]; cbn [first_rule Stateful.first_rule].
  - apply returns_ret.
  - destruct Hr as (Hi & Ht & He).
    destruct (rule_test r' s) eqn:Et.
    + exists r. split; [split; [exact Hi|split; assumption]|].
      apply (returns_then _ (Ht s)). rewrite Et. apply returns_ret.
    + destruct (first_rule l' s) as [r2|].
      * destruct IH as (r1 & H1 & H2). exists r1. split; [exact H1|].
        apply (returns_then _ (Ht s)). rewrite Et. exact H2.
      * apply (returns_then _ (Ht s)). rewrite Et. exact IH.
Qed.

(** Over the store, [detectIntent] returns what [detectIntent] returns,
    whatever the store holds, and adds objects to it only. *)
Lemma detectIntent_same (input : str) :
  returns (Stateful.detectIntent input) (detectIntent input).
Proof.
  unfold Stateful.detectIntent, detectIntent. cbv zeta.
  pose proof (@first_rule_same _ _ (trim input) table_same) as H.
  destruct (first_rule INTENT_RULES (trim input)) as [r'|].
  - destruct H as (r & (Hi & _ & He) & Hr).
    apply (returns_then _ Hr). rewrite Hi.
    apply returns_bind; [apply He|]. intros d _. apply returns_ret.
  - apply (returns_then _ H).
    destruct (endsWith (trim input) (ch "?") || (length (trim input) <? 80)).
    + repeat table_step.
    + apply returns_ret.
Qed.

(** Only one rule makes a knowledge entry. *)
Lemma knowledge_create_inv (input : str) (d : data) :
  detectIntent input = Ok (Some (knowledge_create, d)) ->
  KnowledgeCreate.extract (trim input) = Ok d.
Proof.
  intros H. apply detectIntent_inv in H.
  destruct H as [[r [Hin [_ [_ [Hi He]]]]]|[_ [Hi _]]]; [|discriminate].
  unfold INTENT_RULES in Hin.
  destruct Hin as [<-|[<-|[<-|[<-|[<-|[<-|[<-|[<-|[<-|[<-|[]]]]]]]]]]];
    try discriminate Hi.
  exact He.
Qed.

(** ** Claims *)

(** C1, as stated, fails: "urgently" is not one of the urgency words, which
    are matched between word boundaries. *)
Lemma urgently_is_not_critical :
  ~ critical_without_urgency (js "create a request to schedule HVAC inspection urgently").
Proof.
  intros [title [description [H _]]]. vm_compute in H. discriminate H.
Qed.

(** C1, amended.  The input with "urgently" is a request of priority "medium"
    whose title keeps the adverb; with the whole word "urgent" in its place
    the priority is "critical" and the word is gone from the title. *)
Theorem urgency_is_whole_word :
  detectIntent (js "create a request to schedule HVAC inspection urgently")
    = Ok (Some (requests_create,
                RequestCreate (js "HVAC inspection urgently")
                              (js "create a request to schedule HVAC inspection urgently")
                              (js "medium")))
  /\ detectIntent (js "create a request to schedule HVAC inspection urgent")
     = Ok (Some (requests_create,
                 RequestCreate (js "HVAC inspection")
                               (js "create a request to schedule HVAC inspection urgent")
                               (js "critical")))
  /\ critical_without_urgency (js "create a request to schedule HVAC inspection urgent").
Proof.
  split; [vm_compute; reflexivity|]. split; [vm_compute; reflexivity|].
  eexists _, _. split; vm_compute; reflexivity.
Qed.

(** C2, as stated, fails: on "the cat" no rule fires, the extractor would
    drop the article, and the fallback keeps it. *)
Lemma fallback_keeps_article : ~ fallback_runs_search_extractor (js "the cat").
Proof.
  intros H. destruct H as [d [H1 H2]].
  - apply first_rule_none. vm_compute. reflexivity.
  - right. vm_compute. lia.
  - vm_compute in H1. inversion H1; subst d. vm_compute in H2. discriminate H2.
Qed.

(** C2, amended.  When no rule fires and the trimmed input ends with "?" or
    is shorter than 80 code units, the result is a knowledge search whose
    query is the trimmed input without the question marks at its end,
    trimmed again. *)
Theorem fallback_query (input : str) :
  (forall r, In r INTENT_RULES -> rule_test r (trim input) = false) ->
  endsWith (trim input) (ch "?") = true \/ length (trim input) < 80 ->
  detectIntent input
    = Ok (Some (knowledge_search, Search (trim (strip_qmarks (trim input))))).
Proof.
  intros Hnone Hfb. unfold detectIntent.
  rewrite (proj2 (first_rule_none INTENT_RULES (trim input)) Hnone).
  rewrite replace_qmarks.
  destruct Hfb as [-> | Hlen]; [reflexivity|].
  apply Nat.ltb_lt in Hlen. rewrite Hlen, orb_true_r. reflexivity.
Qed.

Lemma fallback_query_witness :
  (forall r, In r INTENT_RULES -> rule_test r (trim (js " the cat?? ")) = false)
  /\ detectIntent (js " the cat?? ") = Ok (Some (knowledge_search, Search (js "the cat"))).
Proof.
  assert (H : forall r, In r INTENT_RULES -> rule_test r (trim (js " the cat?? ")) = false).
  { apply first_rule_none. vm_compute. reflexivity. }
  split; [exact H|].
  exact (@fallback_query (js " the cat?? ") H (or_introl eq_refl)).
Defined.

(** C3. "approve abc123" is a decision on the approval abc123, and
    "approve a request for travel" is a request for a new approval.  More
    generally, when the trimmed input is "approve" (in any letter case), white
    space, a token, and then nothing or more white-space-separated text, and
    holds none of "request", "for" and "need" (compared as the rule compares
    them, without regard to letter case), the result is a decision
    "approved" whose id is that token. *)
Theorem approve_priority :
  detectIntent (js "approve abc123")
    = Ok (Some (approvals_decide, Decide (Some (js "abc123")) (js "approved")))
  /\ (exists d, detectIntent (js "approve a request for travel")
                = Ok (Some (approvals_request, d)))
  /\ forall input p ws t rest : str,
       trim input = p ++ ws ++ t ++ rest ->
       length p = 7 /\ prefix_match true (js "approve") p = true ->
       ws <> [] /\ forallb is_space ws = true ->
       t <> [] /\ forallb nonspace t = true ->
       head_is nonspace rest = false ->
       (forall v, In v [js "request"; js "for"; js "need"] ->
                  occurs true v (trim input) = false) ->
       detectIntent input
         = Ok (Some (approvals_decide, Decide (Some t) (js "approved"))).
Proof.
  split; [vm_compute; reflexivity|].
  split; [eexists; vm_compute; reflexivity|].
  intros input p ws t rest E Hp Hws Ht Hrest Hex.
  unfold detectIntent. rewrite E in *.
  assert (T : rule_test Decide.approve (p ++ ws ++ t ++ rest) = true).
  { cbn [rule_test Decide.approve].
    rewrite approve_test_holds by assumption.
    unfold Decide.excluded, reI.
    change (words ["request"; "for"; "need"]%string)
      with (alts (map (@lit) [js "request"; js "for"; js "need"])).
    rewrite test_words_false; [reflexivity|discriminate|exact Hex]. }
  unfold INTENT_RULES. cbn [first_rule]. rewrite T.
  cbn [rule_extract rule_intent Decide.approve bind].
  rewrite approve_id_found by assumption. reflexivity.
Qed.

Lemma approve_priority_witness :
  trim (js " Approve kb_42 now ") = js "Approve" ++ js " " ++ js "kb_42" ++ js " now"
  /\ detectIntent (js " Approve kb_42 now ")
     = Ok (Some (approvals_decide, Decide (Some (js "kb_42")) (js "approved"))).
Proof.
  split; [vm_compute; reflexivity|].
  apply (proj2 (proj2 approve_priority)) with (p := js "Approve") (ws := js " ") (rest := js " now").
  - vm_compute; reflexivity.
  - split; vm_compute; reflexivity.
  - split; [discriminate|vm_compute; reflexivity].
  - split; [discriminate|vm_compute; reflexivity].
  - vm_compute; reflexivity.
  - intros v [<-|[<-|[<-|[]]]]; vm_compute; reflexivity.
Defined.

(** C4. [detectIntent] returns [null] exactly when no rule's test holds on
    the trimmed input, the trimmed input does not end with "?" and it is at
    least 80 code units long; in every other case it returns an intent with
    its data. *)
Theorem unresolved_iff (input : str) :
  (detectIntent input = Ok None <->
     (forall r, In r INTENT_RULES -> rule_test r (trim input) = false)
     /\ endsWith (trim input) (ch "?") = false
     /\ 80 <= length (trim input))
  /\ (detectIntent input = Ok None
      \/ exists i d, detectIntent input = Ok (Some (i, d))).
Proof.
  unfold detectIntent.
  destruct (first_rule INTENT_RULES (trim input)) as [r|] eqn:E.
  - destruct (first_rule_some _ _ E) as [Hin Ht].
    destruct (extract_total (trim input) Hin) as [d ->]. cbn [bind].
    split; [|right; eauto].
    split; [discriminate|]. intros [H _]. rewrite (H r Hin) in Ht. discriminate.
  - pose proof (proj1 (first_rule_none _ _) E) as E'.
    destruct (endsWith (trim input) (ch "?")) eqn:Eq; cbn [orb].
    + split; [|right; eauto]. split; [discriminate|]. intros [_ [H _]]. discriminate.
    + destruct (length (trim input) <? 80) eqn:El.
      * split; [|right; eauto]. split; [discriminate|].
        intros [_ [_ H]]. apply Nat.ltb_lt in El. lia.
      * split; [|left; reflexivity]. split; [|reflexivity].
        intros _. apply Nat.ltb_ge in El. auto.
Qed.

(** C5, as stated, fails: "remember: buy milk" makes a knowledge entry, the
    colon follows the verb at once and leaves no title, and the entry is the
    placeholder title with the whole input as content. *)
Lemma colon_after_bare_verb : ~ colon_splits (js "remember: buy milk").
Proof.
  intros H.
  destruct (H (KnowledgeCreate (js "New Entry") (js "remember: buy milk"))
              (js "remember") (js " buy milk")) as [lead [title [_ E]]].
  - vm_compute. reflexivity.
  - vm_compute. reflexivity.
  - vm_compute. reflexivity.
  - inversion E.
Qed.

(** C5, amended.  "store our refund policy: full refund within 30 days" makes
    the entry titled "refund policy" with content "full refund within 30
    days".  In general, let the trimmed input be one of the verbs store, save,
    add, remember, record, put, set (in any letter case), white space, an
    optional filler (a, our, the, my, this, in any letter case, then white
    space), a title text, a colon, optional white space and a content text,
    where the title text is not empty, does not start with white space and
    holds no colon and no line terminator, and the content text is not empty,
    does not start with white space and holds no line terminator.  If the
    input makes a knowledge entry, its title is the title text, trimmed, and
    its content is the content text, trimmed. *)
Theorem colon_split :
  detectIntent (js "store our refund policy: full refund within 30 days")
    = Ok (Some (knowledge_create,
                KnowledgeCreate (js "refund policy") (js "full refund within 30 days")))
  /\ forall input verb ws fill t sp c d,
       trim input = verb ++ ws ++ fill ++ t ++ ch ":" :: sp ++ c ->
       (exists v, In v storage_verbs /\ spells v verb) ->
       ws <> [] /\ forallb is_space ws = true ->
       t <> [] /\ head_is is_space t = false /\ forallb title_char t = true ->
       forallb is_space sp = true ->
       c <> [] /\ head_is is_space c = false /\ forallb not_terminator c = true ->
       filler_part fill (t ++ ch ":" :: sp ++ c) ->
       detectIntent input = Ok (Some (knowledge_create, d)) ->
       d = KnowledgeCreate (trim t) (trim c).
Proof.
  split; [vm_compute; reflexivity|].
  intros input verb ws fill t sp c d E Hverb Hws Ht Hsp Hc Hfill H.
  apply knowledge_create_inv in H. rewrite E in H.
  rewrite (@colon_extract verb ws fill t sp c Hverb Hws Ht Hsp Hc Hfill) in H.
  inversion H. reflexivity.
Qed.

Lemma colon_split_witness :
  trim (js " Save the Refund policy : 30 days ")
    = js "Save" ++ js " " ++ js "the " ++ js "Refund policy " ++ ch ":" :: js " " ++ js "30 days"
  /\ detectIntent (js " Save the Refund policy : 30 days ")
     = Ok (Some (knowledge_create, KnowledgeCreate (js "Refund policy") (js "30 days")))
  /\ KnowledgeCreate (js "Refund policy") (js "30 days")
     = KnowledgeCreate (trim (js "Refund policy ")) (trim (js "30 days")).
Proof.
  assert (E : trim (js " Save the Refund policy : 30 days ")
              = js "Save" ++ js " " ++ js "the " ++ js "Refund policy "
                ++ ch ":" :: js " " ++ js "30 days") by (vm_compute; reflexivity).
  assert (H : detectIntent (js " Save the Refund policy : 30 days ")
              = Ok (Some (knowledge_create,
                          KnowledgeCreate (js "Refund policy") (js "30 days"))))
    by (vm_compute; reflexivity).
  split; [exact E|]. split; [exact H|].
  apply (proj2 colon_split (js " Save the Refund policy : 30 days ")
               (js "Save") (js " ") (js "the ") (js "Refund policy ") (js " ") (js "30 days")).
  - exact E.
  - exists (js "save"). split; [right; left; reflexivity|split; vm_compute; reflexivity].
  - split; [discriminate|vm_compute; reflexivity].
  - split; [discriminate|split; vm_compute; reflexivity].
  - vm_compute; reflexivity.
  - split; [discriminate|split; vm_compute; reflexivity].
  - right. exists (js "the"), (js "the"), (js " ").
    split; [right; right; left; reflexivity|].
    split; [split; vm_compute; reflexivity|].
    split; [discriminate|]. split; vm_compute; reflexivity.
  - exact H.
Defined.

(** C6. "request approval for $5,000 vendor payment" is a request for approval
    whose amount is 5000, whose title holds "vendor payment" and whose
    description is the whole input. *)
Theorem amount_example :
  detectIntent (js "request approval for $5,000 vendor payment")
    = Ok (Some (approvals_request,
                ApprovalRequest (js "$5,000 vendor payment")
                                (js "request approval for $5,000 vendor payment")
                                (Some (Dec 5000 0))))
  /\ includes (js "$5,000 vendor payment") (js "vendor payment") = true.
Proof. split; vm_compute; reflexivity. Qed.

(** C7, as stated, fails: in "need approval for $,5" no digit follows "$"
    immediately, and the amount is 5. *)
Lemma amount_after_separator : ~ amount_iff_dollar_digit (js "need approval for $,5").
Proof.
  intros [H _].
  assert (E : dollar_then is_digit (js "need approval for $,5") = true).
  { apply H. exists (Dec 5 0). split; [vm_compute; reflexivity|discriminate]. }
  vm_compute in E. discriminate E.
Qed.

(** C7, amended.  The amount is defined exactly when "$" stands immediately
    before a digit or a comma somewhere in the input.  It is then what
    [parseFloat] reads in the leftmost such place, from the text made of "$",
    the whole run of digits and commas after it and, when a dot and two
    digits follow the run, these three characters, once "$" and the commas
    are taken out.  That is NaN when the text holds no digit.  When it holds
    one, it is the Number value for the decimal that its digits denote, two
    of them standing after the dot when the text has the cents: the double
    nearest to that decimal, which need not be the decimal itself.  For
    digits alone that denote [2 ^ 53] at most it is the integer they
    denote. *)
Theorem amount_spec :
  (forall s, exists title,
     ApprovalRequest.extract s = Ok (ApprovalRequest title s (ApprovalRequest.amount_of s)))
  /\ (forall s, ApprovalRequest.amount_of s = None <-> dollar_then money_char s = false)
  /\ (forall s, ApprovalRequest.amount_of s
                = option_map (fun m => parseFloat (filter kept m)) (find_money s))
  /\ (forall s m, find_money s = Some m ->
        (digits_of m = [] -> ApprovalRequest.amount_of s = Some NaN)
        /\ (digits_of m <> [] ->
            exists v, ApprovalRequest.amount_of s = Some v
                      /\ is_number_value (decimal (digits_of m)) (decimals_of m) v))
  /\ (forall ds, ds <> [] -> forallb is_digit ds = true -> (decimal ds <= 2 ^ 53)%N ->
                 parseFloat ds = Dec (decimal ds) 0).
Proof.
  assert (A : forall s, ApprovalRequest.amount_of s
                        = option_map (fun m => parseFloat (filter kept m)) (find_money s)).
  { intros s. unfold ApprovalRequest.amount_of. rewrite <- match_money.
    destruct (str_match s ApprovalRequest.money) as [m|]; [|reflexivity].
    cbn [option_map]. unfold ApprovalRequest.separators. rewrite replace_class.
    reflexivity. }
  split; [intros s; eexists; reflexivity|].
  split; [|split; [exact A|split]].
  - intros s. rewrite A, <- find_money_dollar.
    destruct (find_money s); cbn [option_map]; split; congruence.
  - intros s m Hm. destruct (amount_value s Hm) as [Hnone Hsome].
    rewrite A, Hm. cbn [option_map]. split.
    + intros E. rewrite (Hnone E). reflexivity.
    + intros E. rewrite (Hsome E). eexists. split; [reflexivity|].
      apply number_value_spec.
  - intros ds Hne Hds Hle. rewrite (parseFloat_digits Hne Hds).
    apply number_value_whole, Hle.
Qed.

Lemma amount_spec_witness :
  (exists v, ApprovalRequest.amount_of (js "need approval for $1,250.50 now") = Some v
             /\ is_number_value (decimal (digits_of (js "$1,250.50")))
                                (decimals_of (js "$1,250.50")) v)
  /\ ApprovalRequest.amount_of (js "need approval for $1,250.50 now") = Some (Dec 12505 1)
  /\ ApprovalRequest.amount_of (js "need approval for $,") = Some NaN
  /\ parseFloat (js "9007199254740992") = Dec 9007199254740992 0
  /\ parseFloat (js "9007199254740993") = Dec 9007199254740992 0.
Proof.
  split; [|split; [|split; [|split]]].
  - apply (proj1 (proj2 (proj2 (proj2 amount_spec)))
             (js "need approval for $1,250.50 now") (js "$1,250.50"));
      [vm_compute; reflexivity|discriminate].
  - vm_compute. reflexivity.
  - apply (proj1 (proj2 (proj2 (proj2 amount_spec))) (js "need approval for $,") (js "$,"));
      vm_compute; reflexivity.
  - apply (proj2 (proj2 (proj2 (proj2 amount_spec))) (js "9007199254740992"));
      [discriminate|vm_compute; reflexivity|vm_compute; discriminate].
  - vm_compute. reflexivity.
Defined.




(** C9. Classifying the same input twice, one call after the other, gives
    the same result, whatever RegExp objects the store holds before the
    first call and whatever their [lastIndex] is: both results are what the
    function [detectIntent] gives for the input, and the first call leaves
    every object of the store as it was, the objects of its own literals
    being all it adds. *)
Theorem detectIntent_deterministic (s : str) (h : store) :
  let (first, h1) := Stateful.detectIntent s h in
  let (second, _) := Stateful.detectIntent s h1 in
  first = second /\ first = detectIntent s /\ exists new, h1 = h ++ new.
Proof.
  destruct (detectIntent_same s h) as [new1 E1]. rewrite E1.
  destruct (detectIntent_same s (h ++ new1)) as [new2 E2]. rewrite E2.
  split; [reflexivity|]. split; [reflexivity|]. exists new1. reflexivity.
Qed.

(** C10. [detectIntent] trims its argument before anything else: classifying
    [x] and classifying [x.trim()] give the same result, and two inputs with
    the same trimmed form are classified alike. *)
Theorem detectIntent_trim :
  (forall x, detectIntent x = detectIntent (trim x))
  /\ (forall x y, trim x = trim y -> detectIntent x = detectIntent y).
Proof.
  split.
  - intros x. unfold detectIntent. rewrite trim_idem. reflexivity.
  - intros x y E. unfold detectIntent. rewrite E. reflexivity.
Qed.

Lemma detectIntent_trim_witness :
  trim (js "  status ") = trim (js "status")
  /\ detectIntent (js "  status ") = detectIntent (js "status").
Proof.
  assert (E : trim (js "  status ") = trim (js "status")) by (vm_compute; reflexivity).
  split; [exact E|].
  exact (proj2 detectIntent_trim (js "  status ") (js "status") E).
Defined.

(** * Further properties *)

(** ** The command line *)

Lemma str_eqb_eq (a b : str) : str_eqb a b = true <-> a = b.
Proof.
  revert b. induction a as [|c a IH]; intros [|d b]; cbn [str_eqb];
    try (split; [reflexivity|reflexivity]); try (split; discriminate).
  rewrite andb_true_iff, N.eqb_eq, IH. split.
  - intros [-> ->]. reflexivity.
  - intros E. inversion E. auto.
Qed.

Lemma str_eqb_refl (a : str) : str_eqb a a = true.
Proof. apply str_eqb_eq. reflexivity. Qed.

Lemma str_eqb_neq (a b : str) : a <> b -> str_eqb a b = false.
Proof.
  intros H. destruct (str_eqb a b) eqn:E; [|reflexivity].
  apply str_eqb_eq in E. contradiction.
Qed.

Lemma startsWith_nil (a : str) : startsWith a [] = true.
Proof. destruct a; reflexivity. Qed.

(** A plain word is neither the separator nor a flag. *)
Lemma plain_word (a : str) :
  plain a = true ->
  str_eqb a (js "--") = false /\ startsWith a (js "--") = false
  /\ startsWith a (js "-") = false.
Proof.
  unfold plain. destruct a as [|c a]; [intros _; repeat split|].
  cbn. rewrite startsWith_nil.
  destruct (c =? 45)%N; [discriminate|]. intros _. repeat split.
Qed.

Lemma parse_loop_word (a : str) (rest args : list str) (fl : flags) :
  plain a = true ->
  parse_loop (a :: rest) args fl = parse_loop rest (args ++ [a]) fl.
Proof.
  intros H. destruct (plain_word a H) as [H1 [H2 H3]].
  cbn [parse_loop]. rewrite H1, H2, H3. reflexivity.
Qed.

Lemma indexOf_app (k v : str) (c : char) :
  indexOf k c = None -> indexOf (k ++ c :: v) c = Some (length k).
Proof.
  induction k as [|d k IH]; cbn [indexOf app length].
  - intros _. rewrite N.eqb_refl. reflexivity.
  - destruct (d =? c)%N; [discriminate|].
    destruct (indexOf k c); [discriminate|]. intros _. rewrite IH; reflexivity.
Qed.

(** [--key=value] sets [key] to everything after the first "=", and takes
    nothing from what follows. *)
Lemma parse_loop_assign (k v : str) (rest args : list str) (fl : flags) :
  indexOf k (ch "=") = None ->
  parse_loop (render (Assign k v) :: rest) args fl
  = parse_loop rest args (set_flag k (FValue v) fl).
Proof.
  intros H. cbn [render].
  assert (Eb : str_eqb (k ++ ch "=" :: v) [] = false) by (destruct k; reflexivity).
  assert (Ei : indexOf (k ++ ch "=" :: v) (ch "=") = Some (length k))
    by (apply indexOf_app; exact H).
  assert (Es : skipn (S (length k)) (k ++ ch "=" :: v) = v).
  { replace (k ++ ch "=" :: v) with ((k ++ [ch "="]) ++ v)
      by (rewrite <- app_assoc; reflexivity).
    apply skipn_length_app. rewrite length_app. cbn [length]. lia. }
  assert (Ef : firstn (length k) (k ++ ch "=" :: v) = k)
    by (apply firstn_length_app; reflexivity).
  revert Eb Ei Es Ef. generalize (k ++ ch "=" :: v). intros body Eb Ei Es Ef.
  change (js "--" ++ body) with (45%N :: 45%N :: body).
  cbn [parse_loop].
  change (str_eqb (45%N :: 45%N :: body) (js "--")) with (str_eqb body []).
  rewrite Eb.
  change (startsWith (45%N :: 45%N :: body) (js "--")) with (startsWith body []).
  rewrite startsWith_nil.
  change (indexOf (45%N :: 45%N :: body) (ch "="))
    with (match match indexOf body (ch "=") with Some i => Some (S i) | None => None end
          with Some i => Some (S i) | None => None end).
  rewrite Ei. unfold slice.
  change (skipn 2 (45%N :: 45%N :: body)) with body.
  change (skipn (S (S (S (length k)))) (45%N :: 45%N :: body))
    with (skipn (S (length k)) body).
  replace (S (S (length k)) - 2) with (length k) by lia.
  rewrite Es, Ef. reflexivity.
Qed.

Lemma parse_loop_items (l : list item) :
  (forall i, In i l -> typable i) ->
  forall args fl,
    parse_loop (map render l) args fl = (args ++ words_of l, assigns_of l fl).
Proof.
  induction l as [|i l IH]; intros H args fl.
  - cbn. rewrite app_nil_r. reflexivity.
  - assert (Hi : typable i) by (apply H; left; reflexivity).
    assert (Hl : forall j, In j l -> typable j) by (intros j Hj; apply H; right; exact Hj).
    destruct i as [a|k v]; cbn [map typable] in *.
    + cbn [render]. rewrite parse_loop_word by exact Hi. rewrite (IH Hl).
      cbn [words_of assigns_of]. rewrite <- app_assoc. reflexivity.
    + destruct Hi as [Hk Hp]. rewrite parse_loop_assign by exact Hk.
      unfold set_flag. rewrite Hp. rewrite (IH Hl). reflexivity.
Qed.

(** X1. What is typed as plain words and [--key=value] items is read back:
    the words, in their order, are the command and its arguments, and the
    flags are the assignments, the latest first.  A word is plain when it does
    not start with a dash; a key holds no "=" and is not "__proto__". *)
Theorem parseArgs_items (node script : str) (l : list item) :
  (forall i, In i l -> typable i) ->
  parseArgs (node :: script :: map render l)
  = Parsed (hd [] (words_of l)) (tl (words_of l)) (assigns_of l []).
Proof.
  intros H. unfold parseArgs. cbn [skipn].
  rewrite (parse_loop_items l H). cbn [app].
  destruct (words_of l); reflexivity.
Qed.

Lemma parseArgs_items_witness :
  parseArgs [js "node"; js "beeboo"; js "run"; js "--title=a=b"; js "show approvals"]
  = Parsed (js "run") [js "show approvals"] [(js "title", FValue (js "a=b"))].
Proof.
  apply (parseArgs_items (js "node") (js "beeboo")
           [Word (js "run"); Assign (js "title") (js "a=b"); Word (js "show approvals")]).
  intros i [<-|[<-|[<-|[]]]]; cbn [typable]; try split; vm_compute; reflexivity.
Defined.

Lemma parse_loop_separator (n : nat) :
  forall pre post args fl,
    length pre <= n -> ~ In (js "--") pre ->
    parse_loop (pre ++ js "--" :: post) args fl
    = (fst (parse_loop pre args fl) ++ post, snd (parse_loop pre args fl)).
Proof.
  induction n as [|n IH]; intros pre post args fl Hn Hpre.
  - destruct pre; [|cbn in Hn; lia]. cbn [app parse_loop fst snd].
    rewrite str_eqb_refl. reflexivity.
  - destruct pre as [|arg rest]; [cbn [app parse_loop fst snd]; rewrite str_eqb_refl; reflexivity|].
    assert (Harg : str_eqb arg (js "--") = false).
    { apply str_eqb_neq. intros E. apply Hpre. left. exact E. }
    assert (Hrest : ~ In (js "--") rest) by (intros E; apply Hpre; right; exact E).
    assert (Lrest : length rest <= n) by (cbn in Hn; lia).
    assert (Look : forall key,
      match rest ++ js "--" :: post with
      | next :: rest' =>
          if value_follows (rest ++ js "--" :: post)
          then parse_loop rest' args (set_flag key (FValue next) fl)
          else parse_loop (rest ++ js "--" :: post) args (set_flag key FTrue fl)
      | [] => parse_loop (rest ++ js "--" :: post) args (set_flag key FTrue fl)
      end
      = (fst (match rest with
              | next :: rest' =>
                  if value_follows rest
                  then parse_loop rest' args (set_flag key (FValue next) fl)
                  else parse_loop rest args (set_flag key FTrue fl)
              | [] => parse_loop rest args (set_flag key FTrue fl)
              end) ++ post,
         snd (match rest with
              | next :: rest' =>
                  if value_follows rest
                  then parse_loop rest' args (set_flag key (FValue next) fl)
                  else parse_loop rest args (set_flag key FTrue fl)
              | [] => parse_loop rest args (set_flag key FTrue fl)
              end))).
    { intros key. destruct rest as [|next rest'].
      - cbn [app value_follows]. change (startsWith (js "--") (js "-")) with true.
        cbn [negb]. apply (IH [] post); [cbn; lia|intros []].
      - cbn [app value_follows]. destruct (negb (startsWith next (js "-"))).
        + apply IH; [cbn in Lrest; lia|]. intros E. apply Hrest. right. exact E.
        + apply (IH (next :: rest')); assumption. }
    cbn [app parse_loop]. rewrite Harg.
    destruct (startsWith arg (js "--")).
    + destruct (indexOf arg (ch "=")); [apply IH; assumption|]. apply Look.
    + destruct (startsWith arg (js "-") && (length arg =? 2)).
      * destruct (str_eqb (skipn 1 arg) (js "v")); [apply IH; assumption|].
        destruct (str_eqb (skipn 1 arg) (js "h")); [apply IH; assumption|].
        destruct (str_eqb (skipn 1 arg) (js "j")); [apply IH; assumption|].
        apply Look.
      * apply IH; assumption.
Qed.

(** X2. Everything after the first [--] is positional, as it stands: parsing
    what comes before the separator gives the flags, and the positional
    arguments are those it gives followed by all that comes after. *)
Theorem parseArgs_separator (pre post : list str) :
  ~ In (js "--") pre ->
  parse_loop (pre ++ js "--" :: post) [] []
  = (fst (parse_loop pre [] []) ++ post, snd (parse_loop pre [] []))
  /\ forall node script,
       given (parseArgs (node :: script :: pre ++ js "--" :: post))
       = given (parseArgs (node :: script :: pre)).
Proof.
  intros H.
  assert (E : parse_loop (pre ++ js "--" :: post) [] []
              = (fst (parse_loop pre [] []) ++ post, snd (parse_loop pre [] [])))
    by (apply (parse_loop_separator (n := length pre)); [lia|exact H]).
  split; [exact E|].
  intros node script. unfold parseArgs. cbn [skipn]. rewrite E.
  destruct (parse_loop pre [] []) as [a f]. cbn [fst snd].
  destruct a, post; reflexivity.
Qed.

Lemma parseArgs_separator_witness :
  parse_loop ([js "run"; js "--json"] ++ js "--" :: [js "--not-a-flag"; js "-x"]) [] []
  = ([js "run"; js "--not-a-flag"; js "-x"], [(js "json", FTrue)]).
Proof.
  refine (proj1 (@parseArgs_separator [js "run"; js "--json"] [js "--not-a-flag"; js "-x"] _)).
  intros [E|[E|[]]]; vm_compute in E; discriminate E.
Defined.

Lemma subseq_refl (A : Type) (l : list A) : subseq l l.
Proof. induction l; constructor; assumption. Qed.

Lemma parse_loop_subseq (n : nat) :
  forall raw args fl,
    length raw <= n ->
    exists more, fst (parse_loop raw args fl) = args ++ more /\ subseq more raw.
Proof.
  induction n as [|n IH]; intros raw args fl Hn.
  - destruct raw; [|cbn in Hn; lia]. exists []. cbn. rewrite app_nil_r.
    split; [reflexivity|constructor].
  - destruct raw as [|arg rest].
    { exists []. cbn. rewrite app_nil_r. split; [reflexivity|constructor]. }
    assert (Lrest : length rest <= n) by (cbn in Hn; lia).
    assert (Skip : forall fl',
      exists more, fst (parse_loop rest args fl') = args ++ more /\ subseq more (arg :: rest)).
    { intros fl'. destruct (IH rest args fl' Lrest) as [more [E S]].
      exists more. split; [exact E|]. constructor. exact S. }
    assert (Look : forall key,
      exists more,
        fst (match rest with
             | next :: rest' =>
                 if value_follows rest
                 then parse_loop rest' args (set_flag key (FValue next) fl)
                 else parse_loop rest args (set_flag key FTrue fl)
             | [] => parse_loop rest args (set_flag key FTrue fl)
             end) = args ++ more /\ subseq more (arg :: rest)).
    { intros key. destruct rest as [|next rest']; [apply Skip|].
      destruct (value_follows (next :: rest')); [|apply Skip].
      destruct (IH rest' args (set_flag key (FValue next) fl)) as [more [E S]];
        [cbn in Lrest; lia|].
      exists more. split; [exact E|]. do 2 constructor. exact S. }
    cbn [parse_loop].
    destruct (str_eqb arg (js "--")).
    + exists rest. cbn [fst]. split; [reflexivity|]. constructor. apply subseq_refl.
    + destruct (startsWith arg (js "--")).
      * destruct (indexOf arg (ch "=")); [apply Skip|apply Look].
      * destruct (startsWith arg (js "-") && (length arg =? 2)).
        -- destruct (str_eqb (skipn 1 arg) (js "v")); [apply Skip|].
           destruct (str_eqb (skipn 1 arg) (js "h")); [apply Skip|].
           destruct (str_eqb (skipn 1 arg) (js "j")); [apply Skip|].
           apply Look.
        -- destruct (IH rest (args ++ [arg]) fl Lrest) as [more [E S]].
           exists (arg :: more). rewrite E, <- app_assoc. split; [reflexivity|].
           apply subseq_take. exact S.
Qed.

(** X3. [parseArgs] invents no positional argument and keeps their order: the
    command followed by its arguments is what is left of the typed arguments
    when some of them are taken out, and with no positional argument the
    command is the empty string. *)
Theorem parseArgs_subseq (argv : list str) :
  exists words,
    subseq words (skipn 2 argv)
    /\ command (parseArgs argv) = hd [] words
    /\ positional (parseArgs argv) = tl words.
Proof.
  unfold parseArgs.
  destruct (@parse_loop_subseq (length (skipn 2 argv)) (skipn 2 argv) [] [] (le_n _))
    as [more [E S]].
  destruct (parse_loop (skipn 2 argv) [] []) as [a f]. cbn [fst app] in E. subst a.
  exists more. split; [exact S|]. destruct more; split; reflexivity.
Qed.

(** ** Patterns anchored at the start, and what a match went through *)

Lemma exec_from_bol (re : RegExp) (r' : regex) :
  pattern re = Seq Bol r' ->
  forall aft bef, bef <> [] -> exec_from re bef aft = None.
Proof.
  intros Hp. induction aft as [|c aft IH]; intros bef Hb; rewrite exec_from_eq, Hp;
    cbn [rmatch before is_nil]; destruct bef as [|b bef]; try congruence; cbn [is_nil].
  - reflexivity.
  - rewrite IH by discriminate. reflexivity.
Qed.

Lemma str_match_bol (re : RegExp) (r' : regex) (s : str) :
  pattern re = Seq Bol r' ->
  str_match s re
  = option_map (MatchResult [])
               (rmatch (ignoreCase re) (Group 0 (pattern re)) Some (MState [] s [])).
Proof.
  intros Hp. unfold str_match. rewrite exec_from_eq.
  destruct (rmatch (ignoreCase re) (Group 0 (pattern re)) Some (MState [] s []));
    [reflexivity|].
  destruct s as [|c s]; [reflexivity|].
  rewrite (@exec_from_bol re r' Hp) by discriminate. reflexivity.
Qed.

Lemma test_bol (re : RegExp) (r' : regex) (s : str) :
  pattern re = Seq Bol r' ->
  test re s = succeeds (rmatch (ignoreCase re) (Group 0 (pattern re)) Some (MState [] s [])).
Proof.
  intros Hp. unfold test. change (exec_from re [] s) with (str_match s re).
  rewrite (@str_match_bol re r' s Hp).
  destruct (rmatch (ignoreCase re) (Group 0 (pattern re)) Some (MState [] s []));
    reflexivity.
Qed.

Lemma prefix_match_firstn (ic : bool) (v s : str) :
  prefix_match ic v s = true ->
  length (firstn (length v) s) = length v
  /\ prefix_match ic v (firstn (length v) s) = true.
Proof.
  revert s. induction v as [|c v IH]; intros s H; [split; reflexivity|].
  destruct s as [|d s]; [discriminate|].
  cbn [prefix_match] in H. apply andb_prop in H. destruct H as [Hc H].
  destruct (IH s H) as [Hl Hp]. cbn [length firstn prefix_match].
  rewrite Hc, Hp, Hl. split; reflexivity.
Qed.

(** A match of one of several words went over a spelling of one of them. *)
Lemma words_inv (ic : bool) (vs : list str) (k : cont) (x z : mstate) :
  vs <> [] ->
  rmatch ic (alts (map (@lit) vs)) k x = Some z ->
  exists y v p,
    In v vs /\ k y = Some z /\ after x = p ++ after y
    /\ length p = length v /\ prefix_match ic v p = true.
Proof.
  assert (One : forall v, rmatch ic (lit v) k x = Some z ->
            exists y p, k y = Some z /\ after x = p ++ after y
                        /\ length p = length v /\ prefix_match ic v p = true).
  { intros v H. destruct x as [bef aft cs]. rewrite rmatch_lit in H.
    destruct (prefix_match ic v aft) eqn:E; [|discriminate].
    destruct (prefix_match_firstn ic v aft E) as [Hl Hp].
    eexists. exists (firstn (length v) aft). split; [exact H|].
    cbn [after]. rewrite firstn_skipn. auto. }
  induction vs as [|v vs IH]; intros Hne H; [congruence|].
  destruct vs as [|u vs].
  - cbn [map alts] in H. destruct (One v H) as [y [p [H1 [H2 [H3 H4]]]]].
    exists y, v, p. cbn [In]. auto.
  - change (alts (map (@lit) (v :: u :: vs)))
      with (Alt (lit v) (alts (map (@lit) (u :: vs)))) in H.
    cbn [rmatch] in H. destruct (rmatch ic (lit v) k x) as [z'|] eqn:E.
    + rewrite H in E. destruct (One v E) as [y [p [H1 [H2 [H3 H4]]]]].
      exists y, v, p. cbn [In]. auto.
    + destruct (IH ltac:(discriminate) H) as [y [v' [p [H0 [H1 [H2 [H3 H4]]]]]]].
      exists y, v', p. split; [right; exact H0|auto].
Qed.

(** A repetition of one character class went over a run of the class. *)
Lemma char_run_inv (p : char -> bool) (g : bool) (n : nat) :
  forall (k : cont) (x z : mstate),
    repeat_matcher (char_matcher p) g n k x = Some z ->
    exists y run, k y = Some z /\ after x = run ++ after y /\ forallb p run = true.
Proof.
  induction n as [|n IH]; intros k x z H; cbn [repeat_matcher] in H.
  - exists x, []. auto.
  - assert (Step : forall z0,
             char_matcher p
               (fun y => if no_progress x y then None
                         else repeat_matcher (char_matcher p) g n k y) x = Some z0 ->
             exists y run, k y = Some z0 /\ after x = run ++ after y
                           /\ forallb p run = true).
    { intros z0. unfold char_matcher. destruct (after x) as [|c rest] eqn:Ex; [discriminate|].
      destruct (p c) eqn:Ec; [|discriminate].
      destruct (no_progress x (advance c x rest)); [discriminate|].
      intros H'. destruct (IH _ _ _ H') as [y [run [H1 [H2 H3]]]].
      exists y, (c :: run). cbn [after advance] in H2. cbn [forallb app].
      rewrite Ec, H3, H2. auto. }
    destruct g.
    + destruct (char_matcher p _ x) as [z'|] eqn:E.
      * apply Step. exact H.
      * exists x, []. auto.
    + destruct (k x) as [z'|] eqn:E.
      * exists x, []. rewrite <- H. auto.
      * exact (Step _ H).
Qed.

Lemma plus_class_inv (ic : bool) (l : list atom) (k : cont) (x z : mstate) :
  rmatch ic (Plus true (Cls l)) k x = Some z ->
  exists y run,
    k y = Some z /\ after x = run ++ after y
    /\ run <> [] /\ forallb (class_matches l) run = true.
Proof.
  unfold Plus. cbn [rmatch]. unfold char_matcher at 1.
  destruct (after x) as [|c rest] eqn:Ex; [discriminate|].
  destruct (class_matches l c) eqn:Ec; [|discriminate].
  intros H. destruct (char_run_inv _ _ _ _ _ H) as [y [run [H1 [H2 H3]]]].
  exists y, (c :: run). cbn [after advance] in H2. cbn [forallb app].
  rewrite Ec, H3, H2. repeat split; [exact H1|discriminate].
Qed.

Lemma forallb_same (p q : char -> bool) (s : str) :
  (forall c, p c = q c) -> forallb p s = forallb q s.
Proof. intros H. induction s as [|c s IH]; [reflexivity|]. cbn. rewrite H, IH. reflexivity. Qed.

(** What "<verb> <token>" at the start of a text is made of, the token
    taken as far as it goes. *)
Lemma verb_token_inv (vs : list str) (f : mstate -> mstate) (k : cont)
      (s : str) (z : mstate) :
  vs <> [] ->
  (forall y, after (f y) = after y) ->
  rmatch true (alts (map (@lit) vs))
         (fun y => rmatch true sp1 (rmatch true tok k) (f y)) (MState [] s []) = Some z ->
  exists v p ws t rest,
    In v vs /\ spells v p /\ s = p ++ ws ++ t ++ rest
    /\ (ws <> [] /\ forallb is_space ws = true)
    /\ (t <> [] /\ forallb nonspace t = true)
    /\ head_is nonspace rest = false.
Proof.
  intros Hne Hf H.
  destruct (words_inv _ _ _ Hne H) as [y [v [p [Hv [H1 [H2 [H3 H4]]]]]]].
  destruct (plus_class_inv _ _ _ _ H1) as [y1 [ws [H5 [H6 [H7 H8]]]]].
  destruct (plus_class_inv _ _ _ _ H5) as [y2 [t0 [_ [H9 [H10 H11]]]]].
  rewrite Hf in H6. cbn [after] in H2.
  exists v, p, ws, (t0 ++ take_while nonspace (after y2)), (drop_while nonspace (after y2)).
  split; [exact Hv|]. split; [split; assumption|].
  split.
  { rewrite <- app_assoc, <- take_drop_while, <- H9, <- H6. exact H2. }
  split.
  { split; [exact H7|]. rewrite <- H8. apply forallb_same. intros c. symmetry. apply space_class. }
  split.
  { split; [destruct t0; [congruence|discriminate]|].
    rewrite forallb_app, take_while_all, andb_true_r. rewrite <- H11.
    apply forallb_same. intros c. symmetry. apply nonspace_class. }
  apply drop_while_head.
Qed.

(** ** "deny <token>" and "reject <token>" *)

Section DenyToken.

Variables v p ws t rest : str.
Hypothesis deny_v : In v [js "deny"; js "reject"].
Hypothesis deny_p : spells v p.
Hypothesis ws_space : ws <> [] /\ forallb is_space ws = true.
Hypothesis t_token : t <> [] /\ forallb nonspace t = true.
Hypothesis rest_sep : head_is nonspace rest = false.

Let s := p ++ ws ++ t ++ rest.

Lemma deny_apart (u : str) :
  In u [js "approve"; js "deny"; js "reject"] -> u <> v ->
  prefix_match true u (p ++ ws ++ t ++ rest) = false.
Proof.
  intros Hu Hne. rewrite prefix_match_canon, map_app, (spells_canon deny_p).
  cbn [In] in deny_v, Hu.
  destruct deny_v as [<-|[<-|[]]]; destruct Hu as [<-|[<-|[<-|[]]]];
    try congruence; reflexivity.
Qed.

Lemma approve_not_here : rule_test Decide.approve s = false.
Proof.
  cbn [rule_test Decide.approve].
  rewrite (@test_bol Decide.approve_test _ s eq_refl).
  unfold Decide.approve_test, reI, w. cbn [ignoreCase pattern seqs rmatch before is_nil].
  rewrite rmatch_lit. unfold s. rewrite deny_apart; [reflexivity|cbn; auto|].
  intros <-. cbn [In] in deny_v. destruct deny_v as [E|[E|[]]]; discriminate E.
Qed.

Lemma tok_run (k : cont) (bef : str) (cs : list (nat * str)) (z : mstate) :
  k (MState (rev t ++ bef) rest cs) = Some z ->
  rmatch true tok k (MState bef (t ++ rest) cs) = Some z.
Proof.
  intros Hk. destruct t_token as [Ht1 Ht2].
  eapply plus_run with (p := nonspace); [apply nonspace_class|assumption..].
Qed.

Lemma deny_run (k : cont) (f : mstate -> mstate) (cs0 : list (nat * str)) (z : mstate) :
  f (MState (rev p ++ []) (ws ++ t ++ rest) []) = MState (rev p ++ []) (ws ++ t ++ rest) cs0 ->
  k (MState (rev ws ++ rev p ++ []) (t ++ rest) cs0) = Some z ->
  rmatch true (alts (map (@lit) [js "deny"; js "reject"]))
         (fun y => rmatch true sp1 k (f y)) (MState [] s []) = Some z.
Proof.
  intros Hf Hk. destruct deny_p as [Hl Hp]. destruct ws_space as [Hw1 Hw2].
  destruct t_token as [Ht1 Ht2]. unfold s.
  rewrite (@rmatch_words_pick true [js "deny"; js "reject"] v p (ws ++ t ++ rest));
    [|exact deny_v|exact Hl|exact Hp|].
  2:{ intros u Hu Hne. apply deny_apart; [right; exact Hu|exact Hne]. }
  rewrite Hf.
  eapply plus_run with (p := is_space);
    [apply space_class|assumption..| |exact Hk].
  destruct t as [|c t']; [congruence|]. cbn [forallb] in Ht2.
  apply andb_prop in Ht2. destruct Ht2 as [Hc _]. unfold nonspace in Hc.
  cbn [app head_is]. destruct (is_space c); [discriminate|reflexivity].
Qed.

Lemma deny_test_holds : rule_test Decide.deny s = true.
Proof.
  cbn [rule_test Decide.deny].
  rewrite (@test_bol Decide.deny_test _ s eq_refl).
  unfold Decide.deny_test, reI. cbn [ignoreCase pattern seqs rmatch before is_nil].
  erewrite (@deny_run _ (fun y => set_cap 1 (consumed (MState [] s []) y) y));
    [reflexivity|reflexivity|].
  apply tok_run. reflexivity.
Qed.

Lemma deny_id_found : Decide.id_of (str_match s Decide.deny_id) = Some t.
Proof.
  rewrite (@str_match_bol Decide.deny_id _ s eq_refl).
  unfold Decide.deny_id, reI. cbn [ignoreCase pattern seqs rmatch before is_nil].
  erewrite (@deny_run _ (fun y => y) []); [|reflexivity|apply tok_run; reflexivity].
  unfold Decide.id_of, capture.
  cbn [option_map final set_cap caps lookup Nat.eqb].
  rewrite consumed_app. reflexivity.
Qed.

End DenyToken.

(** The converse of the two rules of decisions: what the input of a decision is
    made of. *)
Lemma decision_inv (input : str) (d : data) :
  detectIntent input = Ok (Some (approvals_decide, d)) ->
  exists p ws t rest,
    trim input = p ++ ws ++ t ++ rest
    /\ (ws <> [] /\ forallb is_space ws = true)
    /\ (t <> [] /\ forallb nonspace t = true)
    /\ head_is nonspace rest = false
    /\ ((spells (js "approve") p /\ d = Decide (Some t) (js "approved"))
        \/ ((spells (js "deny") p \/ spells (js "reject") p)
            /\ d = Decide (Some t) (js "denied"))).
Proof.
  intros H. apply detectIntent_inv in H.
  destruct H as [[r [Hin [Ht [_ [Hi Hd]]]]]|[_ [Hi _]]]; [|discriminate Hi].
  unfold INTENT_RULES in Hin. cbn [In] in Hin.
  repeat (destruct Hin as [<-|Hin]; [try discriminate Hi|]); [| |destruct Hin].
  - (* approve *)
    cbn [rule_test Decide.approve] in Ht. apply andb_prop in Ht. destruct Ht as [Ht _].
    rewrite (@test_bol Decide.approve_test _ (trim input) eq_refl) in Ht.
    unfold Decide.approve_test, reI, w in Ht.
    cbn [ignoreCase pattern seqs rmatch before is_nil] in Ht.
    match type of Ht with succeeds ?m = true => destruct m as [z|] eqn:Em; [|discriminate] end.
    destruct (@verb_token_inv [js "approve"] (fun y => y) _ (trim input) z
                ltac:(discriminate) (fun y => eq_refl) Em)
      as [v [p [ws [t [rest [Hv [Hp [Es [Hws [Htk Hr]]]]]]]]]].
    destruct Hv as [<-|[]].
    exists p, ws, t, rest. repeat (split; [assumption|]).
    left. split; [exact Hp|].
    cbn [rule_extract Decide.approve] in Hd. rewrite Es in Hd.
    rewrite (@approve_id_found p ws t rest Hp Hws Htk Hr) in Hd. inversion Hd. reflexivity.
  - (* deny *)
    cbn [rule_test Decide.deny] in Ht.
    rewrite (@test_bol Decide.deny_test _ (trim input) eq_refl) in Ht.
    unfold Decide.deny_test, reI in Ht.
    cbn [ignoreCase pattern seqs rmatch before is_nil] in Ht.
    match type of Ht with succeeds ?m = true => destruct m as [z|] eqn:Em; [|discriminate] end.
    destruct (@verb_token_inv [js "deny"; js "reject"]
                (fun y => set_cap 1 (consumed (MState [] (trim input) []) y) y)
                _ (trim input) z ltac:(discriminate) (fun y => eq_refl) Em)
      as [v [p [ws [t [rest [Hv [Hp [Es [Hws [Htk Hr]]]]]]]]]].
    exists p, ws, t, rest. repeat (split; [assumption|]).
    right. split; [destruct Hv as [<-|[<-|[]]]; auto|].
    cbn [rule_extract Decide.deny] in Hd. rewrite Es in Hd.
    rewrite (@deny_id_found v p ws t rest Hv Hp Hws Htk Hr) in Hd. inversion Hd. reflexivity.
Qed.

(** ** Words searched for anywhere in the text *)

Lemma exec_from_some (re : RegExp) (a : str) :
  forall bef b y,
    rmatch (ignoreCase re) (Group 0 (pattern re)) Some (MState (rev a ++ bef) b []) = Some y ->
    exists r, exec_from re bef (a ++ b) = Some r.
Proof.
  induction a as [|c a IH]; intros bef b y H; rewrite exec_from_eq; cbn [rev app] in *.
  - rewrite H. eexists. reflexivity.
  - destruct (rmatch (ignoreCase re) (Group 0 (pattern re)) Some
                     (MState bef (c :: a ++ b) [])); [eexists; reflexivity|].
    rewrite <- app_assoc in H. cbn [app] in H.
    destruct (IH (c :: bef) b y H) as [r E]. rewrite E. eexists. reflexivity.
Qed.

Lemma occurs_split (ic : bool) (v s : str) :
  occurs ic v s = true -> exists a b, s = a ++ b /\ prefix_match ic v b = true.
Proof.
  induction s as [|c s IH]; cbn [occurs]; intros H; apply orb_prop in H.
  - destruct H as [H|H]; [|discriminate]. exists [], []. auto.
  - destruct H as [H|H]; [exists [], (c :: s); auto|].
    destruct (IH H) as [a [b [E Hp]]]. exists (c :: a), b. rewrite E. auto.
Qed.

Lemma words_found (ic : bool) (vs : list str) (v : str) (k : cont) (x : mstate) :
  In v vs -> prefix_match ic v (after x) = true ->
  (forall y, k y <> None) ->
  rmatch ic (alts (map (@lit) vs)) k x <> None.
Proof.
  intros Hv Hp Hk.
  assert (One : rmatch ic (lit v) k x <> None).
  { destruct x as [bef aft cs]. rewrite rmatch_lit. cbn [after] in Hp. rewrite Hp. apply Hk. }
  induction vs as [|u vs IH]; [destruct Hv|].
  destruct vs as [|u' vs].
  - destruct Hv as [->|[]]. exact One.
  - change (alts (map (@lit) (u :: u' :: vs)))
      with (Alt (lit u) (alts (map (@lit) (u' :: vs)))).
    cbn [rmatch]. destruct (rmatch ic (lit u) k x) eqn:E; [discriminate|].
    destruct Hv as [->|Hv]; [contradiction|]. apply IH. exact Hv.
Qed.

(** Testing for one of several words, with no anchor and no boundary, is
    looking for an occurrence of one of them. *)
Lemma test_words (ic : bool) (n : nat) (vs : list str) (s : str) :
  vs <> [] ->
  test (Re (Group n (alts (map (@lit) vs))) ic false) s
  = existsb (fun v => occurs ic v s) vs.
Proof.
  intros Hne. destruct (existsb (fun v => occurs ic v s) vs) eqn:E.
  - apply existsb_exists in E. destruct E as [v [Hv Ho]].
    destruct (occurs_split ic v s Ho) as [a [b [-> Hp]]].
    assert (M : rmatch ic (Group 0 (Group n (alts (map (@lit) vs)))) Some
                       (MState (rev a ++ []) b []) <> None).
    { cbn [rmatch]. apply (@words_found ic vs v); [exact Hv|exact Hp|discriminate]. }
    destruct (rmatch ic (Group 0 (Group n (alts (map (@lit) vs)))) Some
                     (MState (rev a ++ []) b [])) as [y|] eqn:Ey; [|congruence].
    destruct (@exec_from_some (Re (Group n (alts (map (@lit) vs))) ic false) a [] b y Ey)
      as [r Er].
    unfold test. rewrite Er. reflexivity.
  - apply test_words_false; [exact Hne|]. intros v Hv. exact (existsb_false _ _ E v Hv).
Qed.

Lemma test_word (ic : bool) (v s : str) :
  test (Re (lit v) ic false) s = occurs ic v s.
Proof.
  rewrite <- (orb_false_r (occurs ic v s)).
  change (occurs ic v s || false) with (existsb (fun u => occurs ic u s) [v]).
  rewrite <- (@test_words ic 1 [v] s) by discriminate.
  apply test_erase; reflexivity.
Qed.

(** ** What the result tells about the input *)

(** The cases of a rule of the table. *)
Ltac each_rule Hin :=
  unfold INTENT_RULES in Hin; cbn [In] in Hin;
  repeat (destruct Hin as [<-|Hin]); [..|destruct Hin].

Lemma rule_fits (r : rule) (s : str) (d : data) :
  In r INTENT_RULES -> rule_extract r s = Ok d -> fits (rule_intent r) d = true.
Proof.
  intros Hin Hd. each_rule Hin; cbn [rule_extract rule_intent] in *;
    try (inversion Hd; reflexivity).
  destruct (knowledge_create_total s) as [t [c E]].
  change (rule_extract KnowledgeCreate.create s) with (KnowledgeCreate.extract s) in Hd.
  rewrite E in Hd. inversion Hd. reflexivity.
Qed.

Lemma detected_fits (input : str) (i : intent) (d : data) :
  detectIntent input = Ok (Some (i, d)) -> fits i d = true.
Proof.
  intros H. apply detectIntent_inv in H.
  destruct H as [[r [Hin [_ [_ [<- Hd]]]]]|[_ [-> ->]]]; [|reflexivity].
  exact (@rule_fits r (trim input) d Hin Hd).
Qed.

(** A decision "approved" comes from an input without the words that the
    first rule excludes. *)
Lemma approved_excludes (input : str) (i : intent) (id : option str) :
  detectIntent input = Ok (Some (i, Decide id (js "approved"))) ->
  forall v, In v [js "request"; js "for"; js "need"] -> occurs true v (trim input) = false.
Proof.
  intros H. apply detectIntent_inv in H.
  destruct H as [[r [Hin [Ht [_ [Hi Hd]]]]]|[_ [_ Hd]]]; [|discriminate Hd].
  pose proof (@rule_fits r (trim input) _ Hin Hd) as Hf.
  each_rule Hin; try discriminate Hf.
  - cbn [rule_test Decide.approve] in Ht. apply andb_prop in Ht.
    destruct Ht as [_ Ht]. apply negb_true_iff in Ht.
    unfold Decide.excluded, reI in Ht.
    change (words ["request"; "for"; "need"]%string)
      with (alts (map (@lit) [js "request"; js "for"; js "need"])) in Ht.
    rewrite test_words in Ht by discriminate.
    exact (existsb_false _ _ Ht).
  - cbn [rule_extract Decide.deny] in Hd. inversion Hd.
Qed.

(** X4. The decisions characterised.  [detectIntent] returns a decision
    exactly when the trimmed input is "approve", "deny" or "reject" (in any
    letter case), white space, and a token that is not empty, holds no white
    space and ends at white space or at the end of the input, and, after
    "approve", when the whole input holds none of "request", "for" and
    "need" (in any letter case, also inside a longer word).  The id of the
    decision is that token; the decision is "approved" after "approve" and
    "denied" after the two other verbs. *)
Theorem decision_shape (input : str) (d : data) :
  detectIntent input = Ok (Some (approvals_decide, d))
  <-> exists p ws t rest,
        trim input = p ++ ws ++ t ++ rest
        /\ (ws <> [] /\ forallb is_space ws = true)
        /\ (t <> [] /\ forallb nonspace t = true)
        /\ head_is nonspace rest = false
        /\ ((spells (js "approve") p
             /\ (forall v, In v [js "request"; js "for"; js "need"] ->
                           occurs true v (trim input) = false)
             /\ d = Decide (Some t) (js "approved"))
            \/ ((spells (js "deny") p \/ spells (js "reject") p)
                /\ d = Decide (Some t) (js "denied"))).
Proof.
  split.
  - intros E.
    destruct (decision_inv input E)
      as [p [ws [t [rest [Es [Hws [Ht [Hr Hd]]]]]]]].
    exists p, ws, t, rest. repeat (split; [assumption|]).
    destruct Hd as [[Hp ->]|[Hp ->]]; [left|right; auto].
    split; [exact Hp|]. split; [|reflexivity]. exact (approved_excludes _ E).
  - intros [p [ws [t [rest [Es [Hws [Ht [Hr Hd]]]]]]]].
    unfold detectIntent. rewrite Es in *. unfold INTENT_RULES. cbn [first_rule].
    destruct Hd as [[Hp [Hex ->]]|[Hp ->]].
    + assert (T : rule_test Decide.approve (p ++ ws ++ t ++ rest) = true).
      { cbn [rule_test Decide.approve].
        rewrite (@approve_test_holds p ws t rest Hp Hws Ht Hr).
        unfold Decide.excluded, reI.
        change (words ["request"; "for"; "need"]%string)
          with (alts (map (@lit) [js "request"; js "for"; js "need"])).
        rewrite test_words_false; [reflexivity|discriminate|exact Hex]. }
      rewrite T. cbn [rule_extract rule_intent Decide.approve bind].
      rewrite (@approve_id_found p ws t rest Hp Hws Ht Hr). reflexivity.
    + assert (Hv : exists v, In v [js "deny"; js "reject"] /\ spells v p).
      { destruct Hp as [Hp|Hp]; eexists; (split; [|exact Hp]); cbn [In]; auto. }
      destruct Hv as [v [Hv Hs]].
      rewrite (@approve_not_here v p ws t rest Hv Hs).
      rewrite (@deny_test_holds v p ws t rest Hv Hs Hws Ht Hr).
      cbn [rule_extract rule_intent Decide.deny bind].
      rewrite (@deny_id_found v p ws t rest Hv Hs Hws Ht Hr). reflexivity.
Qed.

(** X5. An input that becomes a knowledge entry holds neither "request"
    nor "approval", in any letter case and anywhere, also inside a longer
    word. *)
Theorem exclusions_hold (input : str) (d : data) :
  detectIntent input = Ok (Some (knowledge_create, d)) ->
  forall v, In v [js "request"; js "approval"] -> occurs true v (trim input) = false.
Proof.
  intros H. apply detectIntent_inv in H.
  destruct H as [[r [Hin [Ht [_ [Hi Hd]]]]]|[_ [Hi _]]]; [|discriminate Hi].
  each_rule Hin; try discriminate Hi.
  cbn [rule_test KnowledgeCreate.create] in Ht. apply andb_prop in Ht.
  destruct Ht as [_ Ht]. apply negb_true_iff in Ht.
  unfold KnowledgeCreate.excluded, reI in Ht.
  change (words ["request"; "approval"]%string)
    with (alts (map (@lit) [js "request"; js "approval"])) in Ht.
  rewrite test_words in Ht by discriminate.
  exact (existsb_false _ _ Ht).
Qed.

Lemma exclusions_hold_witness :
  occurs true (js "request") (trim (js "save the plan: go")) = false
  /\ occurs true (js "approval") (trim (js "save the plan: go")) = false.
Proof.
  assert (H : detectIntent (js "save the plan: go")
              = Ok (Some (knowledge_create, KnowledgeCreate (js "plan") (js "go"))))
    by (vm_compute; reflexivity).
  split; apply (exclusions_hold _ H); cbn [In]; auto.
Defined.

(** X6. For a list of approvals the status is "pending" exactly when the
    letters "pending" occur in the trimmed input, in any letter case and
    anywhere, also inside a longer word; otherwise it is undefined. *)
Theorem approvals_list_status (input : str) (d : data) :
  detectIntent input = Ok (Some (approvals_list, d)) ->
  d = ApprovalsList (if occurs true (js "pending") (trim input)
                     then Some (js "pending") else None).
Proof.
  intros H. apply detectIntent_inv in H.
  destruct H as [[r [Hin [_ [_ [Hi Hd]]]]]|[_ [Hi _]]]; [|discriminate Hi].
  each_rule Hin; try discriminate Hi.
  cbn [rule_extract ApprovalsList.list] in Hd.
  unfold ApprovalsList.pending, reI, w in Hd. rewrite test_word in Hd.
  inversion Hd. reflexivity.
Qed.

Lemma approvals_list_status_witness :
  ApprovalsList (Some (js "pending"))
  = ApprovalsList (if occurs true (js "pending") (trim (js "list approvals, not suspending any"))
                   then Some (js "pending") else None).
Proof.
  apply (@approvals_list_status (js "list approvals, not suspending any")).
  vm_compute. reflexivity.
Defined.

Lemma words_inv_state (ic : bool) (vs : list str) (k : cont) (x z : mstate) :
  vs <> [] ->
  rmatch ic (alts (map (@lit) vs)) k x = Some z ->
  exists v p rest,
    In v vs /\ after x = p ++ rest
    /\ length p = length v /\ prefix_match ic v p = true
    /\ k (MState (rev p ++ before x) rest (caps x)) = Some z.
Proof.
  assert (One : forall v, rmatch ic (lit v) k x = Some z ->
            exists p rest, after x = p ++ rest
                           /\ length p = length v /\ prefix_match ic v p = true
                           /\ k (MState (rev p ++ before x) rest (caps x)) = Some z).
  { intros v H. destruct x as [bef aft cs]. rewrite rmatch_lit in H.
    destruct (prefix_match ic v aft) eqn:E; [|discriminate].
    destruct (prefix_match_firstn ic v aft E) as [Hl Hp].
    exists (firstn (length v) aft), (skipn (length v) aft).
    cbn [after before caps]. rewrite firstn_skipn. auto. }
  induction vs as [|v vs IH]; intros Hne H; [congruence|].
  destruct vs as [|u vs].
  - cbn [map alts] in H. destruct (One v H) as [p [rest [H1 [H2 [H3 H4]]]]].
    exists v, p, rest. cbn [In]. auto.
  - change (alts (map (@lit) (v :: u :: vs)))
      with (Alt (lit v) (alts (map (@lit) (u :: vs)))) in H.
    cbn [rmatch] in H. destruct (rmatch ic (lit v) k x) as [z'|] eqn:E.
    + rewrite H in E. destruct (One v E) as [p [rest [H1 [H2 [H3 H4]]]]].
      exists v, p, rest. cbn [In]. auto.
    + destruct (IH ltac:(discriminate) H) as [v' [p [rest [H0 [H1 [H2 [H3 H4]]]]]]].
      exists v', p, rest. split; [right; exact H0|auto].
Qed.

(** The last character of a spelling of a word that ends with a letter is a
    word character. *)
Lemma spells_last (v p : str) (h : char) :
  spells v p -> hd 0%N (rev v) = h -> v <> [] -> between 97 122 h = true ->
  head_is is_word (rev p) = true.
Proof.
  intros [Hl Hp]. revert p Hl Hp.
  induction v as [|c v IH]; intros p Hl Hp Hh Hne Hb; [congruence|].
  destruct p as [|d p]; [discriminate|].
  cbn [prefix_match] in Hp. apply andb_prop in Hp. destruct Hp as [Hc Hp].
  cbn [length] in Hl. injection Hl as Hl.
  destruct v as [|c' v].
  - destruct p; [|discriminate]. cbn in Hh. subst c. cbn [rev app head_is].
    exact (letter_is_word h d Hb Hc).
  - assert (Hp' : head_is is_word (rev p) = true).
    { apply IH; try assumption; [|discriminate].
      cbn [rev] in Hh |- *. destruct (rev v ++ [c']) eqn:E; [destruct (rev v); discriminate|].
      cbn [app hd] in Hh |- *. exact Hh. }
    cbn [rev]. destruct (rev p) as [|e q]; [discriminate|]. exact Hp'.
Qed.

(** X7. The intent is "status" only for an input that starts with it: the
    trimmed input begins with "status", "health", "check" or "ping" (in any
    letter case), and what follows the word is nothing or starts with a
    character that is not a word character.  The data is then empty. *)
Theorem status_shape (input : str) (d : data) :
  detectIntent input = Ok (Some (status, d)) ->
  d = NoData
  /\ exists v p rest,
       In v [js "status"; js "health"; js "check"; js "ping"]
       /\ spells v p /\ trim input = p ++ rest /\ head_is is_word rest = false.
Proof.
  intros H. apply detectIntent_inv in H.
  destruct H as [[r [Hin [Ht [_ [Hi Hd]]]]]|[_ [Hi _]]]; [|discriminate Hi].
  each_rule Hin; try discriminate Hi.
  cbn [rule_extract Status.check] in Hd. split; [inversion Hd; reflexivity|].
  cbn [rule_test Status.check] in Ht.
  rewrite (@test_bol Status.status_test _ (trim input) eq_refl) in Ht.
  unfold Status.status_test, reI in Ht.
  cbn [ignoreCase pattern seqs rmatch before is_nil] in Ht.
  match type of Ht with succeeds ?m = true => destruct m as [z|] eqn:Em; [|discriminate] end.
  change (words ["status"; "health"; "check"; "ping"]%string)
    with (alts (map (@lit) [js "status"; js "health"; js "check"; js "ping"])) in Em.
  apply words_inv_state in Em; [|discriminate].
  destruct Em as [v [p [rest [Hv [Ea [Hl [Hp Hk]]]]]]].
  exists v, p, rest. cbn [after] in Ea.
  split; [exact Hv|]. split; [split; assumption|]. split; [exact Ea|].
  unfold at_word_boundary, set_cap in Hk. cbn [before after] in Hk.
  assert (Hw : head_is is_word (rev p ++ []) = true).
  { rewrite app_nil_r. cbn [In] in Hv.
    destruct Hv as [<-|[<-|[<-|[<-|[]]]]];
      eapply spells_last; try (split; eassumption); try reflexivity; discriminate. }
  rewrite Hw in Hk. destruct (head_is is_word rest); [discriminate Hk|reflexivity].
Qed.

Lemma status_shape_witness :
  NoData = NoData
  /\ exists v p rest,
       In v [js "status"; js "health"; js "check"; js "ping"]
       /\ spells v p /\ trim (js " Ping? ") = p ++ rest /\ head_is is_word rest = false.
Proof.
  apply (@status_shape (js " Ping? ") NoData). vm_compute. reflexivity.
Defined.

(** ** Keys of knowledge entries *)

Section KeyRuns.

Let p := not_key_char.

Lemma key_run_here (l2 l3 bef : str) :
  l2 <> [] -> forallb p l2 = true -> head_is p l3 = false ->
  exec_with not_key_run bef (l2 ++ l3)
  = Some (MatchResult [] (MState (rev l2 ++ bef) l3 [(0, l2)])).
Proof.
  intros Hne Hall Hhd. destruct l2 as [|c l2]; [congruence|].
  cbn [forallb] in Hall. apply andb_prop in Hall. destruct Hall as [Hc Hall].
  assert (E : not_key_run
                (fun y => Some (set_cap 0 (consumed (MState bef ((c :: l2) ++ l3) []) y) y))
                (MState bef ((c :: l2) ++ l3) [])
              = Some (MState (rev (c :: l2) ++ bef) l3 [(0, c :: l2)])).
  { unfold not_key_run, plus_of, char_matcher at 1. cbn [after app].
    change (negb (key_char c)) with (p c).
    change (char_matcher (fun c0 : char => negb (key_char c0))) with (char_matcher p).
    rewrite Hc. unfold advance. cbn [before caps after].
    erewrite (@repeat_greedy_max p l2 l3 Hall Hhd); [reflexivity| |].
    - rewrite length_app. lia.
    - unfold set_cap. cbn [before after caps rev].
      rewrite <- app_assoc. cbn [app].
      change (c :: l2 ++ l3) with ((c :: l2) ++ l3). rewrite consumed_app. reflexivity. }
  destruct l3 as [|d l3]; cbn [exec_with app] in *; rewrite E; reflexivity.
Qed.

Lemma key_run_none (k : cont) (x : mstate) :
  head_is p (after x) = false -> not_key_run k x = None.
Proof.
  unfold not_key_run, plus_of, char_matcher at 1.
  destruct (after x) as [|c rest]; [reflexivity|]. cbn [head_is].
  change (negb (key_char c)) with (p c). intros ->. reflexivity.
Qed.

Lemma exec_key_run (l1 : str) :
  forall l2 l3 bef,
    forallb key_char l1 = true ->
    l2 <> [] -> forallb p l2 = true -> head_is p l3 = false ->
    exec_with not_key_run bef (l1 ++ l2 ++ l3)
    = Some (MatchResult l1 (MState (rev l2 ++ rev l1 ++ bef) l3 [(0, l2)])).
Proof.
  induction l1 as [|c l1 IH]; intros l2 l3 bef H1 Hne H2 H3.
  - cbn [app rev]. apply key_run_here; assumption.
  - cbn [forallb] in H1. apply andb_prop in H1. destruct H1 as [Hc H1].
    cbn [app exec_with]. rewrite key_run_none.
    2:{ cbn [after head_is]. unfold p, not_key_char. rewrite Hc. reflexivity. }
    rewrite (IH l2 l3 (c :: bef) H1 Hne H2 H3). cbn [skipped final rev].
    rewrite <- !app_assoc. reflexivity.
Qed.

Lemma exec_key_none (l1 : str) :
  forall bef, forallb key_char l1 = true -> exec_with not_key_run bef l1 = None.
Proof.
  induction l1 as [|c l1 IH]; intros bef H1.
  - cbn [exec_with]. rewrite key_run_none; reflexivity.
  - cbn [forallb] in H1. apply andb_prop in H1. destruct H1 as [Hc H1].
    cbn [exec_with]. rewrite key_run_none.
    2:{ cbn [after head_is]. unfold p, not_key_char. rewrite Hc. reflexivity. }
    rewrite IH by exact H1. reflexivity.
Qed.

Lemma collapse_keys (l1 rest : str) (b : bool) :
  forallb key_char l1 = true -> l1 <> [] ->
  collapse b (l1 ++ rest) = l1 ++ collapse false rest.
Proof.
  intros H Hne. destruct l1 as [|c l1]; [congruence|]. clear Hne.
  revert c b H. induction l1 as [|d l1 IH]; intros c b H;
    cbn [forallb] in H; apply andb_prop in H; destruct H as [Hc H];
    cbn [app collapse]; rewrite Hc; [reflexivity|].
  f_equal. apply (IH d false). exact H.
Qed.

Lemma collapse_run (l2 l3 : str) :
  forallb p l2 = true -> collapse true (l2 ++ l3) = collapse true l3.
Proof.
  induction l2 as [|c l2 IH]; [reflexivity|]. cbn [forallb]. intros H.
  apply andb_prop in H. destruct H as [Hc H]. unfold p, not_key_char in Hc.
  apply negb_true_iff in Hc. cbn [app collapse]. rewrite Hc. apply IH. exact H.
Qed.

Lemma collapse_after_run (l3 : str) :
  head_is p l3 = false -> collapse true l3 = collapse false l3.
Proof.
  destruct l3 as [|c l3]; [reflexivity|]. cbn [head_is collapse].
  unfold p, not_key_char. intros H. apply negb_false_iff in H. rewrite H. reflexivity.
Qed.

Lemma collapse_all_keys (l1 : str) (b : bool) :
  forallb key_char l1 = true -> collapse b l1 = l1.
Proof.
  revert b. induction l1 as [|c l1 IH]; intros b H; [reflexivity|].
  cbn [forallb] in H. apply andb_prop in H. destruct H as [Hc H].
  cbn [collapse]. rewrite Hc, IH by exact H. reflexivity.
Qed.

Lemma not_key_head (s : str) : head_is p (drop_while key_char s) = negb (is_nil (drop_while key_char s)).
Proof.
  pose proof (drop_while_head key_char s) as H.
  destruct (drop_while key_char s) as [|c r]; [reflexivity|].
  cbn [head_is is_nil negb] in *. unfold p, not_key_char. rewrite H. reflexivity.
Qed.

Lemma replace_all_collapse (n : nat) :
  forall bef aft, length aft < n ->
    replace_all_loop not_key_run (js "-") n bef aft = collapse false aft.
Proof.
  induction n as [|n IH]; intros bef aft Hn; [lia|].
  cbn [replace_all_loop].
  pose proof (take_drop_while key_char aft) as Es.
  pose proof (take_while_all key_char aft) as H1.
  pose proof (not_key_head aft) as Hh.
  destruct (drop_while key_char aft) as [|c rest] eqn:Ed.
  - rewrite app_nil_r in Es. rewrite <- Es in H1.
    rewrite exec_key_none by exact H1. symmetry. apply collapse_all_keys. exact H1.
  - cbn [is_nil negb head_is] in Hh.
    pose proof (take_drop_while p rest) as Er.
    pose proof (take_while_all p rest) as H2.
    pose proof (drop_while_head p rest) as H3.
    set (l1 := take_while key_char aft) in *.
    set (l2 := c :: take_while p rest).
    set (l3 := drop_while p rest) in *.
    assert (Ea : aft = l1 ++ l2 ++ l3).
    { rewrite Es at 1. unfold l2. cbn [app]. rewrite <- Er. reflexivity. }
    assert (Hl2 : forallb p l2 = true) by (unfold l2; cbn [forallb]; rewrite Hh, H2; reflexivity).
    rewrite Ea at 1.
    rewrite (@exec_key_run l1 l2 l3 bef H1 ltac:(discriminate) Hl2 H3).
    cbn [skipped final after before]. unfold matched, capture.
    cbn [final caps lookup Nat.eqb is_nil].
    rewrite IH.
    2:{ rewrite Ea in Hn. rewrite !length_app in Hn. unfold l2 in Hn. cbn [length] in Hn. lia. }
    rewrite Ea.
    assert (Tail : collapse false (l2 ++ l3) = js "-" ++ collapse false l3).
    { unfold l2. cbn [app collapse]. unfold p, not_key_char in Hh.
      apply negb_true_iff in Hh. rewrite Hh. cbn [app].
      change (js "-") with [ch "-"]. cbn [app]. f_equal.
      rewrite collapse_run by exact H2. apply collapse_after_run. exact H3. }
    destruct l1 as [|d l1'].
    + cbn [app]. rewrite Tail. reflexivity.
    + rewrite collapse_keys by (try exact H1; discriminate). rewrite Tail. reflexivity.
Qed.

End KeyRuns.

Lemma edge_here (bef aft : str) :
  rmatch false (Group 0 (pattern edge_dash)) Some (MState bef aft [])
  = match aft with
    | c :: rest =>
        if is_dash c && (is_nil bef || is_nil rest)
        then Some (MState (c :: bef) rest [(0, [c])])
        else None
    | [] => None
    end.
Proof.
  unfold edge_dash, c_. cbn [pattern rmatch before after].
  unfold char_matcher. cbn [after].
  destruct aft as [|c rest]; [destruct (is_nil bef); reflexivity|].
  change (char_eq false (ch "-") c) with (is_dash c).
  assert (E : set_cap 0 (consumed (MState bef (c :: rest) []) (advance c (MState bef (c :: rest) []) rest))
                      (advance c (MState bef (c :: rest) []) rest)
              = MState (c :: bef) rest [(0, [c])]).
  { unfold advance, set_cap. cbn [before after caps].
    change (c :: rest) with ([c] ++ rest). rewrite consumed_app. reflexivity. }
  destruct (is_dash c); cbn [andb]; [|destruct (is_nil bef); reflexivity].
  destruct (is_nil bef); cbn [orb].
  - rewrite E. reflexivity.
  - cbn [after advance]. destruct (is_nil rest); [rewrite E|]; reflexivity.
Qed.

Lemma exec_edge_inner (aft : str) :
  forall bef,
    is_nil bef = false \/ head_is is_dash aft = false ->
    exec_from edge_dash bef aft
    = match rev aft with
      | c :: l' =>
          if is_dash c
          then Some (MatchResult (rev l') (MState (c :: l' ++ bef) [] [(0, [c])]))
          else None
      | [] => None
      end.
Proof.
  induction aft as [|c aft IH]; intros bef H; rewrite exec_from_eq;
    change (ignoreCase edge_dash) with false; rewrite edge_here; [reflexivity|].
  destruct aft as [|d aft].
  - cbn [rev app is_nil orb]. rewrite orb_true_r, andb_true_r.
    destruct (is_dash c) eqn:Ec; [reflexivity|].
    rewrite IH by (left; reflexivity). reflexivity.
  - assert (Hc : is_dash c && (is_nil bef || is_nil (d :: aft)) = false).
    { cbn [is_nil]. rewrite orb_false_r. destruct H as [->|H]; [apply andb_false_r|].
      cbn [head_is] in H. rewrite H. reflexivity. }
    rewrite Hc, IH by (left; reflexivity).
    change (rev (c :: d :: aft)) with (rev (d :: aft) ++ [c]).
    destruct (rev (d :: aft)) as [|e l] eqn:Er.
    { apply (f_equal (@rev char)) in Er. rewrite rev_involutive in Er. discriminate Er. }
    cbn [app]. destruct (is_dash e); [|reflexivity].
    cbn [skipped final]. rewrite rev_app_distr, <- app_assoc. reflexivity.
Qed.

Lemma replace_edge_loop (n : nat) (bef aft : str) :
  is_nil bef = false \/ head_is is_dash aft = false ->
  length aft < n ->
  replace_loop edge_dash [] n bef aft = strip_last aft.
Proof.
  intros H Hn. destruct n as [|n]; [lia|]. cbn [replace_loop].
  rewrite exec_edge_inner by exact H. unfold strip_last.
  destruct (rev aft) as [|c l] eqn:Er.
  - apply (f_equal (@rev char)) in Er. rewrite rev_involutive in Er. exact Er.
  - cbn [strip_first]. destruct (is_dash c).
    + cbn [skipped final after before app]. unfold matched, capture.
      cbn [final caps lookup Nat.eqb is_nil].
      change (global edge_dash) with true. cbv iota.
      assert (E : replace_loop edge_dash [] n (c :: l ++ bef) [] = []).
      { destruct n; [reflexivity|]. cbn [replace_loop].
        rewrite exec_edge_inner by (left; reflexivity). reflexivity. }
      rewrite E, app_nil_r. reflexivity.
    + rewrite <- Er, rev_involutive. reflexivity.
Qed.

(** The second replacement takes a dash away from the head and from the
    end. *)
Lemma replace_edge (s : str) : replace s edge_dash [] = strip_last (strip_first s).
Proof.
  unfold replace. destruct s as [|c rest].
  - apply replace_edge_loop; [right; reflexivity|cbn; lia].
  - cbn [strip_first]. destruct (is_dash c) eqn:Ec.
    + cbn [replace_loop]. erewrite exec_from_here.
      2:{ change (ignoreCase edge_dash) with false. rewrite edge_here, Ec. reflexivity. }
      cbn [skipped final after before app]. unfold matched, capture.
      cbn [final caps lookup Nat.eqb is_nil].
      change (global edge_dash) with true. cbv iota.
      apply replace_edge_loop; [left; reflexivity|cbn [length]; lia].
    + apply replace_edge_loop; [right; cbn [head_is]; exact Ec|cbn [length]; lia].
Qed.

Lemma key_not_dash (c : char) : key_char c = true -> is_dash c = false.
Proof.
  intros H. destruct (is_dash c) eqn:E; [|reflexivity].
  unfold is_dash, char_eq in E. apply N.eqb_eq in E. subst c. vm_compute in H. discriminate H.
Qed.

Lemma no_pair_cons (c : char) (s : str) :
  no_double_dash s -> is_dash c && head_is is_dash s = false -> no_double_dash (c :: s).
Proof.
  intros Hs Hc a c' d b E. destruct a as [|a0 a]; cbn [app] in E.
  - injection E as -> ->. exact Hc.
  - injection E as _ E. exact (Hs a c' d b E).
Qed.

Lemma no_pair_tail (c : char) (s : str) : no_double_dash (c :: s) -> no_double_dash s.
Proof. intros H a c' d b E. apply (H (c :: a) c' d b). rewrite E. reflexivity. Qed.

Lemma no_pair_rev (s : str) : no_double_dash s -> no_double_dash (rev s).
Proof.
  intros H a c d b E. apply (f_equal (@rev char)) in E. rewrite rev_involutive in E.
  rewrite rev_app_distr in E. cbn [rev] in E. rewrite <- !app_assoc in E. cbn [app] in E.
  rewrite andb_comm. exact (H (rev b) d c (rev a) E).
Qed.

Lemma no_pair_firstn (n : nat) (s : str) : no_double_dash s -> no_double_dash (firstn n s).
Proof.
  intros H a c d b E. apply (H a c d (b ++ skipn n s)).
  rewrite <- (firstn_skipn n s) at 1. rewrite E, <- app_assoc. reflexivity.
Qed.

Lemma no_pair_occurs (s : str) : no_double_dash s -> occurs false (js "--") s = false.
Proof.
  induction s as [|c s IH]; intros H; [reflexivity|].
  cbn [occurs]. rewrite IH by exact (no_pair_tail H). rewrite orb_false_r.
  change (js "--") with [ch "-"; ch "-"]. cbn [prefix_match].
  destruct s as [|d s]; [apply andb_false_r|].
  rewrite andb_true_r. exact (H [] c d s eq_refl).
Qed.

Lemma collapse_in_key (s : str) : forall b, forallb in_key (collapse b s) = true.
Proof.
  induction s as [|c s IH]; intros b; [reflexivity|]. cbn [collapse].
  destruct (key_char c) eqn:Ec.
  - cbn [forallb]. unfold in_key at 1. rewrite Ec, IH. reflexivity.
  - destruct b; [apply IH|]. cbn [forallb]. rewrite IH. reflexivity.
Qed.

Lemma collapse_head_run (s : str) : head_is is_dash (collapse true s) = false.
Proof.
  induction s as [|c s IH]; [reflexivity|]. cbn [collapse].
  destruct (key_char c) eqn:Ec; [|exact IH]. cbn [head_is]. apply key_not_dash. exact Ec.
Qed.

Lemma collapse_no_pair (s : str) : forall b, no_double_dash (collapse b s).
Proof.
  induction s as [|c s IH]; intros b.
  - intros [|a0 a] c d b' E; discriminate E.
  - cbn [collapse]. destruct (key_char c) eqn:Ec.
    + apply no_pair_cons; [apply IH|]. rewrite (key_not_dash c Ec). reflexivity.
    + destruct b; [apply IH|]. apply no_pair_cons; [apply IH|].
      rewrite collapse_head_run. apply andb_false_r.
Qed.

Lemma collapse_keeps (c : char) (s : str) :
  forall b, In c s -> key_char c = true -> In c (collapse b s).
Proof.
  induction s as [|d s IH]; intros b Hin Hc; [destruct Hin|]. cbn [collapse].
  destruct Hin as [->|Hin].
  - rewrite Hc. left. reflexivity.
  - destruct (key_char d); [right; apply IH; assumption|].
    destruct b; [apply IH; assumption|right; apply IH; assumption].
Qed.

Lemma collapse_none (s : str) :
  forallb not_key_char s = true -> strip_last (strip_first (collapse false s)) = [].
Proof.
  destruct s as [|c s]; [reflexivity|]. cbn [forallb]. intros H.
  apply andb_prop in H. destruct H as [Hc H]. unfold not_key_char in Hc.
  apply negb_true_iff in Hc. cbn [collapse]. rewrite Hc.
  rewrite <- (app_nil_r s), collapse_run by exact H. reflexivity.
Qed.

Lemma strip_first_cases (s : str) :
  (strip_first s = s /\ head_is is_dash s = false)
  \/ exists c, is_dash c = true /\ s = c :: strip_first s.
Proof.
  destruct s as [|c s]; [left; split; reflexivity|]. cbn [strip_first head_is].
  destruct (is_dash c) eqn:Ec; [right; exists c; auto|left; auto].
Qed.

Lemma strip_first_incl (s : str) (c : char) : In c (strip_first s) -> In c s.
Proof.
  destruct (strip_first_cases s) as [[-> _]|[d [_ E]]]; [auto|].
  intros H. rewrite E. right. exact H.
Qed.

Lemma strip_first_keeps (s : str) (c : char) :
  In c s -> is_dash c = false -> In c (strip_first s).
Proof.
  destruct (strip_first_cases s) as [[-> _]|[d [Hd E]]]; [auto|].
  intros H Hc. rewrite E in H. destruct H as [->|H]; [congruence|exact H].
Qed.

Lemma strip_first_head (s : str) :
  no_double_dash s -> head_is is_dash (strip_first s) = false.
Proof.
  intros H. destruct (strip_first_cases s) as [[-> E]|[c [Hc E]]]; [exact E|].
  destruct (strip_first s) as [|d r]; [reflexivity|].
  pose proof (H [] c d r E) as Hp. rewrite Hc in Hp. exact Hp.
Qed.

Lemma strip_first_no_pair (s : str) : no_double_dash s -> no_double_dash (strip_first s).
Proof.
  intros H. destruct (strip_first_cases s) as [[-> _]|[c [_ E]]]; [exact H|].
  rewrite E in H. exact (no_pair_tail H).
Qed.

(** What is left of a text with no two dashes side by side, made of key
    characters, when the dashes at its two ends are taken away. *)
Lemma strip_shape (r : str) :
  no_double_dash r -> forallb in_key r = true ->
  forallb in_key (strip_last (strip_first r)) = true
  /\ head_is is_dash (strip_last (strip_first r)) = false
  /\ head_is is_dash (rev (strip_last (strip_first r))) = false
  /\ no_double_dash (strip_last (strip_first r)).
Proof.
  intros Hn Hk.
  pose proof (strip_first_no_pair Hn) as Hx.
  pose proof (strip_first_head Hn) as Hxh.
  set (x := strip_first r) in *. unfold strip_last.
  pose proof (no_pair_rev Hx) as Hy.
  split; [|split; [|split]].
  - apply forallb_forall. intros c Hc. apply in_rev in Hc.
    apply strip_first_incl in Hc. apply in_rev in Hc.
    apply strip_first_incl in Hc. exact (proj1 (forallb_forall _ _) Hk c Hc).
  - destruct (strip_first_cases (rev x)) as [[-> _]|[c [_ E]]].
    + rewrite rev_involutive. exact Hxh.
    + apply (f_equal (@rev char)) in E. rewrite rev_involutive in E. cbn [rev] in E.
      destruct (rev (strip_first (rev x))) as [|d k]; [reflexivity|].
      rewrite E in Hxh. exact Hxh.
  - rewrite rev_involutive. apply strip_first_head. exact Hy.
  - apply no_pair_rev. apply strip_first_no_pair. exact Hy.
Qed.

(** X8. The key made of a title holds lower-case letters, digits and dashes
    only, does not start and does not end with a dash, holds no two dashes
    side by side, and is empty exactly when the lower-cased title holds no
    lower-case letter and no digit. *)
Theorem key_shape (toLowerCase : str -> str) (title : str) :
  forallb in_key (key_of toLowerCase title) = true
  /\ head_is is_dash (key_of toLowerCase title) = false
  /\ head_is is_dash (rev (key_of toLowerCase title)) = false
  /\ occurs false (js "--") (key_of toLowerCase title) = false
  /\ (key_of toLowerCase title = []
      <-> forallb not_key_char (toLowerCase title) = true).
Proof.
  unfold key_of, replace_all.
  rewrite replace_all_collapse by lia. rewrite replace_edge.
  set (t := toLowerCase title).
  destruct (@strip_shape (collapse false t) (collapse_no_pair t false)
                         (collapse_in_key t false)) as [H1 [H2 [H3 H4]]].
  repeat (split; [assumption|]).
  split; [apply no_pair_occurs; exact H4|].
  split.
  - intros E. apply forallb_forall. intros c Hc.
    unfold not_key_char. destruct (key_char c) eqn:Ec; [|reflexivity].
    assert (Hin : In c (strip_last (strip_first (collapse false t)))).
    { unfold strip_last. apply in_rev. rewrite rev_involutive.
      apply strip_first_keeps; [|exact (key_not_dash c Ec)].
      apply -> in_rev. apply strip_first_keeps; [|exact (key_not_dash c Ec)].
      apply collapse_keeps; assumption. }
    rewrite E in Hin. destruct Hin.
  - apply collapse_none.
Qed.

(** X9. The key cut at 64 code units is at most 64 code units long, holds
    lower-case letters, digits and dashes only, does not start with a dash
    and holds no two dashes side by side.  (The cut can leave a dash at its
    end.) *)
Theorem short_key_shape (toLowerCase : str -> str) (title : str) :
  length (short_key_of toLowerCase title) <= 64
  /\ forallb in_key (short_key_of toLowerCase title) = true
  /\ head_is is_dash (short_key_of toLowerCase title) = false
  /\ occurs false (js "--") (short_key_of toLowerCase title) = false.
Proof.
  unfold short_key_of, slice. cbn [skipn Nat.sub].
  unfold key_of, replace_all.
  rewrite replace_all_collapse by lia. rewrite replace_edge.
  set (t := toLowerCase title).
  destruct (@strip_shape (collapse false t) (collapse_no_pair t false)
                         (collapse_in_key t false)) as [H1 [H2 [_ H4]]].
  set (k := strip_last (strip_first (collapse false t))) in *.
  split; [apply firstn_le_length|].
  split.
  { apply forallb_forall. intros c Hc.
    assert (Hin : In c k).
    { rewrite <- (firstn_skipn 64 k). apply in_or_app. left. exact Hc. }
    exact (proj1 (forallb_forall _ _) H1 c Hin). }
  split; [destruct k; [reflexivity|exact H2]|].
  apply no_pair_occurs. apply no_pair_firstn. exact H4.
Qed.

(** ** The run command *)

(** Comparisons of two given strings are carried out. *)
Ltac compare_names :=
  repeat match goal with
         | |- context [str_eqb ?a ?b] =>
             let v := eval vm_compute in (str_eqb a b) in
             change (str_eqb a b) with v
         end;
  cbv iota; cbn [orb negb].

Lemma detectIntent_trimmed (x : str) : detectIntent (trim x) = detectIntent x.
Proof. unfold detectIntent. rewrite trim_idem. reflexivity. Qed.

Lemma decision_sent (fl : flags) (id decision : str) :
  id <> [] -> decision = js "approved" \/ decision = js "denied" ->
  doApprovalsDecide true (Decide (Some id) decision) fl
  = Calls (Call POST (js "/api/v1/approvals/" ++ id ++ js "/decide")
                [(js "decision", JStr decision);
                 (js "note", or_else (or_else (flag_val (js "reason") fl)
                                              (flag_val (js "note") fl)) (JStr []))]).
Proof.
  intros Hid Hd. unfold doApprovalsDecide, handleApprovals, sub_command.
  cbn [field_decision field_id arg_at nth_error negb].
  destruct Hd as [->| ->]; compare_names; cbn [is_nil]; compare_names;
    unfold decideApproval; destruct id as [|c id]; try congruence; reflexivity.
Qed.

(** X10. For an authenticated user the run command ends in one of three
    ways, whatever its arguments and flags: it asks for an instruction, it
    reports that it could not understand the instruction, or it gives a
    request to the API client.  No exception escapes, and no handler it goes
    through stops for a missing id, an unknown subcommand or an unknown
    intent. *)
Theorem run_outcome (toLowerCase : str -> str) (args : list str) (fl : flags) :
  exists o,
    handleRun toLowerCase true args fl = Ok o
    /\ (o = Exits (js "Please provide an instruction.")
        \/ o = Exits (js "Could not understand: " ++ quote
                         ++ trim (join (js " ") args) ++ quote)
        \/ exists c, o = Calls c).
Proof.
  unfold handleRun. cbn [negb]. set (input := trim (join (js " ") args)).
  destruct (is_nil input); [eexists; split; [reflexivity|left; reflexivity]|].
  destruct (detectIntent_total input) as [res E]. rewrite E. cbn [bind].
  destruct res as [[i d]|]; [|eexists; split; [reflexivity|right; left; reflexivity]].
  eexists. split; [reflexivity|]. right. right.
  pose proof (detected_fits input E) as Hf.
  destruct i; destruct d; try discriminate Hf; unfold executeIntent, intent_name;
    compare_names; try (eexists; reflexivity).
  (* what is left is the decision *)
  destruct (decision_inv input E)
    as [p [ws [t [rest [_ [_ [[Ht _] [_ [[_ Hd]|[_ Hd]]]]]]]]]];
    injection Hd as -> ->;
    rewrite (@decision_sent fl t _ Ht) by auto; eexists; reflexivity.
Qed.

(** X11. The decision detected is the decision sent.  When the instruction
    is classified as a decision, the run command of an authenticated user
    posts to the path of the approval whose id was read from the instruction,
    with that decision, "approved" or "denied", and with the note taken
    from the flag [reason], or else from the flag [note], or else empty. *)
Theorem run_decides (toLowerCase : str -> str) (args : list str) (fl : flags) (d : data) :
  detectIntent (join (js " ") args) = Ok (Some (approvals_decide, d)) ->
  exists id decision,
    d = Decide (Some id) decision
    /\ (decision = js "approved" \/ decision = js "denied")
    /\ handleRun toLowerCase true args fl
       = Ok (Calls (Call POST (js "/api/v1/approvals/" ++ id ++ js "/decide")
                         [(js "decision", JStr decision);
                          (js "note", or_else (or_else (flag_val (js "reason") fl)
                                                       (flag_val (js "note") fl))
                                              (JStr []))])).
Proof.
  intros E.
  destruct (decision_inv _ E)
    as [p [ws [t [rest [Es [[Hws _] [[Ht _] [_ Hd]]]]]]]].
  assert (Hd' : exists decision,
             d = Decide (Some t) decision
             /\ (decision = js "approved" \/ decision = js "denied")).
  { destruct Hd as [[_ ->]|[_ ->]]; eexists; split; [reflexivity|auto|reflexivity|auto]. }
  destruct Hd' as [decision [-> Hdec]].
  exists t, decision. split; [reflexivity|]. split; [exact Hdec|].
  unfold handleRun. cbn [negb]. rewrite detectIntent_trimmed, E. cbn [bind].
  rewrite Es. destruct (p ++ ws ++ t ++ rest) eqn:En.
  { destruct p; [destruct ws; [congruence|discriminate En]|discriminate En]. }
  cbn [is_nil]. unfold executeIntent, intent_name. compare_names.
  apply f_equal. exact (@decision_sent fl t decision Ht Hdec).
Qed.

Lemma run_decides_witness :
  exists id decision,
    Decide (Some (js "req_9")) (js "denied") = Decide (Some id) decision
    /\ (decision = js "approved" \/ decision = js "denied")
    /\ handleRun (fun s => s) true [js "reject"; js "req_9"] [(js "reason", FValue (js "late"))]
       = Ok (Calls (Call POST (js "/api/v1/approvals/" ++ id ++ js "/decide")
                         [(js "decision", JStr decision);
                          (js "note",
                           or_else (or_else (flag_val (js "reason")
                                                      [(js "reason", FValue (js "late"))])
                                            (flag_val (js "note")
                                                      [(js "reason", FValue (js "late"))]))
                                   (JStr []))])).
Proof.
  apply (@run_decides (fun s => s) [js "reject"; js "req_9"]
           [(js "reason", FValue (js "late"))] (Decide (Some (js "req_9")) (js "denied"))).
  vm_compute. reflexivity.
Defined.

Lemma parse_loop_words (ws : list str) :
  (forall a, In a ws -> plain a = true) ->
  forall args fl, parse_loop ws args fl = (args ++ ws, fl).
Proof.
  induction ws as [|a ws IH]; intros H args fl.
  - cbn. rewrite app_nil_r. reflexivity.
  - rewrite parse_loop_word by (apply H; left; reflexivity).
    rewrite IH by (intros b Hb; apply H; right; exact Hb).
    rewrite <- app_assoc. reflexivity.
Qed.

Lemma plain_join (ws : list str) :
  (forall a, In a ws -> plain a = true) -> plain (join (js " ") ws) = true.
Proof.
  destruct ws as [|a ws]; intros H; [reflexivity|].
  pose proof (H a (or_introl eq_refl)) as Ha.
  destruct ws as [|b ws]; [exact Ha|].
  cbn [join]. destruct a as [|c a]; [reflexivity|].
  unfold plain in *. change (js "-") with [ch "-"] in *.
  cbn [app startsWith] in *. rewrite startsWith_nil in *. exact Ha.
Qed.

(** X12. An instruction typed as separate words and the same instruction
    typed as one quoted argument are the same to the run command, provided
    that no word starts with a dash: both command lines are parsed without
    flags, and the run command builds the same input from the arguments of
    both. *)
Theorem run_words (toLowerCase : str -> str) (authenticated : bool)
        (node script cmd : str) (ws : list str) :
  plain cmd = true -> (forall a, In a ws -> plain a = true) ->
  parseArgs (node :: script :: cmd :: ws) = Parsed cmd ws []
  /\ parseArgs [node; script; cmd; join (js " ") ws] = Parsed cmd [join (js " ") ws] []
  /\ handleRun toLowerCase authenticated
               (positional (parseArgs (node :: script :: cmd :: ws)))
               (given (parseArgs (node :: script :: cmd :: ws)))
     = handleRun toLowerCase authenticated
                 (positional (parseArgs [node; script; cmd; join (js " ") ws]))
                 (given (parseArgs [node; script; cmd; join (js " ") ws])).
Proof.
  intros Hc Hw.
  assert (E1 : parseArgs (node :: script :: cmd :: ws) = Parsed cmd ws []).
  { unfold parseArgs. cbn [skipn]. rewrite parse_loop_words; [reflexivity|].
    intros a [<-|Ha]; [exact Hc|exact (Hw a Ha)]. }
  assert (E2 : parseArgs [node; script; cmd; join (js " ") ws]
               = Parsed cmd [join (js " ") ws] []).
  { unfold parseArgs. cbn [skipn]. rewrite parse_loop_words; [reflexivity|].
    intros a [<-|[<-|[]]]; [exact Hc|exact (plain_join ws Hw)]. }
  rewrite E1, E2. repeat split.
Qed.

Lemma run_words_witness :
  parseArgs (js "node" :: js "beeboo" :: js "run" :: [js "approve"; js "abc123"])
  = Parsed (js "run") [js "approve"; js "abc123"] []
  /\ parseArgs [js "node"; js "beeboo"; js "run"; join (js " ") [js "approve"; js "abc123"]]
     = Parsed (js "run") [join (js " ") [js "approve"; js "abc123"]] []
  /\ handleRun (fun s => s) true
               (positional (parseArgs (js "node" :: js "beeboo" :: js "run"
                                          :: [js "approve"; js "abc123"])))
               (given (parseArgs (js "node" :: js "beeboo" :: js "run"
                                     :: [js "approve"; js "abc123"])))
     = handleRun (fun s => s) true
                 (positional (parseArgs [js "node"; js "beeboo"; js "run";
                                         join (js " ") [js "approve"; js "abc123"]]))
                 (given (parseArgs [js "node"; js "beeboo"; js "run";
                                    join (js " ") [js "approve"; js "abc123"]])).
Proof.
  apply (@run_words (fun s => s) true (js "node") (js "beeboo") (js "run")
           [js "approve"; js "abc123"]).
  - vm_compute; reflexivity.
  - intros a [<-|[<-|[]]]; vm_compute; reflexivity.
Defined.

(** ** Ages *)

Lemma number_text_small (n : N) :
  (n < 100)%N ->
  number_text n = if (n <? 10)%N then [(48 + n)%N] else [(48 + n / 10)%N; (48 + n mod 10)%N].
Proof.
  intros Hn. unfold number_text. destruct (N.ltb_spec n 10) as [H|H].
  - cbn [to_digits]. rewrite (N.div_small n 10 H), (N.mod_small n 10 H). reflexivity.
  - assert (L : (3 <= N.log2 n)%N).
    { change 3%N with (N.log2 8). apply N.log2_le_mono. lia. }
    destruct (N.to_nat (N.log2 n)) as [|f] eqn:Ef; [lia|].
    cbn [to_digits].
    assert (Q : (1 <= n / 10 < 10)%N).
    { split; [apply N.div_le_lower_bound; lia|apply N.Div0.div_lt_upper_bound; lia]. }
    destruct (N.eqb_spec (n / 10) 0) as [E|_]; [lia|].
    rewrite (N.div_small (n / 10) 10) by lia.
    rewrite (N.mod_small (n / 10) 10) by lia. reflexivity.
Qed.

Lemma quotient_bounds (ms a b lo hi : Z) :
  (0 < a)%Z -> (0 < b)%Z -> (lo * b <= ms / a < hi * b)%Z ->
  (lo <= ms / a / b < hi)%Z
  /\ (a * b * (ms / a / b) <= ms < a * b * (ms / a / b + 1))%Z.
Proof.
  intros Ha Hb H.
  split.
  - split; [apply Z.div_le_lower_bound; lia|apply Z.div_lt_upper_bound; lia].
  - rewrite Z.div_div by lia.
    pose proof (Z.mul_div_le ms (a * b) ltac:(lia)).
    pose proof (Z.mul_succ_div_gt ms (a * b) ltac:(lia)). lia.
Qed.

(** X13. [timeAgo] on a valid date: below one minute, and for every date in
    the future, it says "just now"; then it counts whole minutes from 1 to 59,
    whole hours from 1 to 23 and whole days from 1 to 6, each count rounded
    down; from seven days on it gives the date.  A count is written with
    one or two decimal digits. *)
Theorem time_buckets (ms : Z) (localeDate : str) :
  (((ms < 60000)%Z /\ timeAgo (Some ms) localeDate = js "just now")
   \/ (exists n, (1 <= n <= 59)%N
                 /\ (60000 * Z.of_N n <= ms < 60000 * (Z.of_N n + 1))%Z
                 /\ timeAgo (Some ms) localeDate = number_text n ++ js "m ago")
   \/ (exists n, (1 <= n <= 23)%N
                 /\ (3600000 * Z.of_N n <= ms < 3600000 * (Z.of_N n + 1))%Z
                 /\ timeAgo (Some ms) localeDate = number_text n ++ js "h ago")
   \/ (exists n, (1 <= n <= 6)%N
                 /\ (86400000 * Z.of_N n <= ms < 86400000 * (Z.of_N n + 1))%Z
                 /\ timeAgo (Some ms) localeDate = number_text n ++ js "d ago")
   \/ ((604800000 <= ms)%Z /\ timeAgo (Some ms) localeDate = localeDate))
  /\ forall n, (n < 100)%N ->
       number_text n
       = if (n <? 10)%N then [(48 + n)%N] else [(48 + n / 10)%N; (48 + n mod 10)%N].
Proof.
  split; [|exact number_text_small].
  unfold timeAgo. cbv zeta.
  destruct (Z.ltb_spec (ms / 1000) 60) as [H1|H1].
  { left. split; [|reflexivity].
    destruct (Z.lt_ge_cases ms 60000) as [L|L]; [exact L|].
    assert (60 <= ms / 1000)%Z by (apply Z.div_le_lower_bound; lia). lia. }
  right.
  destruct (Z.ltb_spec (ms / 1000) 3600) as [H2|H2].
  { left. destruct (@quotient_bounds ms 1000 60 1 60) as [B I]; [lia..|].
    exists (Z.to_N (ms / 1000 / 60)). rewrite Z2N.id by lia.
    split; [lia|]. split; [lia|reflexivity]. }
  right.
  destruct (Z.ltb_spec (ms / 1000) 86400) as [H3|H3].
  { left. destruct (@quotient_bounds ms 1000 3600 1 24) as [B I]; [lia..|].
    exists (Z.to_N (ms / 1000 / 3600)). rewrite Z2N.id by lia.
    split; [lia|]. split; [lia|reflexivity]. }
  right.
  destruct (Z.ltb_spec (ms / 1000) 604800) as [H4|H4].
  { left. destruct (@quotient_bounds ms 1000 86400 1 7) as [B I]; [lia..|].
    exists (Z.to_N (ms / 1000 / 86400)). rewrite Z2N.id by lia.
    split; [lia|]. split; [lia|reflexivity]. }
  right. split; [|reflexivity].
  pose proof (Z.mul_div_le ms 1000 ltac:(lia)). lia.
Qed.

(** ** What the run command posts *)

Lemma or_else_text (s : str) (v : jsval) : s <> [] -> or_else (JStr s) v = JStr s.
Proof. destruct s; [congruence|reflexivity]. Qed.

Lemma detected_nonempty (x : str) (i : intent) (d : data) :
  detectIntent x = Ok (Some (i, d)) -> i <> knowledge_search -> trim x <> [].
Proof.
  intros E Hi En. rewrite <- detectIntent_trimmed, En in E.
  vm_compute in E. injection E as <- _. congruence.
Qed.

(** X14. What the run command posts for a new request.  When the
    instruction is classified as the creation of a request, an authenticated
    user's command posts a title that is not empty, the whole trimmed
    instruction as the description, and one of the four priorities: the
    executor's defaults for a missing description or priority are never
    used. *)
Theorem run_creates_request (toLowerCase : str -> str) (args : list str) (fl : flags)
        (d : data) :
  detectIntent (join (js " ") args) = Ok (Some (requests_create, d)) ->
  exists title priority,
    title <> [] /\ In priority priorities
    /\ d = RequestCreate title (trim (join (js " ") args)) priority
    /\ handleRun toLowerCase true args fl
       = Ok (Calls (Call POST (js "/api/v1/requests")
                         [(js "title", JStr title);
                          (js "description", JStr (trim (join (js " ") args)));
                          (js "priority", JStr priority)])).
Proof.
  intros E. set (x := join (js " ") args) in *.
  pose proof (@detected_nonempty x _ _ E ltac:(discriminate)) as Hx.
  pose proof (detected_filled x E) as Hf.
  pose proof E as H. apply detectIntent_inv in H.
  destruct H as [[r [Hin [_ [_ [Hi Hd]]]]]|[_ [Hi _]]]; [|discriminate Hi].
  each_rule Hin; try discriminate Hi.
  cbn [rule_extract RequestCreate.create] in Hd. unfold RequestCreate.extract in Hd.
  cbv zeta in Hd. injection Hd as Hd. rewrite <- Hd in Hf |- *. cbn [filled] in Hf.
  destruct Hf as [Ht Hp].
  eexists. eexists. split; [exact Ht|]. split; [exact Hp|]. split; [reflexivity|].
  unfold handleRun. cbn [negb]. fold x. rewrite detectIntent_trimmed, E. cbn [bind].
  assert (Hn : is_nil (trim x) = false) by (destruct (trim x); [congruence|reflexivity]).
  rewrite Hn. unfold executeIntent, intent_name. compare_names.
  unfold doRequestCreate. rewrite <- Hd.
  cbn [field_title field_description field_priority of_str].
  rewrite !or_else_text; [reflexivity| |exact Hx].
  intros Ep. rewrite Ep in Hp. unfold priorities in Hp. cbn [In] in Hp.
  destruct Hp as [Hp|[Hp|[Hp|[Hp|[]]]]]; discriminate Hp.
Qed.

Lemma run_creates_request_witness :
  exists title priority,
    title <> [] /\ In priority priorities
    /\ RequestCreate (js "HVAC inspection") (js "book HVAC inspection asap") (js "critical")
       = RequestCreate title (trim (join (js " ") [js "book"; js "HVAC inspection asap"]))
                       priority
    /\ handleRun (fun s => s) true [js "book"; js "HVAC inspection asap"] []
       = Ok (Calls (Call POST (js "/api/v1/requests")
                         [(js "title", JStr title);
                          (js "description",
                           JStr (trim (join (js " ") [js "book"; js "HVAC inspection asap"])));
                          (js "priority", JStr priority)])).
Proof.
  apply (@run_creates_request (fun s => s) [js "book"; js "HVAC inspection asap"] []).
  vm_compute. reflexivity.
Defined.



(** The amount that is posted is the double: 2^53 + 1 is sent as 2^53. *)
Example run_posts_the_double :
  handleRun (fun s => s) true [js "request approval for $9007199254740993 test"] []
  = Ok (Calls (Call POST (js "/api/v1/approvals")
                    [(js "title", JStr (js "$9007199254740993 test"));
                     (js "description",
                      JStr (js "request approval for $9007199254740993 test"));
                     (js "category", JStr (js "general"));
                     (js "urgency", JStr (js "normal"));
                     (js "amount", JNum (Dec 9007199254740992 0))])).
Proof. vm_compute. reflexivity. Qed.

(** ** Queries *)

Lemma exec_from_inv (re : RegExp) (aft : str) :
  forall bef r,
    exec_from re bef aft = Some r ->
    exists a b,
      aft = a ++ b /\ skipped r = a
      /\ rmatch (ignoreCase re) (Group 0 (pattern re)) Some (MState (rev a ++ bef) b [])
         = Some (final r).
Proof.
  induction aft as [|c aft IH]; intros bef r; rewrite exec_from_eq;
    destruct (rmatch (ignoreCase re) (Group 0 (pattern re)) Some (MState bef _ []))
      as [y|] eqn:Ey; intros H; try discriminate H.
  - injection H as <-. exists [], []. auto.
  - injection H as <-. exists [], (c :: aft). auto.
  - destruct (exec_from re (c :: bef) aft) as [r'|] eqn:Er; [|discriminate H].
    injection H as <-. destruct (IH _ _ Er) as [a [b [-> [Hs Hm]]]].
    exists (c :: a), b. cbn [skipped final rev app]. rewrite Hs, <- app_assoc.
    auto.
Qed.

Lemma first_chars_sound (ic : bool) (r : regex) :
  forall l k x z,
    first_chars r = Some l -> rmatch ic r k x = Some z ->
    exists c rest v, after x = c :: rest /\ In v l /\ char_eq ic v c = true.
Proof.
  induction r as [| c | | cl | | | | r1 IH1 r2 IH2 | r1 IH1 r2 IH2 | g r IH | r IH | n r IH];
    intros l k x z Hl Hm; cbn [first_chars] in Hl; try discriminate Hl.
  - injection Hl as <-. cbn [rmatch] in Hm. unfold char_matcher in Hm.
    destruct (after x) as [|d rest]; [discriminate Hm|].
    destruct (char_eq ic c d) eqn:Ec; [|discriminate Hm].
    exists d, rest, c. cbn [In]. auto.
  - cbn [rmatch] in Hm. destruct (zero_width r1) eqn:Ez.
    + destruct r1; try discriminate Ez; cbn [rmatch] in Hm.
      * exact (IH2 _ _ _ _ Hl Hm).
      * destruct (is_nil (before x)); [exact (IH2 _ _ _ _ Hl Hm)|discriminate Hm].
      * destruct (is_nil (after x)); [exact (IH2 _ _ _ _ Hl Hm)|discriminate Hm].
      * destruct (at_word_boundary x); [exact (IH2 _ _ _ _ Hl Hm)|discriminate Hm].
    + exact (IH1 _ _ _ _ Hl Hm).
  - destruct (first_chars r1) as [a|]; [|discriminate Hl].
    destruct (first_chars r2) as [b|]; [|discriminate Hl].
    injection Hl as <-. cbn [rmatch] in Hm.
    destruct (rmatch ic r1 k x) as [z'|] eqn:E1.
    + destruct (IH1 _ _ _ _ eq_refl E1) as [c [rest [v [H1 [H2 H3]]]]].
      exists c, rest, v. split; [exact H1|]. split; [apply in_or_app; left; exact H2|exact H3].
    + destruct (IH2 _ _ _ _ eq_refl Hm) as [c [rest [v [H1 [H2 H3]]]]].
      exists c, rest, v. split; [exact H1|]. split; [apply in_or_app; right; exact H2|exact H3].
  - cbn [rmatch] in Hm. exact (IH _ _ _ _ Hl Hm).
Qed.

Lemma letter_not_qmark (h c : char) :
  between 97 122 h = true -> char_eq true h c = true -> is_qmark c = false.
Proof.
  intros Hh E. unfold is_qmark, char_eq. destruct (N.eqb_spec (ch "?") c) as [<-|]; [|reflexivity].
  unfold char_eq, canonicalize in E. rewrite Hh in E.
  unfold between in Hh. apply andb_prop in Hh. destruct Hh as [H1 H2].
  apply N.leb_le in H1. change (between 97 122 (ch "?")) with false in E. cbv iota in E.
  apply N.eqb_eq in E. change (ch "?") with 63%N in E. lia.
Qed.

(** An input on which the openers of a search are found holds a letter. *)
Lemma opener_letter (s : str) :
  test KnowledgeSearch.opener_test s = true ->
  exists a c b, s = a ++ c :: b /\ is_space c = false /\ is_qmark c = false.
Proof.
  intros H. apply test_some in H. destruct H as [r E].
  apply exec_from_inv in E. destruct E as [a [b [Es [_ Hm]]]].
  cbn [rmatch] in Hm.
  destruct (@first_chars_sound true (pattern KnowledgeSearch.opener_test) _ _ _ _ eq_refl Hm)
    as [c [rest [v [Ha [Hv Hc]]]]].
  cbn [after] in Ha. exists a, c, rest. split; [rewrite Es, Ha; reflexivity|].
  assert (Hb : between 97 122 v = true).
  { cbn in Hv. repeat (destruct Hv as [<-|Hv]; [reflexivity|]). destruct Hv. }
  split; [exact (letter_not_space v c Hb Hc)|exact (letter_not_qmark v c Hb Hc)].
Qed.

Lemma strip_qmarks_keeps (a b : str) (c : char) :
  is_qmark c = false -> strip_qmarks (a ++ c :: b) = a ++ c :: strip_qmarks b.
Proof.
  intros Hc.
  assert (F : forall a, forallb is_qmark (a ++ c :: b) = false).
  { intros a0. rewrite forallb_app. cbn [forallb]. rewrite Hc. apply andb_false_r. }
  induction a as [|d a IH]; cbn [app strip_qmarks].
  - pose proof (F []) as F0. cbn [app] in F0. rewrite F0. reflexivity.
  - pose proof (F (d :: a)) as F0. cbn [app] in F0. rewrite F0, IH. reflexivity.
Qed.

Lemma trimStart_keeps (a b : str) (c : char) :
  is_space c = false -> exists a', trimStart (a ++ c :: b) = a' ++ c :: b.
Proof.
  intros Hc. induction a as [|d a IH]; cbn [app trimStart].
  - rewrite Hc. exists []. reflexivity.
  - destruct (is_space d); [exact IH|]. exists (d :: a). reflexivity.
Qed.

Lemma trim_keeps (a b : str) (c : char) :
  is_space c = false -> trim (a ++ c :: b) <> [].
Proof.
  intros Hc. unfold trim, trimEnd.
  destruct (@trimStart_keeps a b c Hc) as [a' ->].
  rewrite rev_app_distr. cbn [rev]. rewrite <- app_assoc. cbn [app].
  destruct (@trimStart_keeps (rev b) (rev a') c Hc) as [a'' ->].
  rewrite rev_app_distr. cbn [rev]. rewrite <- app_assoc.
  intros E. destruct (rev (rev a')); discriminate E.
Qed.

Lemma strip_qmarks_all (s : str) :
  forallb is_qmark s = true -> strip_qmarks s = [].
Proof. destruct s as [|c s]; [reflexivity|]. cbn [strip_qmarks]. intros ->. reflexivity. Qed.

Lemma trim_head (x : str) : head_is is_space (trim x) = false.
Proof. unfold trim. apply trimEnd_head. apply trimStart_head. Qed.

(** X16. The query of a search is empty exactly when the trimmed input is
    made of question marks only (or is empty): the rule for searches always
    leaves a query, and the fallback leaves none for such an input. *)
Theorem search_query_empty (input q : str) :
  detectIntent input = Ok (Some (knowledge_search, Search q)) ->
  (q = [] <-> forallb is_qmark (trim input) = true).
Proof.
  intros H. apply detectIntent_inv in H.
  destruct H as [[r [Hin [Ht [_ [Hi Hd]]]]]|[_ [_ Hd]]].
  - each_rule Hin; try discriminate Hi.
    cbn [rule_test KnowledgeSearch.search] in Ht. apply andb_prop in Ht.
    destruct Ht as [Ht _]. destruct (opener_letter _ Ht) as [a [c [b [Es [Hs Hq]]]]].
    assert (Hne : q <> []).
    { cbn [rule_extract KnowledgeSearch.search] in Hd. unfold KnowledgeSearch.extract in Hd.
      cbv zeta in Hd. injection Hd as <-.
      match goal with |- (if ?cnd then _ else _) <> [] => destruct cnd eqn:Ec end.
      - rewrite replace_qmarks, Es, strip_qmarks_keeps by exact Hq.
        apply trim_keeps. exact Hs.
      - apply orb_false_iff in Ec. destruct Ec as [Ec _]. apply negb_false_iff in Ec.
        intros E. rewrite E in Ec. discriminate Ec. }
    assert (Hnq : forallb is_qmark (trim input) = false).
    { rewrite Es, forallb_app. cbn [forallb]. rewrite Hq. apply andb_false_r. }
    split; [intros E; contradiction|intros E; rewrite E in Hnq; discriminate Hnq].
  - injection Hd as ->. rewrite replace_qmarks. split.
    + intros E. destruct (forallb is_qmark (trim input)) eqn:Eq; [reflexivity|].
      exfalso. pose proof (trim_head input) as Hh.
      destruct (trim input) as [|c l]; [discriminate Eq|].
      cbn [strip_qmarks] in E. rewrite Eq in E. cbn [head_is] in Hh.
      exact (@trim_keeps [] (strip_qmarks l) c Hh E).
    + intros E. rewrite strip_qmarks_all by exact E. reflexivity.
Qed.

Lemma search_query_empty_witness :
  @nil char = [] <-> forallb is_qmark (trim (js " ?? ")) = true.
Proof.
  apply (@search_query_empty (js " ?? ") []). vm_compute. reflexivity.
Defined.

(** ** The run command and the approvals command *)

Lemma trim_fixed (s : str) :
  head_is is_space s = false -> head_is is_space (rev s) = false -> trim s = s.
Proof.
  intros H1 H2. unfold trim, trimEnd.
  rewrite (trimStart_fixed s H1), (trimStart_fixed (rev s) H2). apply rev_involutive.
Qed.

Lemma token_end (t : str) :
  t <> [] -> forallb nonspace t = true -> head_is is_space (rev t) = false.
Proof.
  intros Hne Hall. destruct (rev t) as [|c r] eqn:Er.
  - reflexivity.
  - assert (Hin : In c t) by (apply in_rev; rewrite Er; left; reflexivity).
    pose proof (proj1 (forallb_forall _ _) Hall c Hin) as Hc.
    unfold nonspace in Hc. cbn [head_is]. destruct (is_space c); [discriminate Hc|reflexivity].
Qed.

(** "<verb> <id>" as the run command reads it. *)
Lemma verb_id_detected (verb id : str) :
  In verb [js "approve"; js "deny"; js "reject"] ->
  id <> [] -> forallb nonspace id = true ->
  (verb = js "approve" ->
   forall u, In u [js "request"; js "for"; js "need"] -> occurs true u id = false) ->
  trim (join (js " ") [verb; id]) = verb ++ js " " ++ id
  /\ detectIntent (verb ++ js " " ++ id)
     = Ok (Some (approvals_decide,
                 Decide (Some id)
                        (if str_eqb verb (js "approve") then js "approved" else js "denied"))).
Proof.
  intros Hv Hne Hall Hex.
  assert (Et : trim (verb ++ js " " ++ id) = verb ++ js " " ++ id).
  { apply trim_fixed.
    - cbn [In] in Hv. destruct Hv as [<-|[<-|[<-|[]]]]; reflexivity.
    - rewrite !rev_app_distr, <- app_assoc.
      pose proof (token_end Hne Hall) as He.
      destruct (rev id) as [|c r] eqn:Er; [|exact He].
      apply (f_equal (@rev char)) in Er. rewrite rev_involutive in Er. contradiction. }
  split; [exact Et|].
  assert (Eid : verb ++ js " " ++ id = verb ++ js " " ++ id ++ []) by (rewrite app_nil_r; reflexivity).
  unfold detectIntent. rewrite Et. unfold INTENT_RULES. cbn [first_rule].
  cbn [In] in Hv. destruct Hv as [<-|Hv].
  - assert (T : rule_test Decide.approve (js "approve" ++ js " " ++ id) = true).
    { cbn [rule_test Decide.approve]. rewrite Eid.
      rewrite approve_test_holds;
        [|split; reflexivity|split; [discriminate|reflexivity]|split; assumption|reflexivity].
      rewrite <- Eid. unfold Decide.excluded, reI.
      change (words ["request"; "for"; "need"]%string)
        with (alts (map (@lit) [js "request"; js "for"; js "need"])).
      rewrite test_words_false; [reflexivity|discriminate|].
      intros u Hu. pose proof (Hex eq_refl u Hu) as Ho.
      cbn [In] in Hu. destruct Hu as [<-|[<-|[<-|[]]]];
        change (js "approve" ++ js " " ++ id)
          with (ch "a" :: ch "p" :: ch "p" :: ch "r" :: ch "o" :: ch "v" :: ch "e"
                   :: ch " " :: id);
        repeat (cbn [occurs]; match goal with
                              | |- prefix_match true ?u (?c :: ?r) || _ = false =>
                                  replace (prefix_match true u (c :: r)) with false
                                    by (symmetry; reflexivity);
                                  cbn [orb]
                              end);
        exact Ho. }
    rewrite T. cbn [rule_extract rule_intent Decide.approve bind]. rewrite Eid.
    rewrite approve_id_found;
      [reflexivity|split; reflexivity|split; [discriminate|reflexivity]
      |split; assumption|reflexivity].
  - assert (Hv' : In verb [js "deny"; js "reject"]) by exact Hv.
    assert (Hs : spells verb verb).
    { cbn [In] in Hv. destruct Hv as [<-|[<-|[]]]; split; reflexivity. }
    assert (Hw : js " " <> [] /\ forallb is_space (js " ") = true)
      by (split; [discriminate|reflexivity]).
    rewrite Eid.
    rewrite (@approve_not_here verb verb (js " ") id [] Hv' Hs).
    rewrite (@deny_test_holds verb verb (js " ") id [] Hv' Hs Hw (conj Hne Hall) eq_refl).
    cbn [rule_extract rule_intent Decide.deny bind].
    rewrite (@deny_id_found verb verb (js " ") id [] Hv' Hs Hw (conj Hne Hall) eq_refl).
    cbn [In] in Hv. destruct Hv as [<-|[<-|[]]]; reflexivity.
Qed.

(** X17. "run approve <id>", "run deny <id>" and "run reject <id>" do what
    "approvals approve <id>", "approvals deny <id>" and "approvals reject
    <id>" do, for an authenticated user and an id that is not empty and holds
    no white space; after "approve" the id must hold none of "request",
    "for" and "need", in any letter case, or the run command does not take
    the instruction for a decision. *)
Theorem run_as_approvals (toLowerCase : str -> str) (verb id : str) (fl : flags) :
  In verb [js "approve"; js "deny"; js "reject"] ->
  id <> [] -> forallb nonspace id = true ->
  (verb = js "approve" ->
   forall u, In u [js "request"; js "for"; js "need"] -> occurs true u id = false) ->
  handleRun toLowerCase true [verb; id] fl
  = Ok (handleApprovals true [Some verb; Some id] fl).
Proof.
  intros Hv Hne Hall Hex.
  destruct (verb_id_detected Hv Hne Hall Hex) as [Et Ed].
  unfold handleRun. cbn [negb]. rewrite Et, Ed. cbn [bind].
  assert (Hn : is_nil (verb ++ js " " ++ id) = false).
  { cbn [In] in Hv. destruct Hv as [<-|[<-|[<-|[]]]]; reflexivity. }
  rewrite Hn. unfold executeIntent, intent_name. compare_names. apply f_equal.
  rewrite decision_sent;
    [|exact Hne|cbn [In] in Hv; destruct Hv as [<-|[<-|[<-|[]]]]; auto].
  unfold handleApprovals, sub_command. cbn [arg_at nth_error negb].
  cbn [In] in Hv. destruct Hv as [<-|[<-|[<-|[]]]]; compare_names; cbn [is_nil];
    compare_names; unfold decideApproval; destruct id; try congruence; reflexivity.
Qed.

Lemma run_as_approvals_witness :
  handleRun (fun s => s) true [js "approve"; js "apr_17"] []
  = Ok (handleApprovals true [Some (js "approve"); Some (js "apr_17")] []).
Proof.
  apply (@run_as_approvals (fun s => s) (js "approve") (js "apr_17") []).
  - left; reflexivity.
  - discriminate.
  - vm_compute; reflexivity.
  - intros _ u [<-|[<-|[<-|[]]]]; vm_compute; reflexivity.
Defined.

(** ** Whole words *)

Section WholeWords.

Variables (n : nat) (vs : list str).
Hypothesis some_word : vs <> [].
Hypothesis ends_ok : forallb letters_at_ends vs = true.
Hypothesis apart :
  forall v u p b, In v vs -> In u vs -> u <> v -> spells v p ->
                  prefix_match true u (p ++ b) = false.

Let re : RegExp := reI (seqs [WordB; Group n (alts (map (@lit) vs)); WordB]).

Lemma word_ends (v p : str) :
  In v vs -> spells v p ->
  p <> [] /\ head_is is_word p = true /\ head_is is_word (rev p) = true.
Proof.
  intros Hv Hs.
  pose proof (proj1 (forallb_forall _ _) ends_ok v Hv) as He.
  unfold letters_at_ends in He. destruct v as [|h v'] eqn:Ev; [discriminate He|].
  apply andb_prop in He. destruct He as [H1 H2].
  destruct (@spells_head (h :: v') p h v' eq_refl H1 Hs) as [Hne [Hw _]].
  split; [exact Hne|]. split; [exact Hw|].
  apply (@spells_last (h :: v') p (hd 0%N (rev (h :: v'))) Hs eq_refl);
    [discriminate|exact H2].
Qed.

Lemma whole_word_here (a p b v : str) :
  In v vs -> spells v p ->
  head_is is_word (rev a) = false -> head_is is_word b = false ->
  rmatch true (Group 0 (pattern re)) Some (MState (rev a ++ []) (p ++ b) []) <> None.
Proof.
  intros Hv Hs Ha Hb. destruct (word_ends Hv Hs) as [Hne [Hh Hl]].
  unfold re, reI. cbn [pattern seqs rmatch]. unfold at_word_boundary at 1.
  cbn [before after]. rewrite app_nil_r, Ha, (head_is_app is_word b Hne), Hh.
  cbn [xorb]. destruct Hs as [Hlen Hp].
  rewrite (@rmatch_words_pick true vs v p b); [|exact Hv|exact Hlen|exact Hp|].
  2:{ intros u Hu Hne'. apply (@apart v u p b Hv Hu Hne'). split; assumption. }
  unfold at_word_boundary, set_cap. cbn [before after].
  assert (Hr : rev p <> []).
  { intros E. apply (f_equal (@rev char)) in E. rewrite rev_involutive in E. contradiction. }
  rewrite (head_is_app is_word (rev a) Hr), Hl, Hb. cbn [xorb]. discriminate.
Qed.

(** A test for one of several words between word boundaries is a test for
    a whole word. *)
Lemma test_whole_word (s : str) : test re s = true <-> whole_word vs s.
Proof.
  split.
  - intros H. apply test_some in H. destruct H as [r E].
    apply exec_from_inv in E. destruct E as [a [b0 [Es [_ Hm]]]].
    unfold re, reI in Hm. cbn [ignoreCase pattern seqs rmatch] in Hm.
    unfold at_word_boundary at 1 in Hm. cbn [before after] in Hm.
    match type of Hm with (if ?c then _ else _) = _ => destruct c eqn:B1; [|discriminate Hm] end.
    apply words_inv_state in Hm; [|exact some_word].
    destruct Hm as [v [p [rest [Hv [Ea [Hl [Hp Hk]]]]]]].
    cbn [after before caps] in Ea, Hk. unfold at_word_boundary, set_cap in Hk.
    cbn [before after] in Hk.
    match type of Hk with (if ?c then _ else _) = _ => destruct c eqn:B2; [|discriminate Hk] end.
    destruct (@word_ends v p Hv (conj Hl Hp)) as [Hne [Hh Hlast]].
    assert (Hr : rev p <> []).
    { intros E. apply (f_equal (@rev char)) in E. rewrite rev_involutive in E. contradiction. }
    rewrite (head_is_app is_word (rev a ++ []) Hr), Hlast in B2.
    rewrite Ea, (head_is_app is_word rest Hne), Hh, app_nil_r in B1.
    exists a, p, rest, v. rewrite Es, Ea.
    split; [reflexivity|]. split; [exact Hv|]. split; [split; assumption|].
    split; [destruct (head_is is_word (rev a)); [discriminate B1|reflexivity]
           |destruct (head_is is_word rest); [discriminate B2|reflexivity]].
  - intros [a [p [b [v [Es [Hv [Hs [Ha Hb]]]]]]]].
    pose proof (@whole_word_here a p b v Hv Hs Ha Hb) as M.
    destruct (rmatch true (Group 0 (pattern re)) Some (MState (rev a ++ []) (p ++ b) []))
      as [y|] eqn:Ey; [|congruence].
    destruct (@exec_from_some re a [] (p ++ b) y Ey) as [r Er].
    unfold test. rewrite Es, Er. reflexivity.
Qed.

End WholeWords.

(** The words of a list are apart: no spelling of one starts a text that
    another one starts. *)
Ltac words_apart :=
  let v := fresh "v" in let u := fresh "u" in let p := fresh "p" in let b := fresh "b" in
  let Hv := fresh "Hv" in let Hu := fresh "Hu" in let Hne := fresh "Hne" in
  let Hs := fresh "Hs" in
  intros v u p b Hv Hu Hne Hs;
  rewrite prefix_match_canon, map_app, (spells_canon Hs);
  cbn [In] in Hv, Hu;
  repeat destruct Hv as [<-|Hv]; try destruct Hv;
  repeat destruct Hu as [<-|Hu]; try destruct Hu; try congruence; reflexivity.

Lemma urgent_whole_word (s : str) :
  test RequestCreate.urgent s = true
  <-> whole_word [js "urgent"; js "asap"; js "critical"; js "emergency"] s.
Proof.
  apply (@test_whole_word 1 [js "urgent"; js "asap"; js "critical"; js "emergency"]);
    [discriminate|reflexivity|words_apart].
Qed.

Lemma open_whole_word (s : str) :
  test RequestsList.open s = true
  <-> whole_word [js "open"; js "pending"; js "active"] s.
Proof.
  apply (@test_whole_word 1 [js "open"; js "pending"; js "active"]);
    [discriminate|reflexivity|words_apart].
Qed.

(** X18. The priority of a new request is "critical" exactly when one of
    "urgent", "asap", "critical" and "emergency" stands in the trimmed
    input as a whole word, in any letter case: with no letter, digit or
    underscore immediately before it or after it. *)
Theorem critical_iff_word (input title description priority : str) :
  detectIntent input
    = Ok (Some (requests_create, RequestCreate title description priority)) ->
  (priority = js "critical"
   <-> whole_word [js "urgent"; js "asap"; js "critical"; js "emergency"] (trim input)).
Proof.
  intros H. apply detectIntent_inv in H.
  destruct H as [[r [Hin [_ [_ [Hi Hd]]]]]|[_ [Hi _]]]; [|discriminate Hi].
  each_rule Hin; try discriminate Hi.
  cbn [rule_extract RequestCreate.create] in Hd. unfold RequestCreate.extract in Hd.
  cbv zeta in Hd. injection Hd as _ _ Hp.
  rewrite <- urgent_whole_word, <- Hp. unfold RequestCreate.priority_of.
  destruct (test RequestCreate.urgent (trim input)); [split; reflexivity|].
  split; [|discriminate].
  destruct (test RequestCreate.high (trim input)); [discriminate|].
  destruct (test RequestCreate.low (trim input)); discriminate.
Qed.

Lemma critical_iff_word_witness :
  js "medium" = js "critical"
  <-> whole_word [js "urgent"; js "asap"; js "critical"; js "emergency"]
                 (trim (js "book the urgently needed room")).
Proof.
  apply (@critical_iff_word (js "book the urgently needed room")
           (js "the urgently needed room") (js "book the urgently needed room")).
  vm_compute. reflexivity.
Defined.

(** X19. For a list of requests the status is "open" when one of "open",
    "pending" and "active" stands in the trimmed input as a whole word, in
    any letter case, and is undefined when none does. *)
Theorem requests_list_status (input : str) (st : option str) :
  detectIntent input = Ok (Some (requests_list, RequestsList st)) ->
  (st = Some (js "open")
   /\ whole_word [js "open"; js "pending"; js "active"] (trim input))
  \/ (st = None
      /\ ~ whole_word [js "open"; js "pending"; js "active"] (trim input)).
Proof.
  intros H. apply detectIntent_inv in H.
  destruct H as [[r [Hin [_ [_ [Hi Hd]]]]]|[_ [Hi _]]]; [|discriminate Hi].
  each_rule Hin; try discriminate Hi.
  cbn [rule_extract RequestsList.list] in Hd. injection Hd as Hs.
  destruct (test RequestsList.open (trim input)) eqn:E.
  - left. split; [symmetry; exact Hs|]. apply open_whole_word. exact E.
  - right. split; [symmetry; exact Hs|]. intros W. apply open_whole_word in W.
    rewrite W in E. discriminate E.
Qed.

Lemma requests_list_status_witness :
  (@None str = Some (js "open")
   /\ whole_word [js "open"; js "pending"; js "active"] (trim (js "list requests reopened")))
  \/ (@None str = None
      /\ ~ whole_word [js "open"; js "pending"; js "active"]
                      (trim (js "list requests reopened"))).
Proof.
  apply (@requests_list_status (js "list requests reopened") None).
  vm_compute. reflexivity.
Defined.

(** ** Tables *)

Lemma get_set_same (k : str) (n : nat) (w : list (str * nat)) :
  str_eqb k (js "__proto__") = false -> get_width k (set_width k n w) = n.
Proof.
  intros H. unfold get_width, set_width. rewrite H. cbn [assoc].
  rewrite str_eqb_refl. reflexivity.
Qed.

Lemma get_set_other (k k' : str) (n : nat) (w : list (str * nat)) :
  k' <> k -> get_width k (set_width k' n w) = get_width k w.
Proof.
  intros H. unfold get_width, set_width.
  destruct (str_eqb k' (js "__proto__")); [reflexivity|]. cbn [assoc].
  rewrite (str_eqb_neq H). reflexivity.
Qed.

Lemma padEnd_length (s : str) (n : nat) : length s <= n -> length (padEnd s n) = n.
Proof. intros H. unfold padEnd. rewrite length_app, repeat_length. lia. Qed.

Lemma join_length (sep sep' : str) (l : list str) :
  length sep = length sep' ->
  forall l', map (@length char) l = map (@length char) l' ->
             length (join sep l) = length (join sep' l').
Proof.
  intros Hs. induction l as [|a l IH]; intros [|a' l'] H; try discriminate H; [reflexivity|].
  cbn [map] in H. injection H as Ha H.
  destruct l as [|b l]; destruct l' as [|b' l']; try discriminate H; [exact Ha|].
  change (join sep (a :: b :: l)) with (a ++ sep ++ join sep (b :: l)).
  change (join sep' (a' :: b' :: l')) with (a' ++ sep' ++ join sep' (b' :: l')).
  rewrite !length_app, Ha, Hs. f_equal. f_equal. apply IH. exact H.
Qed.

Section TableWidths.

Variable row : Type.
Variable cell : row -> str -> str.

Lemma label_widths_from (columns : list column) :
  forall w,
    NoDup (map col_key columns) ->
    (forall col, In col columns -> str_eqb (col_key col) (js "__proto__") = false) ->
    (forall col, In col columns ->
       get_width (col_key col)
                 (fold_left (fun w col => set_width (col_key col) (length (col_label col)) w)
                            columns w)
       = length (col_label col))
    /\ (forall k, ~ In k (map col_key columns) ->
          get_width k
                    (fold_left (fun w col => set_width (col_key col) (length (col_label col)) w)
                               columns w)
          = get_width k w).
Proof.
  induction columns as [|c0 columns IH]; intros w Hnd Hp.
  - split; [intros col []|reflexivity].
  - cbn [map] in Hnd. inversion Hnd as [|k0 ks Hnot Hnd']. subst.
    destruct (IH (set_width (col_key c0) (length (col_label c0)) w) Hnd'
                 (fun col Hc => Hp col (or_intror Hc))) as [IH1 IH2].
    cbn [fold_left]. split.
    + intros col [<-|Hc]; [|exact (IH1 col Hc)].
      rewrite (IH2 _ Hnot). apply get_set_same. apply Hp. left. reflexivity.
    + intros k Hk. cbn [map In] in Hk. rewrite IH2 by tauto.
      apply get_set_other. tauto.
Qed.

Lemma widen_from (columns : list column) (r : row) :
  forall w,
    (forall k, get_width k w <= get_width k (widen cell columns w r))
    /\ (forall col, In col columns ->
          str_eqb (col_key col) (js "__proto__") = false ->
          length (cell r (col_key col)) <= get_width (col_key col) (widen cell columns w r)).
Proof.
  unfold widen. induction columns as [|c0 columns IH]; intros w.
  - split; [intros k; apply le_n|intros col []].
  - cbn [fold_left].
    set (w' := set_width (col_key c0)
                         (Nat.max (get_width (col_key c0) w)
                                  (length (cell r (col_key c0)))) w).
    destruct (IH w') as [IH1 IH2].
    assert (Step : forall k, get_width k w <= get_width k w').
    { intros k. unfold w'.
      destruct (str_eqb (col_key c0) k) eqn:E.
      - apply str_eqb_eq in E. subst k.
        destruct (str_eqb (col_key c0) (js "__proto__")) eqn:Ep.
        + unfold set_width. rewrite Ep. apply le_n.
        + rewrite get_set_same by exact Ep. apply Nat.le_max_l.
      - rewrite get_set_other; [apply le_n|].
        intros E'. rewrite E', str_eqb_refl in E. discriminate E. }
    split.
    + intros k. eapply Nat.le_trans; [apply Step|apply IH1].
    + intros col [<-|Hc] Hp; [|exact (IH2 col Hc Hp)].
      eapply Nat.le_trans; [|apply IH1]. unfold w'.
      rewrite get_set_same by exact Hp. apply Nat.le_max_r.
Qed.

Lemma table_widths_from (columns : list column) (rows : list row) :
  forall w,
    (forall k, get_width k w <= get_width k (fold_left (widen cell columns) rows w))
    /\ (forall r col, In r rows -> In col columns ->
          str_eqb (col_key col) (js "__proto__") = false ->
          length (cell r (col_key col))
          <= get_width (col_key col) (fold_left (widen cell columns) rows w)).
Proof.
  induction rows as [|r0 rows IH]; intros w.
  - split; [intros k; apply le_n|intros r col []].
  - cbn [fold_left]. destruct (IH (widen cell columns w r0)) as [IH1 IH2].
    destruct (@widen_from columns r0 w) as [W1 W2].
    split.
    + intros k. eapply Nat.le_trans; [apply W1|apply IH1].
    + intros r col [<-|Hr] Hc Hp; [|exact (IH2 r col Hr Hc Hp)].
      eapply Nat.le_trans; [apply (W2 col Hc Hp)|apply IH1].
Qed.

Variable other_style : str -> str -> result str.

Lemma row_cells_plain (w : list (str * nat)) (r : row) (columns : list column) :
  (forall col name, In col columns -> col_color col = Some name -> truthy name = true ->
                    assoc name style_codes <> None) ->
  row_cells false cell other_style w r columns
  = Ok (map (fun col => padEnd (cell r (col_key col)) (get_width (col_key col) w)) columns).
Proof.
  induction columns as [|c0 columns IH]; intros H; [reflexivity|].
  cbn [row_cells map].
  assert (E : match col_color c0 with
              | Some name =>
                  if truthy name
                  then styled false other_style name
                              (padEnd (cell r (col_key c0)) (get_width (col_key c0) w))
                  else Ok (padEnd (cell r (col_key c0)) (get_width (col_key c0) w))
              | None => Ok (padEnd (cell r (col_key c0)) (get_width (col_key c0) w))
              end
              = Ok (padEnd (cell r (col_key c0)) (get_width (col_key c0) w))).
  { destruct (col_color c0) as [name|] eqn:Ec; [|reflexivity].
    destruct (truthy name) eqn:Et; [|reflexivity].
    pose proof (H c0 name (or_introl eq_refl) Ec Et) as Hs. unfold styled.
    destruct (assoc name style_codes); [reflexivity|congruence]. }
  rewrite E. cbn [bind]. rewrite IH by (intros col name Hc; apply H; right; exact Hc).
  reflexivity.
Qed.

Lemma row_lines_plain (w : list (str * nat)) (rows : list row) (columns : list column) :
  (forall col name, In col columns -> col_color col = Some name -> truthy name = true ->
                    assoc name style_codes <> None) ->
  row_lines false cell other_style w rows columns
  = (map (fun r =>
            js "  " ++ join (js "  ")
                            (map (fun col => padEnd (cell r (col_key col))
                                                    (get_width (col_key col) w)) columns))
         rows, None).
Proof.
  intros H. induction rows as [|r rows IH]; [reflexivity|].
  cbn [row_lines map]. rewrite (@row_cells_plain w r columns H), IH. reflexivity.
Qed.

End TableWidths.

(** X20. A table without colours is aligned.  When the rows are not empty,
    the keys of the columns differ from one another and from "__proto__", and
    every colour that a column names is a style of the module, [table]
    prints the header, the rule and one line for every row, and all these
    lines have the same length. *)
Theorem table_aligned (row : Type) (cell : row -> str -> str)
        (other_style : str -> str -> result str)
        (rows : list row) (columns : list column) :
  rows <> [] ->
  NoDup (map col_key columns) ->
  (forall col, In col columns -> str_eqb (col_key col) (js "__proto__") = false) ->
  (forall col name, In col columns -> col_color col = Some name -> truthy name = true ->
                    assoc name style_codes <> None) ->
  exists lines n,
    table false cell other_style rows columns = (lines, None)
    /\ length lines = 2 + length rows
    /\ forall l, In l lines -> length l = n.
Proof.
  intros Hrows Hnd Hp Hc. unfold table.
  destruct rows as [|r0 rows']; [congruence|]. set (rows := r0 :: rows') in *.
  set (w := table_widths cell rows columns).
  rewrite (@row_lines_plain row cell other_style w rows columns Hc).
  eexists. eexists. split; [reflexivity|]. split; [cbn [length]; rewrite length_map; reflexivity|].
  destruct (@label_widths_from columns [] Hnd Hp) as [L1 _].
  destruct (@table_widths_from row cell columns rows (label_widths columns)) as [T1 T2].
  assert (Wide : forall col, In col columns ->
            length (padEnd (col_label col) (get_width (col_key col) w))
            = get_width (col_key col) w).
  { intros col Hin. apply padEnd_length. unfold w, table_widths.
    rewrite <- (L1 col Hin). apply T1. }
  assert (Cells : forall r, In r rows ->
            map (@length char)
                (map (fun col => padEnd (cell r (col_key col)) (get_width (col_key col) w))
                     columns)
            = map (fun col => get_width (col_key col) w) columns).
  { intros r Hr. rewrite map_map. apply map_ext_in. intros col Hin.
    apply padEnd_length. apply (T2 r col Hr Hin (Hp col Hin)). }
  assert (Header :
            map (@length char)
                (map (fun col => padEnd (col_label col) (get_width (col_key col) w)) columns)
            = map (fun col => get_width (col_key col) w) columns).
  { rewrite map_map. apply map_ext_in. exact Wide. }
  assert (Rule :
            map (@length char)
                (map (fun col => repeat dash (get_width (col_key col) w)) columns)
            = map (fun col => get_width (col_key col) w) columns).
  { rewrite map_map. apply map_ext. intros col. apply repeat_length. }
  intros l [<-|[<-|Hl]].
  - reflexivity.
  - unfold dim, c. cbn [negb]. rewrite !length_app. f_equal.
    apply join_length; [reflexivity|]. rewrite Rule, Header. reflexivity.
  - apply in_map_iff in Hl. destruct Hl as [r [<- Hr]].
    unfold dim, c. cbn [negb]. rewrite !length_app. f_equal.
    apply join_length; [reflexivity|]. rewrite (Cells r Hr), Header. reflexivity.
Qed.

Lemma table_aligned_witness :
  exists lines n,
    table false (fun (r : str * str) k => if str_eqb k (js "id") then fst r else snd r)
          (fun _ _ => Throw "TypeError")
          [(js "a1", js "Buy desks"); (js "b22", js "Hire")]
          [Column (js "id") (js "ID") (Some (js "dim")); Column (js "title") (js "TITLE") None]
    = (lines, None)
    /\ length lines = 2 + length [(js "a1", js "Buy desks"); (js "b22", js "Hire")]
    /\ forall l, In l lines -> length l = n.
Proof.
  apply table_aligned.
  - discriminate.
  - repeat constructor; cbn; intuition discriminate.
  - intros col [<-|[<-|[]]]; reflexivity.
  - intros col name [<-|[<-|[]]] E; inversion E; subst; intros _; discriminate.
Defined.

(** ** The words of a knowledge entry *)

Lemma spaces_here (bef aft : str) :
  rmatch false sp1 Some (MState bef aft [])
  = if head_is is_space aft
    then Some (MState (rev (take_while is_space aft) ++ bef) (drop_while is_space aft) [])
    else None.
Proof.
  destruct (head_is is_space aft) eqn:Eh.
  - pose proof (take_drop_while is_space aft) as Es. rewrite Es at 1.
    eapply plus_run with (p := is_space);
      [apply space_class| |apply take_while_all|apply drop_while_head|reflexivity].
    destruct aft as [|c aft]; [discriminate Eh|]. cbn [head_is] in Eh.
    cbn [take_while]. rewrite Eh. discriminate.
  - eapply plus_none with (p := is_space); [apply space_class|exact Eh].
Qed.

Lemma drop_while_length (p : char -> bool) (s : str) :
  length (drop_while p s) <= length s.
Proof.
  induction s as [|c s IH]; [apply le_n|]. cbn [drop_while].
  destruct (p c); cbn [length]; lia.
Qed.

Lemma pieces_skip (s : str) :
  forall cur, pieces true cur s = pieces false cur (drop_while is_space s).
Proof.
  induction s as [|c s IH]; intros cur; [reflexivity|].
  cbn [pieces drop_while]. destruct (is_space c) eqn:Ec; [apply IH|].
  cbn [pieces]. rewrite Ec. reflexivity.
Qed.

Lemma split_loop_pieces (n : nat) :
  forall bef cur aft, length aft <= n ->
    split_loop KnowledgeCreate.spaces n bef cur aft = pieces false cur aft.
Proof.
  induction n as [|n IH]; intros bef cur aft Hn.
  - destruct aft; [|cbn in Hn; lia]. cbn. rewrite app_nil_r. reflexivity.
  - cbn [split_loop]. destruct aft as [|c aft]; [reflexivity|].
    change (rmatch (ignoreCase KnowledgeCreate.spaces) (pattern KnowledgeCreate.spaces))
      with (rmatch false sp1).
    rewrite spaces_here. cbn [head_is pieces]. cbn [length] in Hn.
    destruct (is_space c) eqn:Ec.
    + unfold no_progress. cbn [after drop_while]. rewrite Ec.
      pose proof (drop_while_length is_space aft) as Hl.
      destruct (Nat.eqb_spec (length (drop_while is_space aft)) (length (c :: aft)))
        as [E|_]; [cbn [length] in E; lia|].
      cbn [andb before]. f_equal. rewrite IH by lia. symmetry. apply pieces_skip.
    + apply IH. lia.
Qed.

(** Splitting at white space gives the pieces between the runs of white
    space. *)
Lemma split_spaces (s : str) : split s KnowledgeCreate.spaces = pieces false [] s.
Proof.
  unfold split. destruct s as [|c s]; [reflexivity|].
  apply split_loop_pieces. cbn [length]. lia.
Qed.

Lemma pieces_nonspace (s : str) :
  forall b cur, forallb nonspace cur = true ->
                forallb (forallb nonspace) (pieces b cur s) = true.
Proof.
  assert (R : forall cur, forallb nonspace cur = true -> forallb nonspace (rev cur) = true).
  { intros cur H. apply forallb_forall. intros c Hc. apply in_rev in Hc.
    exact (proj1 (forallb_forall _ _) H c Hc). }
  induction s as [|c s IH]; intros b cur H; cbn [pieces].
  - cbn [forallb]. rewrite R by exact H. reflexivity.
  - destruct (is_space c) eqn:Ec.
    + destruct b; [apply IH; exact H|]. cbn [forallb].
      rewrite R by exact H. apply IH. reflexivity.
    + apply IH. cbn [forallb]. unfold nonspace at 1. rewrite Ec. exact H.
Qed.

Lemma slice0_firstn (A : Type) (n : nat) (l : list A) : slice0 n l = firstn n l.
Proof.
  unfold slice0. destruct (Nat.le_ge_cases n (length l)) as [H|H].
  - rewrite Nat.min_l by exact H. reflexivity.
  - rewrite Nat.min_r by exact H. rewrite firstn_all, firstn_all2 by exact H. reflexivity.
Qed.

(** X21. The title of a knowledge entry written without a colon: the
    pattern with the colon does not match the trimmed input.  When the
    second pattern matches it, the content is what its group captures,
    trimmed, and the title is made of the first five words of the content,
    joined by single spaces, where the words are the pieces of the content
    between its runs of white space, none of which holds white space.  When
    the second pattern does not match either, the title is "New Entry" and
    the content is the whole trimmed input. *)
Theorem knowledge_title_words (input title content : str) :
  detectIntent input = Ok (Some (knowledge_create, KnowledgeCreate title content)) ->
  str_match (trim input) KnowledgeCreate.colon = None ->
  match str_match (trim input) KnowledgeCreate.simple with
  | Some m =>
      exists v,
        capture 1 m = Some v /\ content = trim v
        /\ title = join (js " ") (firstn 5 (pieces false [] content))
        /\ forallb (forallb nonspace) (pieces false [] content) = true
  | None => title = js "New Entry" /\ content = trim input
  end.
Proof.
  intros H Hc. apply knowledge_create_inv in H.
  unfold KnowledgeCreate.extract in H. rewrite Hc in H.
  destruct (str_match (trim input) KnowledgeCreate.simple) as [m|] eqn:Es.
  - destruct (capture_defined KnowledgeCreate.simple 1 [] (trim input) eq_refl Es)
      as [v Ev].
    rewrite Ev in H. cbn [trim_of bind] in H. injection H as <- <-.
    exists v. split; [exact Ev|]. split; [reflexivity|].
    rewrite split_spaces, slice0_firstn. split; [reflexivity|].
    apply pieces_nonspace. reflexivity.
  - injection H as <- <-. split; reflexivity.
Qed.

Lemma knowledge_title_words_witness :
  match str_match (trim (js "remember to water  the plants every single day "))
                  KnowledgeCreate.simple with
  | Some m =>
      exists v,
        capture 1 m = Some v
        /\ js "to water  the plants every single day" = trim v
        /\ js "to water the plants every"
           = join (js " ")
                  (firstn 5 (pieces false [] (js "to water  the plants every single day")))
        /\ forallb (forallb nonspace)
                   (pieces false [] (js "to water  the plants every single day")) = true
  | None =>
      js "to water the plants every" = js "New Entry"
      /\ js "to water  the plants every single day"
         = trim (js "remember to water  the plants every single day ")
  end.
Proof.
  apply (@knowledge_title_words (js "remember to water  the plants every single day ")).
  - vm_compute. reflexivity.
  - vm_compute. reflexivity.
Defined.

(** ** A knowledge entry written without a colon has a title *)

Lemma space_terminator (c : char) : is_space c = false -> not_terminator c = true.
Proof.
  unfold not_terminator, is_line_terminator, is_space, between.
  repeat match goal with
         | |- context [(?a =? ?b)%N] => destruct (N.eqb_spec a b)
         | |- context [(?a <=? ?b)%N] => destruct (N.leb_spec a b)
         end; cbn; intros Hz; try discriminate Hz; try reflexivity; lia.
Qed.

(** A trimmed text that is not empty ends with a character that is not
    white space. *)
Lemma trim_last (x : str) :
  trim x <> [] -> exists l d, trim x = l ++ [d] /\ is_space d = false.
Proof.
  unfold trim, trimEnd. intros H.
  pose proof (trimStart_head (rev (trimStart x))) as Hh.
  destruct (trimStart (rev (trimStart x))) as [|d t]; [exfalso; apply H; reflexivity|].
  exists (rev t), d. split; [reflexivity|exact Hh].
Qed.

(** What follows the white space at the end of a part of such a text. *)
Lemma after_spaces (a b l : str) (d : char) :
  a ++ b = l ++ [d] -> is_space d = false -> b <> [] ->
  exists e rest, drop_while is_space b = e :: rest /\ is_space e = false
                 /\ exists l', e :: rest = l' ++ [d].
Proof.
  intros E Hd Hb.
  assert (Eb : exists b0, b = b0 ++ [d]).
  { destruct (exists_last Hb) as [b0 [d' Eb]]. rewrite Eb, app_assoc in E.
    apply app_inj_tail in E. destruct E as [_ <-]. exists b0. exact Eb. }
  destruct Eb as [b0 ->]. clear E Hb.
  induction b0 as [|c b0 IH]; cbn [app drop_while].
  - rewrite Hd. exists d, []. split; [reflexivity|]. split; [exact Hd|].
    exists []. reflexivity.
  - destruct (is_space c) eqn:Ec; [exact IH|].
    exists c, (b0 ++ [d]). split; [reflexivity|]. split; [exact Ec|].
    exists (c :: b0). reflexivity.
Qed.

(** [(.+)] at the end of a pattern takes the rest of the line. *)
Lemma rest_of_line (x0 : mstate) (bef : str) (c : char) (rest : str)
      (cs : list (nat * str)) :
  is_space c = false ->
  exists z v,
    rmatch true (Group 1 (Plus true Dot)) (fun y => Some (set_cap 0 (consumed x0 y) y))
           (MState bef (c :: rest) cs) = Some z
    /\ lookup 1 (caps z) = Some (c :: v).
Proof.
  intros Hc. apply space_terminator in Hc.
  set (l1 := take_while not_terminator rest). set (l2 := drop_while not_terminator rest).
  assert (E : rest = l1 ++ l2) by apply take_drop_while.
  eexists. exists l1. cbn [rmatch]. unfold Plus. cbn [rmatch].
  unfold char_matcher at 1. cbn [after]. fold (not_terminator c). rewrite Hc.
  unfold advance. cbn [before caps after].
  split.
  - rewrite E at 1 2.
    apply (@repeat_greedy_max not_terminator l1 l2 (take_while_all _ _)
             (drop_while_head _ _)); [rewrite length_app; lia|].
    reflexivity.
  - cbn [caps set_cap lookup Nat.eqb]. unfold consumed. cbn [after length].
    f_equal. change (c :: rest) with ([c] ++ rest). rewrite E at 2.
    rewrite app_assoc. apply firstn_length_app.
    rewrite E, !length_app. cbn [length]. lia.
Qed.

(** [\s+] takes all the white space ahead when what follows it in the
    pattern accepts there. *)
Lemma spaces_then (k : cont) (bef aft : str) (cs : list (nat * str)) (z : mstate)
      (P : mstate -> Prop) :
  (head_is is_space aft = true ->
   exists z', k (MState (rev (take_while is_space aft) ++ bef)
                        (drop_while is_space aft) cs) = Some z' /\ P z') ->
  rmatch true sp1 k (MState bef aft cs) = Some z -> P z.
Proof.
  intros Hk H.
  destruct (head_is is_space aft) eqn:Eh.
  - destruct (Hk eq_refl) as (z' & Hk' & Hz).
    assert (Hne : take_while is_space aft <> []).
    { destruct aft as [|c aft]; [discriminate Eh|]. cbn [head_is] in Eh.
      cbn [take_while]. rewrite Eh. discriminate. }
    pose proof (@plus_run true [ASpace] is_space space_class
                  (take_while is_space aft) (drop_while is_space aft) k bef cs z'
                  Hne (take_while_all _ _) (drop_while_head _ _) Hk') as Hrun.
    rewrite <- take_drop_while in Hrun. unfold sp1 in H. rewrite Hrun in H.
    injection H as <-. exact Hz.
  - unfold sp1 in H.
    rewrite (@plus_none true [ASpace] is_space space_class k (MState bef aft cs) Eh) in H.
    discriminate H.
Qed.

Lemma drop_while_shorter (aft : str) :
  head_is is_space aft = true -> length (drop_while is_space aft) < length aft.
Proof.
  destruct aft as [|c aft]; [discriminate|]. cbn [head_is drop_while length].
  intros ->. pose proof (drop_while_length is_space aft). lia.
Qed.

(** The rest of the line after white space, in a text that does not end
    with white space. *)
Lemma spaces_then_line (pre aft l : str) (d : char) (bef : str)
      (cs : list (nat * str)) (z : mstate) (k : cont) :
  pre ++ aft = l ++ [d] -> is_space d = false ->
  (forall bef' c rest l', is_space c = false -> c :: rest = l' ++ [d] ->
     length (c :: rest) < length aft ->
     exists z', k (MState bef' (c :: rest) cs) = Some z' /\ line_starts z') ->
  rmatch true sp1 k (MState bef aft cs) = Some z ->
  line_starts z.
Proof.
  intros E Hd Hk. apply spaces_then. intros Eh.
  assert (Hne : aft <> []) by (destruct aft; [discriminate Eh|discriminate]).
  destruct (@after_spaces pre aft l d E Hd Hne) as (e & rest & Edrop & He & l' & El).
  rewrite Edrop. apply (Hk _ e rest l' He El).
  rewrite <- Edrop. apply drop_while_shorter, Eh.
Qed.

(** A filler word, white space and the rest of the line. *)
Lemma filler_word_then (v : str) (x0 y : mstate) (l : str) (d : char) (z : mstate) :
  after y = l ++ [d] -> is_space d = false ->
  rmatch true (Seq (lit v) sp1)
         (fun y' => if no_progress y y' then None
                    else rmatch true (Group 1 (Plus true Dot))
                                (fun y1 => Some (set_cap 0 (consumed x0 y1) y1)) y') y
  = Some z ->
  line_starts z.
Proof.
  intros Ey Hd H. destruct y as [bef aft cs]. cbn [after] in Ey.
  cbn [rmatch] in H. rewrite rmatch_lit in H.
  destruct (prefix_match true v aft); [|discriminate H].
  revert H.
  apply (@spaces_then_line (firstn (length v) aft) (skipn (length v) aft) l d);
    [rewrite firstn_skipn; exact Ey|exact Hd|].
  intros bef' c rest l' Hc El Hlen.
  unfold no_progress. cbn [after].
  assert (Hs : length (skipn (length v) aft) <= length aft)
    by (rewrite length_skipn; lia).
  destruct (Nat.eqb_spec (length (c :: rest)) (length aft)) as [Eq|_]; [lia|].
  destruct (@rest_of_line x0 bef' c rest cs Hc) as (z' & w & Hz & Hw).
  exists z'. split; [exact Hz|]. exists c, w. split; assumption.
Qed.

Lemma alts_first (ic : bool) (rs : list regex) (k : cont) (y z : mstate)
      (P : mstate -> Prop) :
  rs <> [] ->
  (forall r z', In r rs -> rmatch ic r k y = Some z' -> P z') ->
  rmatch ic (alts rs) k y = Some z -> P z.
Proof.
  induction rs as [|r rs IH]; [congruence|]. intros _ Hall.
  destruct rs as [|r' rs].
  - cbn [alts]. apply Hall. left. reflexivity.
  - change (alts (r :: r' :: rs)) with (Alt r (alts (r' :: rs))). cbn [rmatch].
    destruct (rmatch ic r k y) as [z1|] eqn:E1.
    + intros H. injection H as <-. apply (Hall r z1); [left; reflexivity|exact E1].
    + apply IH; [discriminate|]. intros r0 z' Hin. apply Hall. right. exact Hin.
Qed.

(** The filler, or none, and the rest of the line. *)
Lemma filler_then_line (x0 y : mstate) (c : char) (rest l : str) (d : char) :
  after y = c :: rest -> is_space c = false -> c :: rest = l ++ [d] -> is_space d = false ->
  exists z,
    rmatch true
      (Seq (Opt (alts [Seq (w "that") sp1; Seq (w "this") sp1; Seq (w "our") sp1;
                       Seq (w "the") sp1; Seq (c_ "a") sp1]))
           (Group 1 (Plus true Dot)))
      (fun y1 => Some (set_cap 0 (consumed x0 y1) y1)) y = Some z
    /\ line_starts z.
Proof.
  intros Ey Hc El Hd.
  assert (Ey' : after y = l ++ [d]) by (rewrite Ey; exact El).
  set (F := alts [Seq (w "that") sp1; Seq (w "this") sp1; Seq (w "our") sp1;
                  Seq (w "the") sp1; Seq (c_ "a") sp1]).
  set (Kend := fun y1 => Some (set_cap 0 (consumed x0 y1) y1)).
  change (rmatch true (Seq (Opt F) (Group 1 (Plus true Dot))) Kend y)
    with (match rmatch true F
                  (fun y' => if no_progress y y' then None
                             else rmatch true (Group 1 (Plus true Dot)) Kend y') y with
          | Some z => Some z
          | None => rmatch true (Group 1 (Plus true Dot)) Kend y
          end).
  destruct (rmatch true F _ y) as [z|] eqn:EF.
  - exists z. split; [reflexivity|]. revert EF. unfold F.
    apply alts_first; [discriminate|].
    intros r z' Hin Hr. cbn [In] in Hin.
    destruct Hin as [<-|[<-|[<-|[<-|[<-|[]]]]]].
    + exact (@filler_word_then (js "that") x0 y l d z' Ey' Hd Hr).
    + exact (@filler_word_then (js "this") x0 y l d z' Ey' Hd Hr).
    + exact (@filler_word_then (js "our") x0 y l d z' Ey' Hd Hr).
    + exact (@filler_word_then (js "the") x0 y l d z' Ey' Hd Hr).
    + exact (@filler_word_then (js "a") x0 y l d z' Ey' Hd Hr).
  - destruct y as [bef aft cs]. cbn [after] in Ey. subst aft.
    destruct (@rest_of_line x0 bef c rest cs Hc) as (z' & v & Hz & Hv).
    exists z'. split; [exact Hz|]. exists c, v. split; assumption.
Qed.

(** The group of the second pattern captures a text that starts with a
    character that is not white space, when the text searched ends with
    one. *)
Lemma simple_capture (s l : str) (d : char) (m : match_result) :
  s = l ++ [d] -> is_space d = false ->
  str_match s KnowledgeCreate.simple = Some m ->
  exists c v, capture 1 m = Some (c :: v) /\ is_space c = false.
Proof.
  intros Es Hd H. unfold str_match in H.
  destruct (exec_from_inv _ _ _ H) as (a & b & Eab & _ & Hm).
  unfold capture. generalize dependent (final m). clear m H. intros z Hm.
  change (ignoreCase KnowledgeCreate.simple) with true in Hm.
  change (pattern KnowledgeCreate.simple)
    with (Seq WordB (Seq (alts (map (@lit) storage_verbs))
            (Seq sp1
               (Seq (Opt (alts [Seq (w "that") sp1; Seq (w "this") sp1; Seq (w "our") sp1;
                                Seq (w "the") sp1; Seq (c_ "a") sp1]))
                    (Group 1 (Plus true Dot)))))) in Hm.
  set (x0 := MState (rev a ++ []) b []) in Hm.
  set (R := Seq (Opt _) (Group 1 (Plus true Dot))) in Hm.
  set (Kend := fun y1 => Some (set_cap 0 (consumed x0 y1) y1)).
  change (rmatch true (Group 0 (Seq WordB (Seq (alts (map (@lit) storage_verbs)) (Seq sp1 R))))
                 Some x0)
    with (if at_word_boundary x0
          then rmatch true (alts (map (@lit) storage_verbs))
                      (rmatch true sp1 (rmatch true R Kend)) x0
          else None) in Hm.
  destruct (at_word_boundary x0); [|discriminate Hm].
  destruct (@words_inv_state true storage_verbs _ x0 z ltac:(discriminate) Hm)
    as (v & p & rest & _ & Ex & _ & _ & Hk).
  cbn [after x0] in Ex. revert Hk.
  apply (@spaces_then_line (a ++ p) rest l d).
  - rewrite <- app_assoc, <- Ex, <- Eab. exact Es.
  - exact Hd.
  - intros bef' c rest' l' Hc El _.
    exact (@filler_then_line x0 (MState bef' (c :: rest') (caps x0)) c rest' l' d
             eq_refl Hc El Hd).
Qed.

Lemma pieces_first (s : str) :
  forall cur, cur <> [] -> exists p l, pieces false cur s = p :: l /\ p <> [].
Proof.
  assert (R : forall cur : str, cur <> [] -> rev cur <> []).
  { intros [|a t] H; [congruence|]. cbn [rev]. intros E.
    symmetry in E. exact (app_cons_not_nil _ _ _ E). }
  induction s as [|c s IH]; intros cur Hcur; cbn [pieces].
  - exists (rev cur), []. split; [reflexivity|apply R, Hcur].
  - destruct (is_space c).
    + exists (rev cur), (pieces true [] s). split; [reflexivity|apply R, Hcur].
    + apply IH. discriminate.
Qed.

Lemma join_first (sep p : str) (l : list str) : p <> [] -> join sep (p :: l) <> [].
Proof.
  intros Hp. destruct l as [|q l]; [exact Hp|].
  change (join sep (p :: q :: l)) with (p ++ sep ++ join sep (q :: l)).
  destruct p; [congruence|discriminate].
Qed.

(** X22. A knowledge entry written without a colon has a title and a
    content: when the pattern with the colon does not match the trimmed
    input, neither the title nor the content is empty. *)
Theorem knowledge_title_given (input title content : str) :
  detectIntent input = Ok (Some (knowledge_create, KnowledgeCreate title content)) ->
  str_match (trim input) KnowledgeCreate.colon = None ->
  title <> [] /\ content <> [].
Proof.
  intros H Hc.
  pose proof (@detected_nonempty input _ _ H ltac:(discriminate)) as Hx.
  apply knowledge_create_inv in H.
  unfold KnowledgeCreate.extract in H. rewrite Hc in H.
  destruct (str_match (trim input) KnowledgeCreate.simple) as [m|] eqn:Es.
  - destruct (trim_last input Hx) as (l & d & El & Hd).
    destruct (@simple_capture (trim input) l d m El Hd Es) as (c & v & Ev & Hcv).
    rewrite Ev in H. cbn [trim_of bind] in H. injection H as <- <-.
    pose proof (@trim_keeps [] v c Hcv) as Hne. cbn [app] in Hne.
    split; [|exact Hne].
    rewrite split_spaces, slice0_firstn.
    pose proof (trim_head (c :: v)) as Hh.
    destruct (trim (c :: v)) as [|e t]; [congruence|]. cbn [head_is] in Hh.
    cbn [pieces]. rewrite Hh.
    destruct (@pieces_first t [e] ltac:(discriminate)) as (p & ps & -> & Hp).
    cbn [firstn]. apply join_first, Hp.
  - injection H as <- <-. split; [discriminate|exact Hx].
Qed.

Lemma knowledge_title_given_witness :
  detectIntent (js "remember  the milk")
  = Ok (Some (knowledge_create, KnowledgeCreate (js "milk") (js "milk")))
  /\ js "milk" <> [] /\ js "milk" <> [].
Proof.
  assert (H : detectIntent (js "remember  the milk")
              = Ok (Some (knowledge_create, KnowledgeCreate (js "milk") (js "milk"))))
    by (vm_compute; reflexivity).
  split; [exact H|].
  apply (@knowledge_title_given (js "remember  the milk") _ _ H).
  vm_compute. reflexivity.
Defined.
